(** * Streaming dataframe accumulators (streamz/dataframe.py)

    A shallow embedding of the accumulator step functions of
    [streamz/dataframe.py] and of the facades that register them, together
    with the properties of the running aggregates they maintain.

    The step functions are written against pandas.  The pandas operations
    they call ([sum], [count], [concat], [rolling], [iloc], [loc],
    [groupby], [add], [copy], ...) are modelled in [Module Pandas] over
    exact integer data: a cell is [Some z] or the missing value [None]
    (NaN), a quotient of two totals is an exact rational or one of the
    special floats.  [Module Float64] runs the sum, the mean and the
    grouped sum over float64 cells, where the additions round.  Batches
    are data frames (streams of series are in [Module StreamingSeries]);
    a series labelled by column names or by group keys is a finite map
    from the label to its value. *)

From Stdlib Require Import ZArith QArith Lia PrimFloat.
From stdpp Require Import gmap strings list.

Local Open Scope Z_scope.

(** ** Python exceptions and the error monad *)

Inductive exn : Type :=
| AttributeError
| IndexError
| KeyError
| ValueError
| AssertionError
| TypeError.

Inductive res (A : Type) : Type :=
| Ok (a : A)
| Raise (e : exn).
Arguments Ok {A} a.
Arguments Raise {A} e.

Global Instance res_ret : MRet res := λ A a, Ok a.
Global Instance res_bind : MBind res := λ A B f m,
  match m with
  | Ok a => f a
  | Raise e => Raise e
  end.
Global Instance res_fmap : FMap res := λ A B f m,
  match m with
  | Ok a => Ok (f a)
  | Raise e => Raise e
  end.

Module Pandas.

(** *** Cells *)

(** A numeric cell: [None] is NaN / missing. *)
Abbreviation value := (option Z).

(** The result of a true division. *)
Inductive fval : Type :=
| Fin (q : Q)
| NaN
| PInf
| NInf.

(** [a + b] on cells: NaN is absorbing. *)
Definition vadd (a b : value) : value :=
  match a, b with
  | Some x, Some y => Some (x + y)
  | _, _ => None
  end.

(** [a + b] under [fill_value=0]: a cell missing on one side counts as
    [0]; a cell missing on both sides stays missing. *)
Definition vadd_fill (a b : value) : value :=
  match a, b with
  | Some x, Some y => Some (x + y)
  | Some x, None => Some x
  | None, Some y => Some y
  | None, None => None
  end.

(** [a / b] on cells: true division, [0 / 0] is NaN, [x / 0] is an
    infinity, NaN is absorbing. *)
Definition vdiv (a b : value) : fval :=
  match a, b with
  | Some x, Some y =>
      if y =? 0 then
        if x =? 0 then NaN else if 0 <? x then PInf else NInf
      else Fin (Qred (Qdiv (inject_Z x) (inject_Z y)))
  | _, _ => NaN
  end.

(** Sum and count of a column, both skipping missing cells; the sum of no
    cell is [0]. *)
Definition sum_valid (vs : list value) : Z :=
  foldr (λ v a, match v with Some z => z + a | None => a end) 0 vs.

Definition count_valid (vs : list value) : Z :=
  foldr (λ v a, match v with Some _ => 1 + a | None => a end) 0 vs.

(** *** Frames *)

(** A row: its index label (a position on the time axis for a datetime
    index) and one cell per column. *)
Record Row (A : Type) : Type := mkRow { label : Z; cells : list A }.
Arguments mkRow {A} label cells.
Arguments label {A} r.
Arguments cells {A} r.

Record DataFrame (A : Type) : Type :=
  mkDF { columns : list string; rows : list (Row A) }.
Arguments mkDF {A} columns rows.
Arguments columns {A} d.
Arguments rows {A} d.

(** [len(df)] *)
Definition len {A} (df : DataFrame A) : nat := length (rows df).

(** The cell at position [j] of a list of cells; a list that is too short
    is missing there. *)
Definition pick (j : nat) (cs : list value) : value := default None (cs !! j).

Definition cell (j : nat) (r : Row value) : value := pick j (cells r).

Definition column (j : nat) (rs : list (Row value)) : list value :=
  map (cell j) rs.

(** The position of the first column named [k]. *)
Fixpoint position (k : string) (cs : list string) : option nat :=
  match cs with
  | [] => None
  | c :: cs' => if decide (c = k) then Some 0%nat else S <$> position k cs'
  end.

(** A series labelled by column names. *)
Abbreviation LSeries A := (gmap string A).

(** A series built column by column from a function of the position. *)
Definition labelled_by {A} (F : nat → A) (cs : list string) : LSeries A :=
  list_to_map (imap (λ j c, (c, F j)) cs).

(** The reduction of every column of a frame by [f], labelled by the
    column names: the shape of [df.sum()] and [df.count()]. *)
Definition reduce_columns {A} (f : list value → A) (df : DataFrame value)
  : LSeries A :=
  labelled_by (λ j, f (column j (rows df))) (columns df).

(** [df.sum()] *)
Definition df_sum (df : DataFrame value) : LSeries value :=
  reduce_columns (λ vs, Some (sum_valid vs)) df.

(** [df.count()] *)
Definition df_count (df : DataFrame value) : LSeries value :=
  reduce_columns (λ vs, Some (count_valid vs)) df.

(** [df.mean()]: the reference mean of every column. *)
Definition df_mean (df : DataFrame value) : LSeries fval :=
  reduce_columns (λ vs, vdiv (Some (sum_valid vs)) (Some (count_valid vs))) df.

(** [a + b] on two labelled series: the labels are aligned, a label that
    one side lacks is NaN in the result. *)
Definition series_add (a b : LSeries value) : LSeries value :=
  merge (λ x y,
           match x, y with
           | Some x, Some y => Some (vadd x y)
           | Some _, None | None, Some _ => Some None
           | None, None => None
           end) a b.

(** [a / b] on two labelled series, aligned the same way. *)
Definition series_div (a b : LSeries value) : LSeries fval :=
  merge (λ x y,
           match x, y with
           | Some x, Some y => Some (vdiv x y)
           | Some _, None | None, Some _ => Some NaN
           | None, None => None
           end) a b.

(** The cells of a row laid out for the columns [to], read from a row laid
    out for the columns [from]. *)
Definition reindex_cells {A} (from to : list string) (cs : list (option A))
  : list (option A) :=
  map (λ c, match position c from with
            | Some j => default None (cs !! j)
            | None => None
            end) to.

Definition reindex_rows {A} (from to : list string)
  (rs : list (Row (option A))) : list (Row (option A)) :=
  map (λ r, mkRow (label r) (reindex_cells from to (cells r))) rs.

(** The union of two column lists, in first-seen order. *)
Definition union_columns (a b : list string) : list string :=
  a ++ filter (λ c, c ∉ a) b.

(** [pd.concat([a, b])]: the rows of [a] followed by the rows of [b].
    With equal column lists the rows are taken as they are; otherwise both
    frames are laid out on the union of the columns and filled with NaN. *)
Definition concat {A} (a b : DataFrame (option A)) : DataFrame (option A) :=
  if decide (columns a = columns b) then mkDF (columns a) (rows a ++ rows b)
  else
    let cs := union_columns (columns a) (columns b) in
    mkDF cs (reindex_rows (columns a) cs (rows a)
             ++ reindex_rows (columns b) cs (rows b)).

(** [pd.concat([b, b1, ..., bn])] *)
Definition concat_list {A} (b : DataFrame (option A))
  (bs : list (DataFrame (option A))) : DataFrame (option A) :=
  foldl concat b bs.

(** *** Slices *)

(** The position a Python slice [x[start:]] starts at in a sequence of
    length [n]: a negative start counts from the end and is clipped at the
    beginning. *)
Definition slice_start (start : Z) (n : nat) : nat :=
  if start <? 0 then Z.to_nat (Z.max (Z.of_nat n + start) 0)
  else Z.to_nat start.

(** [df.iloc[start:]] *)
Definition iloc_from {A} (start : Z) (df : DataFrame A) : DataFrame A :=
  mkDF (columns df) (drop (slice_start start (len df)) (rows df)).

Fixpoint dropwhile {A} (p : A → bool) (l : list A) : list A :=
  match l with
  | [] => []
  | x :: l' => if p x then dropwhile p l' else l
  end.

(** [df.loc[x:]] on a monotonic index: the rows from the first one whose
    label is at least [x]. *)
Definition loc_from {A} (x : Z) (df : DataFrame A) : DataFrame A :=
  mkDF (columns df) (dropwhile (λ r, label r <? x) (rows df)).

(** [df.index.max()]; [None] (NaT) on an empty frame. *)
Definition index_max {A} (rs : list (Row A)) : option Z :=
  foldr (λ r m, Some (match m with
                      | Some z => Z.max (label r) z
                      | None => label r
                      end)) None rs.

(** [df.index.is_monotonic]: the labels never decrease. *)
Fixpoint is_monotonic {A} (rs : list (Row A)) : bool :=
  match rs with
  | r :: (r' :: _) as tl => (label r <=? label r') && is_monotonic tl
  | _ => true
  end.

(** [df.index.is_monotonic_decreasing]: the labels never increase.
    [df_rolling] below follows the pandas the source was written for,
    which rolls a duration over a non-decreasing index only; later
    versions also take an index that never increases, and refuse, as all
    versions do, an index that goes both up and down. *)
Fixpoint is_monotonic_decreasing {A} (rs : list (Row A)) : bool :=
  match rs with
  | r :: (r' :: _) as tl =>
      (label r' <=? label r) && is_monotonic_decreasing tl
  | _ => true
  end.

(** *** Rolling windows *)

(** A window: a number of rows, or a duration on the index. *)
Inductive Window : Type :=
| Rows (w : Z)
| Duration (d : Z).

(** A rolling aggregation ([sum], [mean], [min], ..., with its arguments):
    the value it gives, under [min_periods], to the cells of one column
    that lie inside a window. *)
Definition RollOp (R : Type) : Type := nat → list value → R.

(** [rolling(...).sum()] *)
Definition roll_sum : RollOp value :=
  λ min_periods vs,
    if count_valid vs <? Z.of_nat min_periods then None
    else Some (sum_valid vs).

(** The last [n] rows. *)
Definition last_rows {A} (n : nat) (l : list A) : list A :=
  drop (length l - n) l.

(** The rows inside the window that ends at the last row of [p]: the last
    [w] rows, or the rows whose label is later than the last label minus
    the duration. *)
Definition window_rows {A} (w : Window) (p : list (Row A)) : list (Row A) :=
  match w with
  | Rows n => last_rows (Z.to_nat n) p
  | Duration d =>
      match last p with
      | Some r => dropwhile (λ x, label x <=? label r - d) p
      | None => []
      end
  end.

(** The rolling results of the rows [rest], which follow the rows [pre]. *)
Fixpoint rolling_rows {R} (w : Window) (mp : nat) (op : RollOp R)
  (ncols : nat) (pre rest : list (Row value)) : list (Row R) :=
  match rest with
  | [] => []
  | r :: rest' =>
      let p := pre ++ [r] in
      mkRow (label r)
        (map (λ j, op mp (column j (window_rows w p))) (seq 0 ncols))
      :: rolling_rows w mp op ncols p rest'
  end.

(** [getattr(df.rolling(window, min_periods), op)] called on the arguments
    of the aggregation, which the kernel [op] holds: one result row per
    row of [df].  A negative row count and a [min_periods]
    larger than the row count are refused, a duration needs a monotonic
    index.  Without [min_periods] pandas takes the row count itself for a
    row-count window and [1] for a duration. *)
Definition df_rolling {R} (df : DataFrame value) (window : Window)
  (min_periods : option nat) (op : RollOp R) : res (DataFrame R) :=
  let go mp :=
    mkDF (columns df)
      (rolling_rows window mp op (length (columns df)) [] (rows df)) in
  match window with
  | Rows w =>
      if w <? 0 then Raise ValueError
      else match min_periods with
           | Some mp => if w <? Z.of_nat mp then Raise ValueError else Ok (go mp)
           | None => Ok (go (Z.to_nat w))
           end
  | Duration d =>
      if is_monotonic (rows df) then Ok (go (default 1%nat min_periods))
      else Raise ValueError
  end.

(** *** Grouping *)

(** What a frame is grouped by; a key [None] is NaN and its row belongs
    to no group. *)
Inductive Grouper : Type :=
| ByColumn (c : string)
| ByFunction (f : Z → option Z)
| BySeries (s : list (Z * option Z)).

(** [df.groupby(grouper)], possibly narrowed by [g[index]]. *)
Record GroupBy : Type := mkGroupBy {
  g_columns : list string;
  g_keycol : option nat;
  g_selection : option nat;
  g_rows : list (Z * list value)
}.

(** The key a series of keys gives to every row: by position when the
    two indexes are equal, else by the label. *)
Definition series_keys {A} (s : list (Z * option Z)) (rs : list (Row A))
  : list (option Z) :=
  if decide (map fst s = map label rs) then map snd s
  else map (λ r, '(_, k) ← list_find (λ x, x.1 = label r) s; k.2) rs.

Definition keyed_rows (ks : list (option Z)) (rs : list (Row value))
  : list (Z * list value) :=
  omap (λ kr, k ← kr.1; Some (k, cells kr.2)) (zip ks rs).

Definition df_groupby (df : DataFrame value) (grouper : option Grouper)
  : res GroupBy :=
  match grouper with
  | None => Raise TypeError
  | Some (ByColumn c) =>
      match position c (columns df) with
      | None => Raise KeyError
      | Some j =>
          Ok (mkGroupBy (columns df) (Some j) None
                (keyed_rows (column j (rows df)) (rows df)))
      end
  | Some (ByFunction f) =>
      Ok (mkGroupBy (columns df) None None
            (keyed_rows (map (λ r, f (label r)) (rows df)) (rows df)))
  | Some (BySeries s) =>
      Ok (mkGroupBy (columns df) None None
            (keyed_rows (series_keys s (rows df)) (rows df)))
  end.

(** [g[index]] *)
Definition groupby_getitem (g : GroupBy) (index : string) : res GroupBy :=
  match position index (g_columns g) with
  | None => Raise KeyError
  | Some j => Ok (mkGroupBy (g_columns g) (g_keycol g) (Some j) (g_rows g))
  end.

(** The columns an aggregation of the groups reports: the selected one,
    or all but the key column. *)
Definition out_positions (g : GroupBy) : list nat :=
  match g_selection g with
  | Some j => [j]
  | None => filter (λ j, Some j ≠ g_keycol g) (seq 0 (length (g_columns g)))
  end.

Definition out_columns (g : GroupBy) : list string :=
  omap (λ j, g_columns g !! j) (out_positions g).

(** A table indexed by group key, one list of cells per key. *)
Record GTable (A : Type) : Type :=
  mkTable { t_columns : list string; t_rows : gmap Z (list A) }.
Arguments mkTable {A} t_columns t_rows.
Arguments t_columns {A} _.
Arguments t_rows {A} _.

(** The keys of some keyed rows. *)
Definition keys (krs : list (Z * list value)) : list Z := map fst krs.

(** The cells of the rows of the group [k]. *)
Definition group_rows (k : Z) (krs : list (Z * list value))
  : list (list value) :=
  map snd (filter (λ kr, kr.1 = k) krs).

(** The reduction by [f] of the group [k] at the positions [ps]. *)
Definition group_reduce {A} (f : list value → A) (ps : list nat) (k : Z)
  (krs : list (Z * list value)) : list A :=
  map (λ j, f (map (pick j) (group_rows k krs))) ps.

(** [g.sum()], [g.count()], ...: one row per group that occurs. *)
Definition aggregate {A} (f : list value → A) (g : GroupBy) : GTable A :=
  mkTable (out_columns g)
    (list_to_map
       (map (λ k, (k, group_reduce f (out_positions g) k (g_rows g)))
          (keys (g_rows g)))).

Definition g_sum (g : GroupBy) : GTable value :=
  aggregate (λ vs, Some (sum_valid vs)) g.

Definition g_count (g : GroupBy) : GTable value :=
  aggregate (λ vs, Some (count_valid vs)) g.

(** A binary operation on two tables, aligned on the group keys and on
    the columns: a key or a column that one side lacks is NaN there. *)
Definition table_align {A B} (f : option A → option A → B)
  (a b : GTable (option A)) : GTable B :=
  let same := bool_decide (t_columns a = t_columns b) in
  let cs := if same then t_columns a
            else union_columns (t_columns a) (t_columns b) in
  let lay (from : list string) (r : option (list (option A))) :=
    match r with
    | Some cells => if same then cells else reindex_cells from cs cells
    | None => replicate (length cs) None
    end in
  mkTable cs
    (merge (λ x y,
              match x, y with
              | None, None => None
              | _, _ => Some (zip_with f (lay (t_columns a) x)
                                         (lay (t_columns b) y))
              end) (t_rows a) (t_rows b)).

(** [a.add(b, fill_value=0)] *)
Definition table_add (a b : GTable value) : GTable value :=
  table_align vadd_fill a b.

(** [a / b] *)
Definition table_div (a b : GTable value) : GTable fval :=
  table_align vdiv a b.

(** [x.copy()]: an equal value (a new object; the store is modelled
    separately, in [Module Store]). *)
Definition copy {A} (x : A) : A := x.

End Pandas.
Import Pandas.

(** ** The dataflow engine and the base facade *)

(** Modelled from the spec: [accumulate(step_fn, start, returns_state)] of
    the dataflow engine, which is not part of dataframe.py.  The step
    function is called once per batch in arrival order; it returns the new
    state and the emitted result, and an exception leaves the fold. *)
Fixpoint accumulate {S B R} (step_fn : S → B → res (S * R)) (start : S)
  (bs : list B) : res (S * list R) :=
  match bs with
  | [] => Ok (start, [])
  | b :: bs' =>
      '(s, r) ← step_fn start b;
      '(s', rs) ← accumulate step_fn s bs';
      Ok (s', r :: rs)
  end.

(** Modelled from the spec: without [returns_state] the value the step
    function returns is both the new state and the emitted result. *)
Definition collapse {S B} (f : S → B → res S) : S → B → res (S * S) :=
  λ s b, s' ← f s b; Ok (s', s').

(** Modelled from the spec: a facade delivers a batch by verifying it
    against the prototype and then handing it to the accumulator
    registered on its stream; [emit] of collection.py is not part of
    dataframe.py.  The state after the call and what the call gives
    back: the emitted result or the exception. *)
Definition emit {S B R} (verify : B → res ()) (step_fn : S → B → res (S * R))
  (state : S) (x : B) : S * res R :=
  match verify x with
  | Raise e => (state, Raise e)
  | Ok _ =>
      match step_fn state x with
      | Ok (state', r) => (state', Ok r)
      | Raise e => (state, Raise e)
      end
  end.

(** A facade: the prototype and whether it stands for frames or for
    series. The stream behind it is the list of batches handed to
    [accumulate]. *)
Module Streaming.
Record t : Type := mk { is_frame : bool; example : DataFrame value }.
End Streaming.

(** What [map_partitions] is asked to apply to every batch. *)
Inductive MapFn : Type :=
| Getattr (key : string)
| Getitem (key : string).

(** The base class [Streaming] of collection.py, which the facades of
    dataframe.py extend, is not part of this file: its methods are an
    interface. *)
Class StreamingBase : Type := {
  map_partitions : Streaming.t → MapFn → res Streaming.t;
  base_verify : Streaming.t → DataFrame value → res ();
  base_attributes : list string
}.

(** A base facade to run the facades on: [map_partitions] keeps the
    prototype, [verify] accepts every frame, and the base class adds no
    attribute. *)
Definition plain_base : StreamingBase :=
  {| map_partitions := λ s _, Ok s;
     base_verify := λ _ _, Ok ();
     base_attributes := [] |}.

(** Python's attribute access: the regular lookup finds the attributes
    of the instance and of its classes; [__getattr__] is called only for
    a name that the regular lookup does not find. *)
Inductive Attribute (F : Type) : Type :=
| Regular (name : string)
| Computed (f : F).
Arguments Regular {F} name.
Arguments Computed {F} f.

Definition getattr {F} (known : list string) (hook : string → res F)
  (key : string) : res (Attribute F) :=
  if decide (key ∈ known) then Ok (Regular key) else Computed <$> hook key.

(** ** Sum accumulator *)

(** The running total of [StreamingFrame.sum]: the integer seed, or a
    series labelled by the columns. *)
Inductive Total : Type :=
| Scalar (z : Z)
| Labelled (s : LSeries value).

(** [accumulator + s] for a labelled series [s]: a scalar is broadcast. *)
Definition total_add (accumulator : Total) (s : LSeries value) : Total :=
  match accumulator with
  | Scalar z => Labelled (vadd (Some z) <$> s)
  | Labelled t => Labelled (series_add t s)
  end.

Definition _accumulate_sum (accumulator : Total) (new : DataFrame value)
  : Total :=
  total_add accumulator (df_sum new).

(** ** Mean accumulator *)

(** The state of the mean accumulator: a frame indexed by the column
    names, with the two columns ['sums'] and ['counts']. *)
Abbreviation MeanAcc := (gmap string (value * value)).

(** [accumulator['sums']] and [accumulator['counts']] *)
Definition get_sums (accumulator : MeanAcc) : LSeries value :=
  fst <$> accumulator.

Definition get_counts (accumulator : MeanAcc) : LSeries value :=
  snd <$> accumulator.

(** [accumulator['sums'] = s]: the series is laid out on the index of the
    frame, a label it lacks is NaN. *)
Definition set_sums (accumulator : MeanAcc) (s : LSeries value) : MeanAcc :=
  map_imap (λ k r, Some (default None (s !! k), r.2)) accumulator.

Definition set_counts (accumulator : MeanAcc) (s : LSeries value) : MeanAcc :=
  map_imap (λ k r, Some (r.1, default None (s !! k))) accumulator.

Definition _accumulate_mean (accumulator : MeanAcc) (new : DataFrame value)
  : MeanAcc * LSeries fval :=
  let accumulator := copy accumulator in
  let accumulator :=
    set_sums accumulator (series_add (get_sums accumulator) (df_sum new)) in
  let accumulator :=
    set_counts accumulator
      (series_add (get_counts accumulator) (df_count new)) in
  let result := series_div (get_sums accumulator) (get_counts accumulator) in
  (accumulator, result).

(** ** Rolling accumulator *)

(** The backlog: the empty tuple the facade starts from, or a frame. *)
Inductive RollAcc : Type :=
| EmptyTuple
| Backlog (df : DataFrame value).

(** [len(acc)] *)
Definition acc_len (acc : RollAcc) : nat :=
  match acc with
  | EmptyTuple => 0
  | Backlog df => len df
  end.

Definition rolling_accumulator {R} (acc : RollAcc) (new : DataFrame value)
  (window : Window) (op : RollOp R) : res (RollAcc * DataFrame R) :=
  let df :=
    match acc with
    | Backlog a => if bool_decide (len a ≠ 0%nat) then concat a new else new
    | EmptyTuple => new
    end in
  result ← df_rolling df window None op;
  let new_acc :=
    match window with
    | Rows w => iloc_from (- w) df
    | Duration d =>
        match index_max (rows result) with
        | Some m => loc_from (m - d) df
        | None => df
        end
    end in
  let result := iloc_from (Z.of_nat (acc_len acc)) result in
  Ok (Backlog new_acc, result).

(** ** Grouped accumulators *)

(** The running per-group total: the integer seed, or a table. *)
Inductive GroupAcc (A : Type) : Type :=
| IntSeed (z : Z)
| Table (t : GTable A).
Arguments IntSeed {A} z.
Arguments Table {A} t.

(** A stream element: a batch, or a batch zipped with the batch of the
    streaming grouper. *)
Inductive GroupInput : Type :=
| Plain (df : DataFrame value)
| Zipped (df : DataFrame value) (keys : list (Z * option Z)).

(** The first lines of both grouped step functions: the grouping of the
    batch, narrowed to [index]. *)
Definition group_input (new : GroupInput) (grouper : option Grouper)
  (index : option string) : res GroupBy :=
  '(new, grouper) ←
    match new with
    | Zipped df s =>
        match grouper with
        | None => Ok (df, Some (BySeries s))
        | Some _ => Raise AssertionError
        end
    | Plain df => Ok (df, grouper)
    end;
  g ← df_groupby new grouper;
  match index with
  | Some c => groupby_getitem g c
  | None => Ok g
  end.

Definition _accumulate_groupby_sum (accumulator : GroupAcc value)
  (new : GroupInput) (grouper : option Grouper) (index : option string)
  : res (GroupAcc value) :=
  g ← group_input new grouper index;
  match accumulator with
  | IntSeed _ => Ok (Table (g_sum g))
  | Table t => Ok (Table (table_add t (g_sum g)))
  end.

Definition _accumulate_groupby_mean
  (accumulator : GroupAcc value * GroupAcc value)
  (new : GroupInput) (grouper : option Grouper) (index : option string)
  : res ((GroupAcc value * GroupAcc value) * GTable fval) :=
  g ← group_input new grouper index;
  let '(sums, counts) := accumulator in
  '(sums, counts) ←
    match sums, counts with
    | IntSeed _, _ => Ok (g_sum g, g_count g)
    | Table sums, Table counts =>
        Ok (table_add sums (g_sum g), table_add counts (g_count g))
    | Table _, IntSeed _ => Raise AttributeError
    end;
  Ok ((Table sums, Table counts), table_div sums counts).

(** ** The facades *)

Module StreamingFrame.

(** Modelled from the spec: [accumulate_partitions] of the base facade,
    which is not part of dataframe.py, hands the step function and its
    start value to the dataflow engine. *)
Definition sum (bs : list (DataFrame value)) : res (Total * list Total) :=
  accumulate (collapse (λ s b, Ok (_accumulate_sum s b))) (Scalar 0) bs.

End StreamingFrame.

Module StreamingDataFrame.

(** The names the regular lookup finds on a streaming dataframe: what
    its classes in dataframe.py define, the two fields of the instance,
    and what the base class brings. *)
Definition attributes `{StreamingBase} : list string :=
  ["sum"; "round"; "rolling"; "_subtype"; "columns"; "__getitem__";
   "__getattr__"; "__dir__"; "verify"; "mean"; "groupby"; "assign";
   "to_frame"; "__setitem__"; "stream"; "example"]%string
  ++ base_attributes.

Definition columns (self : Streaming.t) : list string :=
  Pandas.columns (Streaming.example self).

Definition __getitem__ `{StreamingBase} (self : Streaming.t) (index : string)
  : res Streaming.t :=
  map_partitions self (Getitem index).

Definition __getattr__ `{StreamingBase} (self : Streaming.t) (key : string)
  : res Streaming.t :=
  if bool_decide (key ∈ columns self) || bool_decide (length (columns self) = 0%nat)
  then map_partitions self (Getattr key)
  else Raise AttributeError.

Definition verify `{StreamingBase} (self : Streaming.t) (x : DataFrame value)
  : res () :=
  _ ← base_verify self x;
  if bool_decide (Pandas.columns x ≠ Pandas.columns (Streaming.example self))
  then Raise IndexError
  else Ok ().

(** [pd.DataFrame({'sums': 0, 'counts': 0}, index=self.example.columns)] *)
Definition mean_start (self : Streaming.t) : MeanAcc :=
  labelled_by (λ _, (Some 0, Some 0)) (columns self).

Definition mean (self : Streaming.t) (bs : list (DataFrame value))
  : res (MeanAcc * list (LSeries fval)) :=
  accumulate (λ s b, Ok (_accumulate_mean s b)) (mean_start self) bs.

End StreamingDataFrame.

Module Rolling.

Record t : Type :=
  mk { sdf : Streaming.t; window : Window; min_periods : nat }.

(** The window argument of [rolling]: an [int], or anything else, which
    is turned into a [pd.Timedelta]. *)
Inductive WindowArg : Type :=
| IntArg (w : Z)
| TimedeltaArg (d : Z).

Definition __init__ (sdf : Streaming.t) (window : WindowArg)
  (min_periods : nat) : t :=
  match window with
  | IntArg w => mk sdf (Rows w) min_periods
  | TimedeltaArg d => mk sdf (Duration d) 1
  end.

(** The names the regular lookup finds on a rolling handle (the
    attributes every Python object has are left out). *)
Definition attributes : list string :=
  ["sdf"; "window"; "min_periods"; "__init__"; "__getitem__";
   "__getattr__"; "_known_aggregation"; "sum"; "mean"; "min"; "max";
   "median"; "std"; "var"; "count"; "aggregate"; "quantile"]%string.

Definition __getitem__ `{StreamingBase} (self : t) (key : string) : res t :=
  sdf ← StreamingDataFrame.__getitem__ (sdf self) key;
  Ok (mk sdf (window self) (min_periods self)).

Definition __getattr__ `{StreamingBase} (self : t) (key : string) : res t :=
  if bool_decide (key ∈ StreamingDataFrame.columns (sdf self))
     || bool_decide (length (StreamingDataFrame.columns (sdf self)) = 0%nat)
  then __getitem__ self key
  else Raise AttributeError.

Definition _known_aggregation {R} (self : t) (op : RollOp R)
  (bs : list (DataFrame value)) : res (RollAcc * list (DataFrame R)) :=
  accumulate (λ acc new, rolling_accumulator acc new (window self) op)
    EmptyTuple bs.

Definition sum (self : t) := _known_aggregation self roll_sum.

End Rolling.

(** [StreamingFrame.rolling(window, min_periods=1)]: without the keyword
    the handle is made with [min_periods = 1]. *)
Definition rolling (self : Streaming.t) (window : Rolling.WindowArg)
  (min_periods : option nat) : Rolling.t :=
  Rolling.__init__ self window (default 1%nat min_periods).

Module StreamingSeriesGroupby.

(** The grouper of the facade: another stream, or something pandas can
    group every batch by. *)
Inductive grouper_t : Type :=
| StreamGrouper (s : Streaming.t)
| StaticGrouper (g : Grouper).

Record t : Type :=
  mk { root : Streaming.t; grouper : grouper_t; index : option string }.

(** The names the regular lookup finds on a grouped handle (the
    attributes every Python object has are left out). *)
Definition attributes : list string :=
  ["root"; "grouper"; "index"; "__init__"; "__getitem__"; "__getattr__";
   "sum"; "mean"]%string.

Definition __getitem__ (self : t) (index : string) : t :=
  mk (root self) (grouper self) (Some index).

Definition __getattr__ (self : t) (key : string) : res t :=
  if bool_decide (key ∈ StreamingDataFrame.columns (root self))
     || bool_decide (length (StreamingDataFrame.columns (root self)) = 0%nat)
  then Ok (__getitem__ self key)
  else Raise AttributeError.

(** The elements of the stream the accumulator is registered on: the
    batches of the root, zipped with the batches of a streaming grouper. *)
Definition inputs (self : t) (bs : list (DataFrame value))
  (ks : list (list (Z * option Z))) : list GroupInput :=
  match grouper self with
  | StreamGrouper _ => zip_with Zipped bs ks
  | StaticGrouper _ => Plain <$> bs
  end.

(** The [grouper] argument that [partial] fixes. *)
Definition fixed_grouper (self : t) : option Grouper :=
  match grouper self with
  | StreamGrouper _ => None
  | StaticGrouper g => Some g
  end.

Definition sum (self : t) (bs : list (DataFrame value))
  (ks : list (list (Z * option Z)))
  : res (GroupAcc value * list (GroupAcc value)) :=
  accumulate
    (collapse (λ acc new,
       _accumulate_groupby_sum acc new (fixed_grouper self) (index self)))
    (IntSeed 0) (inputs self bs ks).

Definition mean (self : t) (bs : list (DataFrame value))
  (ks : list (list (Z * option Z)))
  : res ((GroupAcc value * GroupAcc value) * list (GTable fval)) :=
  accumulate
    (λ acc new,
       _accumulate_groupby_mean acc new (fixed_grouper self) (index self))
    (IntSeed 0, IntSeed 0) (inputs self bs ks).

End StreamingSeriesGroupby.

(** ** Streams of series *)

(** The step functions are also registered on streams of series: a batch
    is then a series, its sum and its count are scalars, and the state of
    the mean is a series with the two labels ['sums'] and ['counts']. *)
Module StreamingSeries.

(** A series batch: the index label and the value of every row. *)
Abbreviation Series := (list (Z * value)).

(** [s.sum()], [s.count()] and [s.mean()] *)
Definition s_sum (s : Series) : Z := sum_valid (map snd s).

Definition s_count (s : Series) : Z := count_valid (map snd s).

Definition s_mean (s : Series) : fval :=
  vdiv (Some (s_sum s)) (Some (s_count s)).

(** [pd.concat(l)] on series *)
Definition s_concat (l : list Series) : Series := foldr app [] l.

(** The state of the mean: the entries of the series under the labels
    ['sums'] and ['counts']. *)
Record MeanAcc : Type := mkAcc { sums : Z; counts : Z }.

Definition _accumulate_mean (accumulator : MeanAcc) (new : Series)
  : MeanAcc * fval :=
  let accumulator := copy accumulator in
  let accumulator := mkAcc (sums accumulator + s_sum new) (counts accumulator) in
  let accumulator :=
    mkAcc (sums accumulator) (counts accumulator + s_count new) in
  let result := vdiv (Some (sums accumulator)) (Some (counts accumulator)) in
  (accumulator, result).

(** [accumulator + new.sum()] for a scalar sum: a labelled total is
    broadcast over. *)
Definition _accumulate_sum (accumulator : Total) (new : Series) : Total :=
  match accumulator with
  | Scalar z => Scalar (z + s_sum new)
  | Labelled t => Labelled (vadd (Some (s_sum new)) <$> t)
  end.

(** [pd.Series({'sums': 0, 'counts': 0})] *)
Definition mean_start : MeanAcc := mkAcc 0 0.

Definition mean (bs : list Series) : res (MeanAcc * list fval) :=
  accumulate (λ s b, Ok (_accumulate_mean s b)) mean_start bs.

(** [StreamingFrame.sum], which the series facade inherits. *)
Definition sum (bs : list Series) : res (Total * list Total) :=
  accumulate (collapse (λ s b, Ok (_accumulate_sum s b))) (Scalar 0) bs.

End StreamingSeries.

(** ** The accumulators over float64 cells *)

(** The step functions once more, over columns of dtype float64, where
    [+] and [/] are the IEEE operations and round.  A cell is [Some x]
    for a float [x] that is not NaN, and [None] for NaN.  The frames,
    [pd.concat] and the alignment of tables are those of [Module
    Pandas]. *)
Module Float64.

Abbreviation cell := (option float).

(** A float as a cell. *)
Definition of_float (x : float) : cell :=
  if PrimFloat.is_nan x then None else Some x.

(** [a + b] on cells: NaN is absorbing. *)
Definition vadd (a b : cell) : cell :=
  match a, b with
  | Some x, Some y => of_float (x + y)
  | _, _ => None
  end.

(** [a + b] under [fill_value=0]: a cell missing on one side counts as
    [0]; a cell missing on both sides stays missing. *)
Definition vadd_fill (a b : cell) : cell :=
  match a, b with
  | Some x, Some y => of_float (x + y)
  | Some x, None => of_float (x + 0)
  | None, Some y => of_float (0 + y)
  | None, None => None
  end.

(** [a / b] on cells: [x / 0] is an infinity, [0 / 0] is NaN. *)
Definition vdiv (a b : cell) : cell :=
  match a, b with
  | Some x, Some y => of_float (x / y)
  | _, _ => None
  end.

(** The sum of a column: a missing cell counts as [0.0], and the cells
    are added one after the other from [0.0], which is the order numpy
    takes for a column of fewer than eight rows. *)
Definition sum_valid (vs : list cell) : float :=
  foldl (λ a v, (a + default 0 v)%float) 0%float vs.

(** The count of the cells of a column that are not missing; the integer
    is held as the float it is divided as. *)
Definition count_valid (vs : list cell) : float :=
  foldl (λ a v, match v with Some _ => (a + 1)%float | None => a end)
    0%float vs.

Definition pick (j : nat) (cs : list cell) : cell := default None (cs !! j).

Definition column (j : nat) (rs : list (Row cell)) : list cell :=
  map (λ r, pick j (cells r)) rs.

Definition reduce_columns {A} (f : list cell → A) (df : DataFrame cell)
  : LSeries A :=
  labelled_by (λ j, f (column j (rows df))) (columns df).

(** [df.sum()], [df.count()] and [df.mean()] *)
Definition df_sum (df : DataFrame cell) : LSeries cell :=
  reduce_columns (λ vs, of_float (sum_valid vs)) df.

Definition df_count (df : DataFrame cell) : LSeries cell :=
  reduce_columns (λ vs, of_float (count_valid vs)) df.

Definition df_mean (df : DataFrame cell) : LSeries cell :=
  reduce_columns (λ vs, of_float (sum_valid vs / count_valid vs)) df.

(** [a + b] and [a / b] on two labelled series: the labels are aligned, a
    label that one side lacks is NaN in the result. *)
Definition series_add (a b : LSeries cell) : LSeries cell :=
  merge (λ x y,
           match x, y with
           | Some x, Some y => Some (vadd x y)
           | Some _, None | None, Some _ => Some None
           | None, None => None
           end) a b.

Definition series_div (a b : LSeries cell) : LSeries cell :=
  merge (λ x y,
           match x, y with
           | Some x, Some y => Some (vdiv x y)
           | Some _, None | None, Some _ => Some None
           | None, None => None
           end) a b.

(** *** Sum accumulator *)

(** The running total: the seed [0], or a series labelled by the
    columns. *)
Inductive Total : Type :=
| Scalar (z : float)
| Labelled (s : LSeries cell).

Definition total_add (accumulator : Total) (s : LSeries cell) : Total :=
  match accumulator with
  | Scalar z => Labelled (vadd (of_float z) <$> s)
  | Labelled t => Labelled (series_add t s)
  end.

Definition _accumulate_sum (accumulator : Total) (new : DataFrame cell)
  : Total :=
  total_add accumulator (df_sum new).

(** [StreamingFrame.sum] *)
Definition sum (bs : list (DataFrame cell)) : res (Total * list Total) :=
  accumulate (collapse (λ s b, Ok (_accumulate_sum s b))) (Scalar 0) bs.

(** *** Mean accumulator *)

Abbreviation MeanAcc := (gmap string (cell * cell)).

Definition get_sums (accumulator : MeanAcc) : LSeries cell :=
  fst <$> accumulator.

Definition get_counts (accumulator : MeanAcc) : LSeries cell :=
  snd <$> accumulator.

Definition set_sums (accumulator : MeanAcc) (s : LSeries cell) : MeanAcc :=
  map_imap (λ k r, Some (default None (s !! k), r.2)) accumulator.

Definition set_counts (accumulator : MeanAcc) (s : LSeries cell) : MeanAcc :=
  map_imap (λ k r, Some (r.1, default None (s !! k))) accumulator.

Definition _accumulate_mean (accumulator : MeanAcc) (new : DataFrame cell)
  : MeanAcc * LSeries cell :=
  let accumulator := copy accumulator in
  let accumulator :=
    set_sums accumulator (series_add (get_sums accumulator) (df_sum new)) in
  let accumulator :=
    set_counts accumulator
      (series_add (get_counts accumulator) (df_count new)) in
  let result := series_div (get_sums accumulator) (get_counts accumulator) in
  (accumulator, result).

(** [StreamingDataFrame.mean] *)
Definition mean_start (self : Streaming.t) : MeanAcc :=
  labelled_by (λ _, (Some 0%float, Some 0%float))
    (StreamingDataFrame.columns self).

Definition mean (self : Streaming.t) (bs : list (DataFrame cell))
  : res (MeanAcc * list (LSeries cell)) :=
  accumulate (λ s b, Ok (_accumulate_mean s b)) (mean_start self) bs.

(** *** Grouped sum *)

(** The groupers whose keys are not read from a float cell: a function
    of the index label, or a series of integer keys, which is also what
    an element zipped with the batch of a streaming grouper carries. *)
Inductive Grouper : Type :=
| ByFunction (f : Z → option Z)
| BySeries (s : list (Z * option Z)).

Record GroupBy : Type := mkGroupBy {
  g_columns : list string;
  g_selection : option nat;
  g_rows : list (Z * list cell)
}.

Definition keyed_rows (ks : list (option Z)) (rs : list (Row cell))
  : list (Z * list cell) :=
  omap (λ kr, k ← kr.1; Some (k, cells kr.2)) (zip ks rs).

Definition df_groupby (df : DataFrame cell) (grouper : option Grouper)
  : res GroupBy :=
  match grouper with
  | None => Raise TypeError
  | Some (ByFunction f) =>
      Ok (mkGroupBy (columns df) None
            (keyed_rows (map (λ r, f (label r)) (rows df)) (rows df)))
  | Some (BySeries s) =>
      Ok (mkGroupBy (columns df) None
            (keyed_rows (series_keys s (rows df)) (rows df)))
  end.

(** [g[index]] *)
Definition groupby_getitem (g : GroupBy) (index : string) : res GroupBy :=
  match position index (g_columns g) with
  | None => Raise KeyError
  | Some j => Ok (mkGroupBy (g_columns g) (Some j) (g_rows g))
  end.

Definition out_positions (g : GroupBy) : list nat :=
  match g_selection g with
  | Some j => [j]
  | None => seq 0 (length (g_columns g))
  end.

Definition out_columns (g : GroupBy) : list string :=
  omap (λ j, g_columns g !! j) (out_positions g).

(** [g.sum()]: one row per group that occurs, the cells of a group added
    in the order of the rows. *)
Definition g_sum (g : GroupBy) : GTable cell :=
  mkTable (out_columns g)
    (list_to_map
       (map (λ k, (k, map (λ j, of_float
                                  (sum_valid
                                     (map (λ kr, pick j kr.2)
                                        (filter (λ kr, kr.1 = k) (g_rows g)))))
                        (out_positions g)))
          (map fst (g_rows g)))).

(** [a.add(b, fill_value=0)] *)
Definition table_add (a b : GTable cell) : GTable cell :=
  table_align vadd_fill a b.

Inductive GroupInput : Type :=
| Plain (df : DataFrame cell)
| Zipped (df : DataFrame cell) (keys : list (Z * option Z)).

Definition group_input (new : GroupInput) (grouper : option Grouper)
  (index : option string) : res GroupBy :=
  '(new, grouper) ←
    match new with
    | Zipped df s =>
        match grouper with
        | None => Ok (df, Some (BySeries s))
        | Some _ => Raise AssertionError
        end
    | Plain df => Ok (df, grouper)
    end;
  g ← df_groupby new grouper;
  match index with
  | Some c => groupby_getitem g c
  | None => Ok g
  end.

Definition _accumulate_groupby_sum (accumulator : GroupAcc cell)
  (new : GroupInput) (grouper : option Grouper) (index : option string)
  : res (GroupAcc cell) :=
  g ← group_input new grouper index;
  match accumulator with
  | IntSeed _ => Ok (Table (g_sum g))
  | Table t => Ok (Table (table_add t (g_sum g)))
  end.

(** [StreamingSeriesGroupby.sum] *)
Definition groupby_sum (grouper : option Grouper) (index : option string)
  (ins : list GroupInput) : res (GroupAcc cell * list (GroupAcc cell)) :=
  accumulate
    (collapse (λ acc new, _accumulate_groupby_sum acc new grouper index))
    (IntSeed 0) ins.

End Float64.

(** ** The step functions over a store of objects *)

(** The step functions once more, as Python runs them: on references to
    objects in a store.  A pandas operation that builds a value allocates
    a new object; an assignment to a local name rebinds the name; only
    the augmented assignments of [_accumulate_mean] write into an
    object. *)
Module Store.
Section store.
Context {R : Type}.

Definition loc : Type := nat.

Inductive obj : Type :=
| OInt (z : Z)
| OTuple (items : list loc)
| OFrame (df : DataFrame value)
| OKeys (s : list (Z * option Z))
| OMeanAcc (m : MeanAcc)
| OSeries (s : LSeries value)
| OMeans (s : LSeries fval)
| OTable (t : GTable value)
| OMeanTable (t : GTable fval)
| ORolled (df : DataFrame R).

Abbreviation heap := (list obj).

(** A computation on the store that may raise. *)
Definition M (A : Type) : Type := heap → res (A * heap).

Global Instance M_ret : MRet M := λ A a h, Ok (a, h).
Global Instance M_bind : MBind M := λ A B f m h,
  match m h with
  | Ok (a, h') => f a h'
  | Raise e => Raise e
  end.

Definition raise {A} (e : exn) : M A := λ _, Raise e.

Definition lift {A} (r : res A) : M A := λ h,
  match r with
  | Ok a => Ok (a, h)
  | Raise e => Raise e
  end.

(** A new object, at a new reference. *)
Definition alloc (o : obj) : M loc := λ h, Ok (length h, h ++ [o]).

Definition read (l : loc) : M obj := λ h,
  match h !! l with
  | Some o => Ok (o, h)
  | None => Raise ValueError
  end.

(** An update in place of the object at [l]. *)
Definition write (l : loc) (o : obj) : M () := λ h,
  match h !! l with
  | Some _ => Ok ((), <[l := o]> h)
  | None => Raise ValueError
  end.

Definition read_frame (l : loc) : M (DataFrame value) :=
  o ← read l;
  match o with
  | OFrame df => mret df
  | _ => raise AttributeError
  end.

Definition read_keys (l : loc) : M (list (Z * option Z)) :=
  o ← read l;
  match o with
  | OKeys s => mret s
  | _ => raise AttributeError
  end.

Definition read_mean_acc (l : loc) : M MeanAcc :=
  o ← read l;
  match o with
  | OMeanAcc m => mret m
  | _ => raise AttributeError
  end.

Definition read_series (l : loc) : M (LSeries value) :=
  o ← read l;
  match o with
  | OSeries s => mret s
  | _ => raise AttributeError
  end.

Definition read_table (l : loc) : M (GTable value) :=
  o ← read l;
  match o with
  | OTable t => mret t
  | _ => raise AttributeError
  end.

(** [accumulator + new.sum()] *)
Definition _accumulate_sum (accumulator new : loc) : M loc :=
  df ← read_frame new;
  s ← alloc (OSeries (df_sum df));
  s ← read_series s;
  a ← read accumulator;
  match a with
  | OInt z => alloc (OSeries (vadd (Some z) <$> s))
  | OSeries t => alloc (OSeries (series_add t s))
  | _ => raise TypeError
  end.

Definition _accumulate_mean (accumulator new : loc) : M (loc * loc) :=
  (* accumulator = accumulator.copy() *)
  a ← read_mean_acc accumulator;
  accumulator ← alloc (OMeanAcc a);
  df ← read_frame new;
  (* accumulator['sums'] += new.sum() *)
  s ← alloc (OSeries (df_sum df));
  s ← read_series s;
  a ← read_mean_acc accumulator;
  _ ← write accumulator (OMeanAcc (set_sums a (series_add (get_sums a) s)));
  (* accumulator['counts'] += new.count() *)
  c ← alloc (OSeries (df_count df));
  c ← read_series c;
  a ← read_mean_acc accumulator;
  _ ← write accumulator
        (OMeanAcc (set_counts a (series_add (get_counts a) c)));
  (* result = accumulator['sums'] / accumulator['counts'] *)
  a ← read_mean_acc accumulator;
  result ← alloc (OMeans (series_div (get_sums a) (get_counts a)));
  mret (accumulator, result).

(** [len(acc)], for the empty tuple and for a frame. *)
Definition read_len (acc : loc) : M nat :=
  o ← read acc;
  match o with
  | OTuple items => mret (length items)
  | OFrame df => mret (len df)
  | _ => raise TypeError
  end.

Definition rolling_accumulator (acc new : loc) (window : Window)
  (op : RollOp R) : M (loc * loc) :=
  n ← read_len acc;
  df ← (if bool_decide (n ≠ 0%nat)
        then a ← read_frame acc;
             b ← read_frame new;
             alloc (OFrame (concat a b))
        else mret new);
  d ← read_frame df;
  result ← lift (df_rolling d window None op);
  new_acc ←
    alloc (OFrame
             match window with
             | Rows w => iloc_from (- w) d
             | Duration x =>
                 match index_max (rows result) with
                 | Some m => loc_from (m - x) d
                 | None => d
                 end
             end);
  result ← alloc (ORolled (iloc_from (Z.of_nat n) result));
  mret (new_acc, result).

(** The stream element behind a reference: a frame, or the tuple of a
    frame and a series of keys. *)
Definition read_input (new : loc) : M GroupInput :=
  o ← read new;
  match o with
  | OFrame df => mret (Plain df)
  | OTuple [l1; l2] =>
      df ← read_frame l1;
      s ← read_keys l2;
      mret (Zipped df s)
  | _ => raise AttributeError
  end.

Definition _accumulate_groupby_sum (accumulator new : loc)
  (grouper : option Grouper) (index : option string) : M loc :=
  i ← read_input new;
  g ← lift (group_input i grouper index);
  a ← read accumulator;
  match a with
  | OInt _ => alloc (OTable (g_sum g))
  | OTable t =>
      s ← alloc (OTable (g_sum g));
      s ← read_table s;
      alloc (OTable (table_add t s))
  | _ => raise AttributeError
  end.

Definition _accumulate_groupby_mean (accumulator new : loc)
  (grouper : option Grouper) (index : option string) : M (loc * loc) :=
  i ← read_input new;
  g ← lift (group_input i grouper index);
  (* (sums, counts) = accumulator *)
  a ← read accumulator;
  '(sums, counts) ←
    match a with
    | OTuple [sums; counts] => mret (sums, counts)
    | _ => raise TypeError
    end;
  s ← read sums;
  '(sums, counts) ←
    match s with
    | OInt _ =>
        sums ← alloc (OTable (g_sum g));
        counts ← alloc (OTable (g_count g));
        mret (sums, counts)
    | OTable t =>
        gs ← alloc (OTable (g_sum g));
        gs ← read_table gs;
        sums ← alloc (OTable (table_add t gs));
        c ← read_table counts;
        gc ← alloc (OTable (g_count g));
        gc ← read_table gc;
        counts ← alloc (OTable (table_add c gc));
        mret (sums, counts)
    | _ => raise AttributeError
    end;
  state ← alloc (OTuple [sums; counts]);
  s ← read_table sums;
  c ← read_table counts;
  result ← alloc (OMeanTable (table_div s c));
  mret (state, result).

(** Every object of the store [h] is still in the store [h'], at its
    reference and with its value. *)
Definition preserved (h h' : heap) : Prop :=
  ∀ l o, h !! l = Some o → h' !! l = Some o.

(** The object that stands for a state of the sum accumulator. *)
Definition total_obj (t : Total) : obj :=
  match t with
  | Scalar z => OInt z
  | Labelled s => OSeries s
  end.

(** The object that stands for a state of the rolling accumulator. *)
Definition backlog_obj (acc : RollAcc) : obj :=
  match acc with
  | EmptyTuple => OTuple []
  | Backlog df => OFrame df
  end.

(** The object that stands for a running per-group table. *)
Definition group_obj (acc : GroupAcc value) : obj :=
  match acc with
  | IntSeed z => OInt z
  | Table t => OTable t
  end.

(** The reference [new] holds the stream element [i] in the store [h]. *)
Definition holds_input (h : heap) (new : loc) (i : GroupInput) : Prop :=
  match i with
  | Plain df => h !! new = Some (OFrame df)
  | Zipped df s =>
      ∃ l1 l2, h !! new = Some (OTuple [l1; l2])
               ∧ h !! l1 = Some (OFrame df) ∧ h !! l2 = Some (OKeys s)
  end.

(** The reference [acc] holds the pair of tables [st] in the store [h]. *)
Definition holds_pair (h : heap) (acc : loc)
  (st : GroupAcc value * GroupAcc value) : Prop :=
  ∃ l1 l2, h !! acc = Some (OTuple [l1; l2])
           ∧ h !! l1 = Some (group_obj st.1) ∧ h !! l2 = Some (group_obj st.2).

End store.
End Store.

(** ** Reference values *)

(** The frame of per-column sums and non-missing counts of [df]: what the
    state of the mean accumulator is to hold once it has seen the rows of
    [df]. *)
Definition mean_state_of (df : DataFrame value) : MeanAcc :=
  reduce_columns (λ vs, (Some (sum_valid vs), Some (count_valid vs))) df.

(** The rows [x.iloc[-w:]] keeps of the rows [rs]. *)
Definition trim_rows {A} (w : Z) (rs : list A) : list A :=
  drop (slice_start (- w) (length rs)) rs.

(** The rows [x.loc[x.index.max() - d:]] keeps of the rows [rs]. *)
Definition trim_span {A} (d : Z) (rs : list (Row A)) : list (Row A) :=
  match index_max rs with
  | Some m => dropwhile (λ r, label r <? m - d) rs
  | None => rs
  end.

(** The backlog the rolling accumulator cuts out of the rows [rs]. *)
Definition trim {A} (window : Window) (rs : list (Row A)) : list (Row A) :=
  match window with
  | Rows w => trim_rows w rs
  | Duration d => trim_span d rs
  end.

(** The reference of one rolling emission: the rolling aggregation of
    the frame [seen], the concatenation of every batch so far, restricted
    to the rows that the batch [latest] contributed, which are its last
    ones. *)
Definition reference_emission {R} (window : Window) (min_periods : option nat)
  (op : RollOp R) (seen latest : DataFrame value) : res (DataFrame R) :=
  full ← df_rolling seen window min_periods op;
  Ok (mkDF (columns full) (last_rows (len latest) (rows full))).

(** The [min_periods] pandas takes when none is given. *)
Definition default_min_periods (window : Window) : nat :=
  match window with
  | Rows w => Z.to_nat w
  | Duration _ => 1
  end.

(** A window pandas can roll: it is not negative. *)
Definition window_ok (window : Window) : Prop :=
  match window with
  | Rows w => 0 ≤ w
  | Duration d => 0 ≤ d
  end.

(** An index pandas can roll the window over: monotonic for a duration. *)
Definition index_ok {A} (window : Window) (rs : list (Row A)) : Prop :=
  match window with
  | Rows _ => True
  | Duration _ => is_monotonic rs = true
  end.

(** The state of the rolling accumulator that has seen the rows of [d]. *)
Definition backlog_of (window : Window) (d : DataFrame value) : RollAcc :=
  Backlog (mkDF (columns d) (trim window (rows d))).

(** The rows of a list of batches. *)
Definition all_rows {A} (bs : list (DataFrame A)) : list (Row A) :=
  foldr (λ b acc, rows b ++ acc) [] bs.

(** The batch of a stream element of a grouped accumulator. *)
Definition frame_of (i : GroupInput) : DataFrame value :=
  match i with
  | Plain df => df
  | Zipped df _ => df
  end.

(** Whether a stream element is zipped with a batch of keys. *)
Definition is_zipped (i : GroupInput) : bool :=
  match i with
  | Plain _ => false
  | Zipped _ _ => true
  end.

(** Two stream elements are both plain, or both zipped. *)
Definition same_kind (i i' : GroupInput) : Prop :=
  is_zipped i = is_zipped i'.

(** The rows of a stream element that have a group key, each with its
    key. *)
Definition input_rows (i : GroupInput) (grouper : option Grouper)
  : list (Z * list value) :=
  match group_input i grouper None with
  | Ok g => g_rows g
  | Raise _ => []
  end.

(** The keyed rows of a list of stream elements. *)
Definition all_input_rows (ins : list GroupInput) (grouper : option Grouper)
  : list (Z * list value) :=
  foldr (λ i acc, input_rows i grouper ++ acc) [] ins.

(** The table that reduces, for every key among the keyed rows [krs],
    the cells at the positions [ps] by [f]. *)
Definition totals {A} (f : list value → A) (ps : list nat)
  (cs : list string) (krs : list (Z * list value)) : GTable A :=
  mkTable cs
    (list_to_map (map (λ k, (k, group_reduce f ps k krs)) (keys krs))).

(** The per-group sums, counts and means of the keyed rows [krs], laid out
    as the grouping [g] reports them. *)
Definition group_sums (g : GroupBy) (krs : list (Z * list value))
  : GTable value :=
  totals (λ vs, Some (sum_valid vs)) (out_positions g) (out_columns g) krs.

Definition group_counts (g : GroupBy) (krs : list (Z * list value))
  : GTable value :=
  totals (λ vs, Some (count_valid vs)) (out_positions g) (out_columns g) krs.

Definition group_means (g : GroupBy) (krs : list (Z * list value))
  : GTable fval :=
  totals (λ vs, vdiv (Some (sum_valid vs)) (Some (count_valid vs)))
    (out_positions g) (out_columns g) krs.

(** The time span of some rows: the distance between the latest and the
    earliest label. *)
Definition index_min {A} (rs : list (Row A)) : option Z :=
  foldr (λ r m, Some (match m with
                      | Some z => Z.min (label r) z
                      | None => label r
                      end)) None rs.

Definition span {A} (rs : list (Row A)) : Z :=
  match index_max rs, index_min rs with
  | Some hi, Some lo => hi - lo
  | _, _ => 0
  end.

(** The backlog spans at least the window whenever the history does, and
    is the whole history otherwise; the span is a number of rows for a
    row-count window and a time span for a duration. *)
Definition backlog_covers_window {A} (window : Window)
  (history backlog : list (Row A)) : Prop :=
  match window with
  | Rows w =>
      (w ≤ Z.of_nat (length history) → w ≤ Z.of_nat (length backlog))
      ∧ (Z.of_nat (length history) < w → backlog = history)
  | Duration d =>
      (d ≤ span history → d ≤ span backlog)
      ∧ (span history < d → backlog = history)
  end.

(** * Facts about the pandas model *)

Section reductions.

Lemma sum_valid_app (xs ys : list value) :
  sum_valid (xs ++ ys) = sum_valid xs + sum_valid ys.
Proof.
  induction xs as [|[x|] xs IH]; simpl; rewrite ?IH; lia.
Qed.

Lemma count_valid_app (xs ys : list value) :
  count_valid (xs ++ ys) = count_valid xs + count_valid ys.
Proof.
  induction xs as [|[x|] xs IH]; simpl; rewrite ?IH; lia.
Qed.

Lemma column_app j (xs ys : list (Row value)) :
  column j (xs ++ ys) = column j xs ++ column j ys.
Proof. apply map_app. Qed.

Lemma labelled_by_cons {A} (F : nat → A) c cs :
  labelled_by F (c :: cs) = <[c := F 0%nat]> (labelled_by (F ∘ S) cs).
Proof. reflexivity. Qed.

(** A label is found at the first position that carries it. *)
Lemma labelled_by_lookup {A} (F : nat → A) cs k :
  labelled_by F cs !! k = F <$> position k cs.
Proof.
  revert F. induction cs as [|c cs IH]; intros F.
  - apply lookup_empty.
  - rewrite labelled_by_cons, lookup_insert. simpl.
    destruct (decide (c = k)) as [->|Hne]; [reflexivity|].
    rewrite IH. destruct (position k cs); reflexivity.
Qed.

Lemma labelled_by_fmap {A B} (g : A → B) (F : nat → A) cs :
  g <$> labelled_by F cs = labelled_by (g ∘ F) cs.
Proof.
  apply map_eq. intros k. rewrite lookup_fmap, !labelled_by_lookup.
  destruct (position k cs); reflexivity.
Qed.

Lemma labelled_by_ext {A} (F G : nat → A) cs :
  (∀ j, F j = G j) → labelled_by F cs = labelled_by G cs.
Proof.
  intros HFG. apply map_eq. intros k. rewrite !labelled_by_lookup.
  destruct (position k cs); simpl; [rewrite HFG|]; reflexivity.
Qed.

Lemma labelled_by_merge {A B C} (op : option A → option B → option C)
  (F : nat → A) (G : nat → B) (H : nat → C) cs :
  (∀ j, op (Some (F j)) (Some (G j)) = Some (H j)) →
  merge op (labelled_by F cs) (labelled_by G cs) = labelled_by H cs.
Proof.
  intros Hop. apply map_eq. intros k.
  rewrite lookup_merge, !labelled_by_lookup.
  destruct (position k cs); simpl; [apply Hop|reflexivity].
Qed.

Lemma set_sums_labelled (G : nat → value * value) (H : nat → value) cs :
  set_sums (labelled_by G cs) (labelled_by H cs)
  = labelled_by (λ j, (H j, (G j).2)) cs.
Proof.
  apply map_eq. intros k. unfold set_sums.
  rewrite map_lookup_imap, !labelled_by_lookup.
  destruct (position k cs); reflexivity.
Qed.

Lemma set_counts_labelled (G : nat → value * value) (H : nat → value) cs :
  set_counts (labelled_by G cs) (labelled_by H cs)
  = labelled_by (λ j, ((G j).1, H j)) cs.
Proof.
  apply map_eq. intros k. unfold set_counts.
  rewrite map_lookup_imap, !labelled_by_lookup.
  destruct (position k cs); reflexivity.
Qed.

End reductions.

Lemma concat_same {A} (a b : DataFrame (option A)) :
  columns a = columns b → concat a b = mkDF (columns a) (rows a ++ rows b).
Proof. intros Hc. unfold concat. rewrite decide_True by exact Hc. reflexivity. Qed.

(** The sum of a concatenation is the aligned sum of the two sums. *)
Lemma df_sum_concat (a b : DataFrame value) :
  columns a = columns b →
  df_sum (concat a b) = series_add (df_sum a) (df_sum b).
Proof.
  intros Hc. rewrite concat_same by exact Hc.
  unfold df_sum, series_add, reduce_columns. simpl. rewrite <- Hc. symmetry.
  apply labelled_by_merge.
  intros j. simpl. rewrite column_app, sum_valid_app. reflexivity.
Qed.

Lemma concat_columns {A} (a b : DataFrame (option A)) :
  columns a = columns b → columns (concat a b) = columns a.
Proof. intros Hc. rewrite concat_same by exact Hc. reflexivity. Qed.

Lemma concat_list_columns {A} (b : DataFrame (option A)) bs :
  Forall (λ x, columns x = columns b) bs →
  columns (concat_list b bs) = columns b.
Proof.
  revert b. induction bs as [|x bs IH]; intros b Hall; [reflexivity|].
  inversion Hall as [|? ? Hx Hbs]; subst.
  assert (Hcat : columns (concat b x) = columns b)
    by (apply concat_columns; congruence).
  change (concat_list b (x :: bs)) with (concat_list (concat b x) bs).
  rewrite IH; [exact Hcat|]. rewrite Hcat. exact Hbs.
Qed.

Lemma scalar_zero_broadcast (s : LSeries value) :
  (∀ c v, s !! c = Some v → is_Some v) → vadd (Some 0) <$> s = s.
Proof.
  intros Hs. apply map_eq. intros c. rewrite lookup_fmap.
  destruct (s !! c) as [v|] eqn:E; [|reflexivity].
  destruct (Hs _ _ E) as [z ->]. reflexivity.
Qed.

Lemma df_sum_defined df c v : df_sum df !! c = Some v → is_Some v.
Proof.
  unfold df_sum, reduce_columns. rewrite labelled_by_lookup.
  destruct (position c (columns df)); simpl; [|discriminate].
  intros [= <-]. eauto.
Qed.

(** * The sum accumulator *)

Lemma accumulate_ok_cons {S B R} (f : S → B → res (S * R)) s b bs s1 r s' rs :
  f s b = Ok (s1, r) →
  accumulate f s1 bs = Ok (s', rs) →
  accumulate f s (b :: bs) = Ok (s', r :: rs).
Proof. intros Hf Hacc. simpl. rewrite Hf. simpl. rewrite Hacc. reflexivity. Qed.

Lemma seq_shift_map {A} (f : nat → A) n :
  map f (seq 1 n) = map (f ∘ S) (seq 0 n).
Proof. rewrite <- seq_shift, map_map. reflexivity. Qed.

Lemma sum_from_total (d : DataFrame value) (bs : list (DataFrame value)) :
  Forall (λ x, columns x = columns d) bs →
  accumulate (collapse (λ s b, Ok (_accumulate_sum s b)))
    (Labelled (df_sum d)) bs
  = Ok (Labelled (df_sum (concat_list d bs)),
        map (λ n, Labelled (df_sum (concat_list d (take (S n) bs))))
          (seq 0 (length bs))).
Proof.
  revert d. induction bs as [|x bs IH]; intros d Hall; [reflexivity|].
  inversion Hall as [|? ? Hx Hbs]; subst.
  assert (Hstep : _accumulate_sum (Labelled (df_sum d)) x
                  = Labelled (df_sum (concat d x))).
  { unfold _accumulate_sum. simpl. rewrite df_sum_concat by congruence.
    reflexivity. }
  cbn [length seq map]. rewrite seq_shift_map.
  apply accumulate_ok_cons with (s1 := Labelled (df_sum (concat d x))).
  - unfold collapse. rewrite Hstep. reflexivity.
  - rewrite IH; [reflexivity|].
    eapply Forall_impl; [exact Hbs|]. intros y Hy. cbv beta in *.
    rewrite concat_columns by congruence. exact Hy.
Qed.

(** The run of the sum accumulator in closed form. *)
Lemma sum_run (b : DataFrame value)
  (bs : list (DataFrame value)) :
  Forall (λ x, columns x = columns b) bs →
  StreamingFrame.sum (b :: bs)
  = Ok (Labelled (df_sum (concat_list b bs)),
        map (λ n, Labelled (df_sum (concat_list b (take n bs))))
          (seq 0 (S (length bs)))).
Proof.
  intros Hall. unfold StreamingFrame.sum.
  assert (Hfirst : _accumulate_sum (Scalar 0) b = Labelled (df_sum b)).
  { unfold _accumulate_sum. simpl. f_equal.
    apply scalar_zero_broadcast, df_sum_defined. }
  cbn [length seq map]. rewrite seq_shift_map.
  apply accumulate_ok_cons with (s1 := Labelled (df_sum b)).
  - unfold collapse. rewrite Hfirst. reflexivity.
  - apply sum_from_total. exact Hall.
Qed.

(** C6, amended: fed the batches [b, b1, ..., bn], which all carry the
    same distinct column names and whose cells are integers or missing,
    added exactly, the sum accumulator seeded with [0] emits after every
    step the sum of the concatenation of the batches seen so far, and the
    state it is left in is the value it emitted last. *)
Theorem sum_accumulator_concat (b : DataFrame value)
  (bs : list (DataFrame value)) :
  NoDup (columns b) →
  Forall (λ x, columns x = columns b) bs →
  StreamingFrame.sum (b :: bs)
  = Ok (Labelled (df_sum (concat_list b bs)),
        map (λ n, Labelled (df_sum (concat_list b (take n bs))))
          (seq 0 (S (length bs)))).
Proof. intros _. exact (sum_run b bs). Qed.

Lemma sum_accumulator_concat_witness :
  StreamingFrame.sum
    [mkDF ["x"%string] [mkRow 0 [Some 1]; mkRow 1 [Some 2]];
     mkDF ["x"%string] [mkRow 2 [Some 3]]]
  = Ok (Labelled {[ "x"%string := Some 6 ]},
        [Labelled {[ "x"%string := Some 3 ]};
         Labelled {[ "x"%string := Some 6 ]}]).
Proof.
  rewrite (sum_accumulator_concat
             (mkDF ["x"%string] [mkRow 0 [Some 1]; mkRow 1 [Some 2]])
             [mkDF ["x"%string] [mkRow 2 [Some 3]]]).
  - vm_compute. reflexivity.
  - compute_done.
  - repeat constructor.
Defined.

#[local] Set Warnings "-inexact-float".

(** C6 as stated fails over float64 cells, where [+] rounds: over the
    batches [0.1] and [0.2, 0.3] the accumulator adds 0.1 + (0.2 + 0.3)
    and ends in 0.6, while the sum of the concatenation,
    (0.1 + 0.2) + 0.3, is 0.6000000000000001. *)
Lemma sum_accumulator_float_counterexample :
  let b1 := mkDF ["x"%string] [mkRow 0 [Some 0.1%float]] in
  let b2 := mkDF ["x"%string]
              [mkRow 1 [Some 0.2%float]; mkRow 2 [Some 0.3%float]] in
  let total : LSeries Float64.cell := {[ "x"%string := Some 0.6%float ]} in
  Float64.sum [b1; b2]
  = Ok (Float64.Labelled total,
        [Float64.Labelled {[ "x"%string := Some 0.1%float ]};
         Float64.Labelled total])
  ∧ Float64.df_sum (concat_list b1 [b2])
    = {[ "x"%string := Some 0.6000000000000001%float ]}
  ∧ total ≠ Float64.df_sum (concat_list b1 [b2]).
Proof.
  intros b1 b2 total. split; [vm_compute; reflexivity|].
  split; [vm_compute; reflexivity|]. intros H.
  apply (f_equal (λ m : LSeries Float64.cell,
                    match m !! "x"%string with
                    | Some (Some x) => PrimFloat.eqb x 0.6
                    | _ => false
                    end)) in H.
  vm_compute in H. discriminate.
Qed.

(** * The mean accumulator *)

(** The count of a concatenation is the aligned sum of the two counts. *)
Lemma df_count_concat (a b : DataFrame value) :
  columns a = columns b →
  df_count (concat a b) = series_add (df_count a) (df_count b).
Proof.
  intros Hc. rewrite concat_same by exact Hc.
  unfold df_count, series_add, reduce_columns. simpl. rewrite <- Hc. symmetry.
  apply labelled_by_merge.
  intros j. simpl. rewrite column_app, count_valid_app. reflexivity.
Qed.

(** One step of the mean accumulator, from the state that stands for the
    rows of [d]. *)
Lemma _accumulate_mean_step (d new : DataFrame value) :
  columns new = columns d →
  _accumulate_mean (mean_state_of d) new
  = (mean_state_of (concat d new), df_mean (concat d new)).
Proof.
  intros Hc. rewrite concat_same by congruence.
  unfold _accumulate_mean, copy, mean_state_of, df_mean, get_sums, get_counts,
    df_sum, df_count, series_add, series_div, reduce_columns.
  cbn [columns rows]. rewrite Hc.
  repeat first
    [ rewrite labelled_by_fmap
    | rewrite set_sums_labelled
    | rewrite set_counts_labelled
    | erewrite labelled_by_merge by (intros j; reflexivity) ].
  f_equal; apply labelled_by_ext; intros j; cbn;
    rewrite column_app, sum_valid_app, count_valid_app; reflexivity.
Qed.

Lemma mean_from_state (d : DataFrame value) (bs : list (DataFrame value)) :
  Forall (λ x, columns x = columns d) bs →
  accumulate (λ s b, Ok (_accumulate_mean s b)) (mean_state_of d) bs
  = Ok (mean_state_of (concat_list d bs),
        map (λ n, df_mean (concat_list d (take (S n) bs)))
          (seq 0 (length bs))).
Proof.
  revert d. induction bs as [|x bs IH]; intros d Hall; [reflexivity|].
  inversion Hall as [|? ? Hx Hbs]; subst.
  cbn [length seq map]. rewrite seq_shift_map.
  apply accumulate_ok_cons with (s1 := mean_state_of (concat d x)).
  - rewrite _accumulate_mean_step by exact Hx. reflexivity.
  - rewrite IH; [reflexivity|].
    eapply Forall_impl; [exact Hbs|]. intros y Hy. cbv beta in *.
    rewrite concat_columns by congruence. exact Hy.
Qed.

Lemma mean_start_state (self : Streaming.t) :
  StreamingDataFrame.mean_start self
  = mean_state_of (mkDF (StreamingDataFrame.columns self) []).
Proof. reflexivity. Qed.

Lemma concat_empty_l {A} (b : DataFrame (option A)) :
  concat (mkDF (columns b) []) b = b.
Proof. rewrite concat_same by reflexivity. destruct b; reflexivity. Qed.

(** The run of the mean accumulator in closed form. *)
Lemma mean_run (self : Streaming.t) (b : DataFrame value)
  (bs : list (DataFrame value)) :
  Forall (λ x, columns x = StreamingDataFrame.columns self) (b :: bs) →
  StreamingDataFrame.mean self (b :: bs)
  = Ok (mean_state_of (concat_list b bs),
        map (λ n, df_mean (concat_list b (take n bs))) (seq 0 (S (length bs))))
  ∧ ∀ b' bs',
      Forall (λ x, columns x = StreamingDataFrame.columns self) (b' :: bs') →
      concat_list b' bs' = concat_list b bs →
      ∃ outs outs',
        StreamingDataFrame.mean self (b :: bs)
        = Ok (mean_state_of (concat_list b bs), outs)
        ∧ StreamingDataFrame.mean self (b' :: bs')
          = Ok (mean_state_of (concat_list b bs), outs')
        ∧ last outs = Some (df_mean (concat_list b bs))
        ∧ last outs' = last outs.
Proof.
  assert (Hrun : ∀ x xs,
    Forall (λ y, columns y = StreamingDataFrame.columns self) (x :: xs) →
    StreamingDataFrame.mean self (x :: xs)
    = Ok (mean_state_of (concat_list x xs),
          map (λ n, df_mean (concat_list x (take n xs)))
            (seq 0 (S (length xs))))).
  { intros x xs Hall. inversion Hall as [|? ? Hx Hxs]; subst.
    unfold StreamingDataFrame.mean. rewrite mean_start_state.
    cbn [length seq map]. rewrite seq_shift_map.
    apply accumulate_ok_cons with (s1 := mean_state_of x).
    - rewrite _accumulate_mean_step by exact Hx. cbn [columns].
      rewrite <- Hx, concat_empty_l. reflexivity.
    - apply mean_from_state.
      eapply Forall_impl; [exact Hxs|]. intros y Hy. cbv beta in *. congruence. }
  assert (Hlast : ∀ x (xs : list (DataFrame value)),
    last (map (λ n, df_mean (concat_list x (take n xs))) (seq 0 (S (length xs))))
    = Some (df_mean (concat_list x xs))).
  { intros x xs. rewrite seq_S, map_app. cbn [map]. rewrite last_snoc.
    cbn [Nat.add]. rewrite firstn_all. reflexivity. }
  intros Hall. split; [apply Hrun, Hall|].
  intros b' bs' Hall' Heq.
  eexists _, _. split; [apply Hrun, Hall|].
  split; [rewrite <- Heq; apply Hrun, Hall'|].
  split; [apply Hlast|]. rewrite !Hlast, Heq. reflexivity.
Qed.

(** C2, amended: fed batches that carry the columns of the prototype,
    which are distinct, and whose cells are integers or missing, added
    and divided exactly, the mean accumulator holds after every step the
    per-column sums and non-missing counts of the concatenation of the
    batches seen so far and emits their quotient, the mean of that
    concatenation; so two ways of cutting the same rows into batches end
    with the same state and the same mean. *)
Theorem mean_accumulator_concat (self : Streaming.t) (b : DataFrame value)
  (bs : list (DataFrame value)) :
  NoDup (StreamingDataFrame.columns self) →
  Forall (λ x, columns x = StreamingDataFrame.columns self) (b :: bs) →
  StreamingDataFrame.mean self (b :: bs)
  = Ok (mean_state_of (concat_list b bs),
        map (λ n, df_mean (concat_list b (take n bs))) (seq 0 (S (length bs))))
  ∧ ∀ b' bs',
      Forall (λ x, columns x = StreamingDataFrame.columns self) (b' :: bs') →
      concat_list b' bs' = concat_list b bs →
      ∃ outs outs',
        StreamingDataFrame.mean self (b :: bs)
        = Ok (mean_state_of (concat_list b bs), outs)
        ∧ StreamingDataFrame.mean self (b' :: bs')
          = Ok (mean_state_of (concat_list b bs), outs')
        ∧ last outs = Some (df_mean (concat_list b bs))
        ∧ last outs' = last outs.
Proof. intros _. exact (mean_run self b bs). Qed.

Lemma mean_accumulator_concat_witness :
  let self := Streaming.mk true (mkDF ["x"%string] []) in
  let b := mkDF ["x"%string] [mkRow 0 [Some 2]; mkRow 1 [Some 4]] in
  let c := mkDF ["x"%string] [mkRow 2 [Some 6]] in
  StreamingDataFrame.mean self [b; c]
  = Ok ({[ "x"%string := (Some 12, Some 3) ]},
        [ {[ "x"%string := Fin (3 # 1) ]}; {[ "x"%string := Fin (4 # 1) ]} ]).
Proof.
  intros self b c.
  destruct (mean_accumulator_concat self b [c]) as [Hrun _].
  - compute_done.
  - repeat constructor.
  - rewrite Hrun. vm_compute. reflexivity.
Defined.

(** C2 as stated fails over float64 cells, where [+] rounds: over the
    batches [0.1] and [0.2, 0.3] the state holds the sum
    0.1 + (0.2 + 0.3) = 0.6 and the emitted mean is
    0.6 / 3 = 0.19999999999999998, while the mean of the concatenation
    is ((0.1 + 0.2) + 0.3) / 3 = 0.20000000000000004. *)
Lemma mean_accumulator_float_counterexample :
  let self := Streaming.mk true (mkDF ["x"%string] []) in
  let b1 := mkDF ["x"%string] [mkRow 0 [Some 0.1%float]] in
  let b2 := mkDF ["x"%string]
              [mkRow 1 [Some 0.2%float]; mkRow 2 [Some 0.3%float]] in
  let emitted : LSeries Float64.cell :=
    {[ "x"%string := Some 0.19999999999999998%float ]} in
  Float64.mean self [b1; b2]
  = Ok ({[ "x"%string := (Some 0.6%float, Some 3%float) ]},
        [ {[ "x"%string := Some 0.1%float ]}; emitted ])
  ∧ Float64.df_mean (concat_list b1 [b2])
    = {[ "x"%string := Some 0.20000000000000004%float ]}
  ∧ emitted ≠ Float64.df_mean (concat_list b1 [b2]).
Proof.
  intros self b1 b2 emitted. split; [vm_compute; reflexivity|].
  split; [vm_compute; reflexivity|]. intros H.
  apply (f_equal (λ m : LSeries Float64.cell,
                    match m !! "x"%string with
                    | Some (Some x) => PrimFloat.eqb x 0.19999999999999998
                    | _ => false
                    end)) in H.
  vm_compute in H. discriminate.
Qed.

(** * The rolling accumulator *)

Section slices.
Context {A : Type}.
Implicit Types (rs h p x : list A).

Lemma trim_rows_pos w rs :
  0 < w → trim_rows w rs = last_rows (Z.to_nat w) rs.
Proof.
  intros Hw. unfold trim_rows, last_rows, slice_start.
  destruct (Z.ltb_spec (- w) 0) as [_|?]; [|lia]. f_equal. lia.
Qed.

(** The slice [x.iloc[-0:]] is [x.iloc[0:]]: everything. *)
Lemma trim_rows_zero rs : trim_rows 0 rs = rs.
Proof. reflexivity. Qed.

Lemma last_rows_length n rs : length (last_rows n rs) = (n `min` length rs)%nat.
Proof. unfold last_rows. rewrite length_drop. lia. Qed.

Lemma last_rows_all n rs : (length rs ≤ n)%nat → last_rows n rs = rs.
Proof.
  intros Hn. unfold last_rows.
  replace (length rs - n)%nat with 0%nat by lia. reflexivity.
Qed.

Lemma last_rows_app_ge n pre rs :
  (n ≤ length rs)%nat → last_rows n (pre ++ rs) = last_rows n rs.
Proof.
  intros Hn. unfold last_rows. rewrite length_app, drop_app_ge by lia.
  f_equal. lia.
Qed.

Lemma last_rows_split n rs :
  rs = take (length rs - n) rs ++ last_rows n rs.
Proof. unfold last_rows. symmetry. apply take_drop. Qed.

(** The last rows of a backlog followed by new rows are the last rows of
    the whole history followed by them. *)
Lemma last_rows_backlog n h p :
  last_rows n (last_rows n h ++ p) = last_rows n (h ++ p).
Proof.
  destruct (decide (length h ≤ n)%nat) as [Hle|Hgt].
  - rewrite (last_rows_all n h) by exact Hle. reflexivity.
  - rewrite (last_rows_split n h) at 2. rewrite <- app_assoc.
    rewrite (last_rows_app_ge n (take (length h - n) h) (last_rows n h ++ p));
      [reflexivity|].
    rewrite length_app, last_rows_length. lia.
Qed.

Lemma window_backlog_rows w h p :
  0 ≤ w →
  last_rows (Z.to_nat w) (trim_rows w h ++ p) = last_rows (Z.to_nat w) (h ++ p).
Proof.
  intros Hw. destruct (decide (w = 0)) as [->|Hne]; [reflexivity|].
  rewrite trim_rows_pos by lia. apply last_rows_backlog.
Qed.

Lemma trim_rows_backlog w h x :
  0 ≤ w → trim_rows w (trim_rows w h ++ x) = trim_rows w (h ++ x).
Proof.
  intros Hw. destruct (decide (w = 0)) as [->|Hne]; [reflexivity|].
  rewrite !trim_rows_pos by lia. apply last_rows_backlog.
Qed.

Lemma dropwhile_split (q : A → bool) rs :
  ∃ pre, rs = pre ++ dropwhile q rs ∧ Forall (λ a, q a = true) pre.
Proof.
  induction rs as [|a rs (pre & Heq & Hall)]; [by exists []|].
  simpl. destruct (q a) eqn:Hq.
  - exists (a :: pre). split; [simpl; congruence|by constructor].
  - by exists [].
Qed.

Lemma dropwhile_app_all (q : A → bool) pre rs :
  Forall (λ a, q a = true) pre → dropwhile q (pre ++ rs) = dropwhile q rs.
Proof.
  induction 1 as [|a pre Hq _ IH]; [reflexivity|]. simpl. by rewrite Hq.
Qed.

Lemma dropwhile_elem (q : A → bool) rs a :
  a ∈ rs → q a = false → a ∈ dropwhile q rs.
Proof.
  intros Hin Hq. destruct (dropwhile_split q rs) as (pre & Heq & Hall).
  rewrite Heq in Hin. apply elem_of_app in Hin as [Hin|Hin]; [|exact Hin].
  rewrite Forall_forall in Hall. specialize (Hall a Hin). congruence.
Qed.

Lemma dropwhile_subset (q : A → bool) rs a : a ∈ dropwhile q rs → a ∈ rs.
Proof.
  intros Hin. destruct (dropwhile_split q rs) as (pre & Heq & _).
  rewrite Heq. apply elem_of_app. by right.
Qed.

End slices.

Section index.
Context {A : Type}.
Implicit Types (rs h p x : list (Row A)).

Lemma index_max_cons r rs :
  index_max (r :: rs)
  = Some (match index_max rs with
          | Some z => Z.max (label r) z
          | None => label r
          end).
Proof. reflexivity. Qed.

Lemma index_max_nil_iff rs : index_max rs = None ↔ rs = [].
Proof. destruct rs; split; intros H; try reflexivity; discriminate. Qed.

Lemma index_max_upper rs m a : index_max rs = Some m → a ∈ rs → label a ≤ m.
Proof.
  revert m. induction rs as [|r rs IH]; intros m Hm Hin.
  - by apply elem_of_nil in Hin.
  - rewrite index_max_cons in Hm. injection Hm as <-.
    apply elem_of_cons in Hin as [->|Hin].
    + destruct (index_max rs); lia.
    + destruct (index_max rs) as [z|] eqn:Hz.
      * specialize (IH z eq_refl Hin). lia.
      * apply index_max_nil_iff in Hz. subst. by apply elem_of_nil in Hin.
Qed.

Lemma index_max_attained rs m :
  index_max rs = Some m → ∃ a, a ∈ rs ∧ label a = m.
Proof.
  revert m. induction rs as [|r rs IH]; intros m Hm; [discriminate|].
  rewrite index_max_cons in Hm. injection Hm as <-.
  destruct (index_max rs) as [z|] eqn:Hz.
  - destruct (Z.max_spec (label r) z) as [[_ ->]|[_ ->]].
    + destruct (IH z eq_refl) as (a & Hin & Ha).
      exists a. split; [by apply list_elem_of_further|exact Ha].
    + exists r. split; [apply list_elem_of_here|reflexivity].
  - exists r. split; [apply list_elem_of_here|reflexivity].
Qed.

Lemma index_max_unique rs m :
  (∃ a, a ∈ rs ∧ label a = m) → (∀ a, a ∈ rs → label a ≤ m) →
  index_max rs = Some m.
Proof.
  intros (a & Hin & Ha) Hup.
  destruct (index_max rs) as [m'|] eqn:Hm.
  - f_equal. pose proof (index_max_upper _ _ _ Hm Hin) as H1.
    destruct (index_max_attained _ _ Hm) as (a' & Hin' & Ha').
    specialize (Hup a' Hin'). lia.
  - apply index_max_nil_iff in Hm. subst. by apply elem_of_nil in Hin.
Qed.

Lemma trim_span_split d rs m :
  index_max rs = Some m →
  ∃ pre, rs = pre ++ trim_span d rs
         ∧ Forall (λ a, label a < m - d) pre.
Proof.
  intros Hm. unfold trim_span. rewrite Hm.
  destruct (dropwhile_split (λ r, label r <? m - d) rs) as (pre & Heq & Hall).
  exists pre. split; [exact Heq|].
  eapply Forall_impl; [exact Hall|]. intros a Ha. cbv beta in Ha. lia.
Qed.

Lemma trim_span_subset d rs a : a ∈ trim_span d rs → a ∈ rs.
Proof.
  unfold trim_span. destruct (index_max rs); [|done]. apply dropwhile_subset.
Qed.

Lemma trim_span_keeps d rs m a :
  index_max rs = Some m → a ∈ rs → m - d ≤ label a → a ∈ trim_span d rs.
Proof.
  intros Hm Hin Hle. unfold trim_span. rewrite Hm.
  apply dropwhile_elem; [exact Hin|]. lia.
Qed.

(** The backlog cut out of a backlog followed by new rows is the one cut
    out of the whole history followed by them. *)
Lemma trim_span_backlog d h x :
  0 ≤ d → trim_span d (trim_span d h ++ x) = trim_span d (h ++ x).
Proof.
  intros Hd. destruct (index_max h) as [m|] eqn:Hm.
  2:{ apply index_max_nil_iff in Hm. subst. reflexivity. }
  destruct (index_max (h ++ x)) as [m'|] eqn:Hm'.
  2:{ apply index_max_nil_iff in Hm'. apply app_eq_nil in Hm' as [-> _].
      discriminate. }
  assert (Hmm : m ≤ m').
  { destruct (index_max_attained _ _ Hm) as (a & Hin & <-).
    apply (index_max_upper _ _ _ Hm'). apply elem_of_app. by left. }
  assert (Hm'' : index_max (trim_span d h ++ x) = Some m').
  { apply index_max_unique.
    - destruct (index_max_attained _ _ Hm') as (a & Hin & Ha).
      exists a. split; [|exact Ha].
      apply elem_of_app in Hin as [Hin|Hin]; apply elem_of_app; [left|by right].
      apply (trim_span_keeps d h m); [exact Hm|exact Hin|].
      pose proof (index_max_upper _ _ _ Hm Hin). lia.
    - intros a Hin. apply (index_max_upper _ _ _ Hm').
      apply elem_of_app in Hin as [Hin|Hin]; apply elem_of_app; [left|by right].
      by apply trim_span_subset in Hin. }
  destruct (trim_span_split d h m Hm) as (pre & Heq & Hpre).
  unfold trim_span at 1 3. rewrite Hm', Hm''.
  rewrite Heq at 2. rewrite <- app_assoc.
  rewrite (dropwhile_app_all _ pre); [reflexivity|].
  eapply Forall_impl; [exact Hpre|]. intros a Ha. cbv beta in *. lia.
Qed.

Lemma is_monotonic_cons r rs :
  is_monotonic (r :: rs) = true
  ↔ (∀ y, y ∈ rs → label r ≤ label y) ∧ is_monotonic rs = true.
Proof.
  revert r. induction rs as [|r' rs IH]; intros r.
  - split; [|reflexivity]. intros _. split; [|reflexivity].
    intros y Hy. by apply elem_of_nil in Hy.
  - change (is_monotonic (r :: r' :: rs))
      with ((label r <=? label r') && is_monotonic (r' :: rs)).
    rewrite andb_true_iff, Z.leb_le. split.
    + intros [Hle Hmono]. split; [|exact Hmono].
      apply IH in Hmono as [Hall _]. intros y Hy.
      apply elem_of_cons in Hy as [->|Hy]; [exact Hle|].
      specialize (Hall y Hy). lia.
    + intros [Hall Hmono]. split; [|exact Hmono].
      apply Hall, list_elem_of_here.
Qed.

Lemma is_monotonic_app h p :
  is_monotonic (h ++ p) = true
  ↔ is_monotonic h = true ∧ is_monotonic p = true
    ∧ ∀ a b, a ∈ h → b ∈ p → label a ≤ label b.
Proof.
  induction h as [|r h IH].
  - simpl. split; [intros Hp|intros (_ & Hp & _); exact Hp].
    split; [reflexivity|split; [exact Hp|]].
    intros a b Ha. by apply elem_of_nil in Ha.
  - change ((r :: h) ++ p) with (r :: (h ++ p)).
    rewrite !is_monotonic_cons, IH. split.
    + intros (Hr & Hh & Hp & Hhp). repeat split; [|exact Hh|exact Hp|].
      * intros y Hy. apply Hr, elem_of_app. by left.
      * intros a b Ha Hb. apply elem_of_cons in Ha as [->|Ha].
        -- apply Hr, elem_of_app. by right.
        -- by apply Hhp.
    + intros ((Hr & Hh) & Hp & Hhp). repeat split; [|exact Hh|exact Hp|].
      * intros y Hy. apply elem_of_app in Hy as [Hy|Hy]; [by apply Hr|].
        apply Hhp; [apply list_elem_of_here|exact Hy].
      * intros a b Ha Hb. apply Hhp; [by apply list_elem_of_further|exact Hb].
Qed.

(** The window of a new row over the backlog is its window over the
    whole history. *)
Lemma window_backlog_span d h p :
  0 ≤ d → p ≠ [] → is_monotonic (h ++ p) = true →
  window_rows (Duration d) (trim_span d h ++ p)
  = window_rows (Duration d) (h ++ p).
Proof.
  intros Hd Hp Hmono.
  destruct (index_max h) as [m|] eqn:Hm.
  2:{ apply index_max_nil_iff in Hm. subst. reflexivity. }
  apply last_is_Some in Hp as [r Hr].
  assert (Hlast : ∀ l, last (l ++ p) = Some r)
    by (intros l; apply last_app_Some; by left).
  unfold window_rows. rewrite !Hlast.
  destruct (trim_span_split d h m Hm) as (pre & Heq & Hpre).
  rewrite Heq at 2. rewrite <- app_assoc.
  rewrite (dropwhile_app_all _ pre); [reflexivity|].
  apply is_monotonic_app in Hmono as (_ & _ & Hhp).
  destruct (index_max_attained _ _ Hm) as (a & Hin & Ha).
  assert (Hle : m ≤ label r).
  { rewrite <- Ha. apply Hhp; [exact Hin|]. by apply last_Some_elem_of. }
  eapply Forall_impl; [exact Hpre|]. intros b Hb. cbv beta in *. lia.
Qed.

End index.

Lemma index_max_labels {A B} (xs : list (Row A)) (ys : list (Row B)) :
  map label xs = map label ys → index_max xs = index_max ys.
Proof.
  revert ys. induction xs as [|x xs IH]; intros [|y ys] Heq;
    try discriminate; [reflexivity|].
  injection Heq as Hl Hr. rewrite !index_max_cons, Hl, (IH ys Hr). reflexivity.
Qed.

Lemma trim_suffix {A} window (h : list (Row A)) :
  ∃ pre, h = pre ++ trim window h.
Proof.
  destruct window as [w|d]; simpl.
  - exists (take (slice_start (- w) (length h)) h). symmetry. apply take_drop.
  - destruct (index_max h) as [m|] eqn:Hm.
    + destruct (trim_span_split d h m Hm) as (pre & Heq & _). by exists pre.
    + exists []. unfold trim_span. by rewrite Hm.
Qed.

Lemma trim_backlog {A} window (h x : list (Row A)) :
  window_ok window → trim window (trim window h ++ x) = trim window (h ++ x).
Proof.
  destruct window; simpl; [apply trim_rows_backlog|apply trim_span_backlog].
Qed.

Lemma index_ok_app_l {A} window (h p : list (Row A)) :
  index_ok window (h ++ p) → index_ok window h.
Proof.
  destruct window; simpl; [done|]. intros H. by apply is_monotonic_app in H as (? & _).
Qed.

Lemma index_ok_app_r {A} window (h p : list (Row A)) :
  index_ok window (h ++ p) → index_ok window p.
Proof.
  destruct window; simpl; [done|].
  intros H. by apply is_monotonic_app in H as (_ & ? & _).
Qed.

Lemma window_backlog {A} window (h p : list (Row A)) :
  window_ok window → p ≠ [] → index_ok window (h ++ p) →
  window_rows window (trim window h ++ p) = window_rows window (h ++ p).
Proof.
  destruct window as [w|d]; simpl; intros Hw Hp Hi.
  - by apply window_backlog_rows.
  - by apply window_backlog_span.
Qed.

Section rolling.
Context {R : Type} (window : Window) (mp : nat) (op : RollOp R) (ncols : nat).

Local Abbreviation roll := (rolling_rows window mp op ncols).

Lemma rolling_rows_app pre a b :
  roll pre (a ++ b) = roll pre a ++ roll (pre ++ a) b.
Proof.
  revert pre. induction a as [|r a IH]; intros pre; simpl.
  - by rewrite app_nil_r.
  - f_equal. rewrite IH, <- app_assoc. reflexivity.
Qed.

Lemma rolling_rows_length pre rest : length (roll pre rest) = length rest.
Proof.
  revert pre. induction rest as [|r rest IH]; intros pre; simpl;
    [reflexivity|by rewrite IH].
Qed.

Lemma rolling_rows_labels pre rest :
  map label (roll pre rest) = map label rest.
Proof.
  revert pre. induction rest as [|r rest IH]; intros pre; simpl;
    [reflexivity|by rewrite IH].
Qed.

(** The results of new rows depend on the earlier rows only through the
    windows of the new rows. *)
Lemma rolling_rows_ext pre pre' rest :
  (∀ p, p ≠ [] → p `prefix_of` rest →
        window_rows window (pre ++ p) = window_rows window (pre' ++ p)) →
  roll pre rest = roll pre' rest.
Proof.
  revert pre pre'. induction rest as [|r rest IH]; intros pre pre' Hwin;
    [reflexivity|].
  simpl. f_equal.
  - f_equal. rewrite (Hwin [r]); [reflexivity|done|].
    apply prefix_cons, prefix_nil.
  - apply IH. intros p Hp Hpre. rewrite <- !app_assoc. apply Hwin; [done|].
    by apply prefix_cons.
Qed.

Lemma rolling_rows_backlog h new :
  window_ok window → index_ok window (h ++ new) →
  roll (trim window h) new = roll h new.
Proof.
  intros Hw Hi. apply rolling_rows_ext. intros p Hp [k ->].
  apply window_backlog; [exact Hw|exact Hp|].
  rewrite app_assoc in Hi. by apply index_ok_app_l in Hi.
Qed.

End rolling.

Lemma iloc_from_len {A} n (df : DataFrame A) :
  iloc_from (Z.of_nat n) df = mkDF (columns df) (drop n (rows df)).
Proof.
  unfold iloc_from, slice_start.
  destruct (Z.ltb_spec (Z.of_nat n) 0); [lia|]. by rewrite Nat2Z.id.
Qed.

Section rolling_accumulator.
Context {R : Type} (window : Window) (op : RollOp R).
Hypothesis Hw : window_ok window.

Local Abbreviation roll cs :=
  (rolling_rows window (default_min_periods window) op (length cs)).

Lemma df_rolling_default (df : DataFrame value) :
  index_ok window (rows df) →
  df_rolling df window None op
  = Ok (mkDF (columns df) (roll (columns df) [] (rows df))).
Proof using Hw.
  destruct window as [w|d]; simpl in *; intros Hi.
  - destruct (Z.ltb_spec w 0); [lia|reflexivity].
  - rewrite Hi. reflexivity.
Qed.

(** The frame the step rolls over: the backlog followed by the batch. *)
Lemma rolling_frame (d new : DataFrame value) :
  columns new = columns d →
  (let a := mkDF (columns d) (trim window (rows d)) in
   if bool_decide (len a ≠ 0%nat) then concat a new else new)
  = mkDF (columns d) (trim window (rows d) ++ rows new).
Proof.
  intros Hc. cbv zeta. case_bool_decide as Hlen.
  - rewrite concat_same by (simpl; congruence). reflexivity.
  - unfold len in Hlen. cbn [rows] in Hlen.
    destruct (trim window (rows d)) as [|r l]; [|discriminate].
    destruct new as [cs rs]. simpl in *. congruence.
Qed.

(** What the step keeps of the frame it rolled over. *)
Lemma rolling_new_acc (cs : list string) (xs : list (Row value))
  (result : list (Row R)) :
  map label result = map label xs →
  match window with
  | Rows w => iloc_from (- w) (mkDF cs xs)
  | Duration d =>
      match index_max result with
      | Some m => loc_from (m - d) (mkDF cs xs)
      | None => mkDF cs xs
      end
  end = mkDF cs (trim window xs).
Proof.
  intros Hl. destruct window as [w|d]; [reflexivity|].
  rewrite (index_max_labels _ _ Hl). unfold trim, trim_span.
  destruct (index_max xs); reflexivity.
Qed.

(** One step of the rolling accumulator, from the state that stands for
    the rows of [d]. *)
Lemma rolling_accumulator_step (d new : DataFrame value) :
  columns new = columns d →
  index_ok window (rows d ++ rows new) →
  rolling_accumulator (backlog_of window d) new window op
  = Ok (backlog_of window (concat d new),
        mkDF (columns d) (roll (columns d) (rows d) (rows new))).
Proof using Hw.
  intros Hc Hi. unfold rolling_accumulator, backlog_of.
  pose proof (rolling_frame d new Hc) as Hdf. cbv zeta in Hdf. rewrite Hdf.
  assert (Hi' : index_ok window (trim window (rows d) ++ rows new)).
  { destruct (trim_suffix window (rows d)) as [pre Hpre].
    rewrite Hpre, <- app_assoc in Hi. by apply index_ok_app_r in Hi. }
  rewrite df_rolling_default by exact Hi'. cbn [mbind res_bind columns rows].
  rewrite rolling_new_acc by apply rolling_rows_labels.
  rewrite trim_backlog by exact Hw.
  rewrite concat_same by congruence. cbn [columns rows acc_len len].
  rewrite iloc_from_len. cbn [columns rows].
  rewrite rolling_rows_app, drop_app_length' by (by rewrite rolling_rows_length).
  rewrite app_nil_l, rolling_rows_backlog by assumption. reflexivity.
Qed.

(** The reference of that step: the rolling aggregation of everything
    seen, restricted to the rows of the batch. *)
Lemma reference_emission_default (d new : DataFrame value) :
  columns new = columns d →
  index_ok window (rows d ++ rows new) →
  reference_emission window None op (concat d new) new
  = Ok (mkDF (columns d) (roll (columns d) (rows d) (rows new))).
Proof using Hw.
  intros Hc Hi. unfold reference_emission.
  rewrite concat_same by congruence.
  rewrite df_rolling_default by exact Hi. cbn [mbind res_bind columns rows].
  rewrite rolling_rows_app, app_nil_l. unfold last_rows, len.
  rewrite drop_app_length'; [reflexivity|].
  rewrite length_app, !rolling_rows_length. lia.
Qed.

(** The first step starts from the empty tuple, which behaves as an empty
    backlog. *)
Lemma rolling_accumulator_first (new : DataFrame value) :
  rolling_accumulator EmptyTuple new window op
  = rolling_accumulator (backlog_of window (mkDF (columns new) [])) new
      window op.
Proof.
  unfold backlog_of. cbn [rows columns].
  replace (trim window (@nil (Row value))) with (@nil (Row value));
    [reflexivity|].
  destruct window; [symmetry; apply drop_nil|reflexivity].
Qed.

End rolling_accumulator.

Lemma concat_list_rows {A} (b : DataFrame (option A)) bs :
  Forall (λ x, columns x = columns b) bs →
  rows (concat_list b bs) = rows b ++ all_rows bs.
Proof.
  revert b. induction bs as [|x bs IH]; intros b Hall.
  - simpl. by rewrite app_nil_r.
  - inversion Hall as [|? ? Hx Hbs]; subst.
    change (concat_list b (x :: bs)) with (concat_list (concat b x) bs).
    rewrite IH.
    + rewrite concat_same by congruence. simpl. by rewrite <- app_assoc.
    + eapply Forall_impl; [exact Hbs|]. intros y Hy. cbv beta in *.
      rewrite concat_columns by congruence. exact Hy.
Qed.

Lemma rolling_from_state {R} (window : Window) (op : RollOp R)
  (d : DataFrame value) (bs : list (DataFrame value)) :
  window_ok window →
  Forall (λ x, columns x = columns d) bs →
  index_ok window (rows d ++ all_rows bs) →
  ∃ outs,
    accumulate (λ acc new, rolling_accumulator acc new window op)
      (backlog_of window d) bs
    = Ok (backlog_of window (concat_list d bs), outs)
    ∧ Ok <$> outs
      = imap (λ n x, reference_emission window None op
                       (concat_list d (take (S n) bs)) x) bs.
Proof.
  intros Hw. revert d. induction bs as [|x bs IH]; intros d Hall Hi.
  - exists []. split; reflexivity.
  - inversion Hall as [|? ? Hx Hbs]; subst.
    simpl in Hi. rewrite app_assoc in Hi.
    destruct (IH (concat d x)) as (outs & Hrun & Houts).
    + eapply Forall_impl; [exact Hbs|]. intros y Hy. cbv beta in *.
      rewrite concat_columns by congruence. exact Hy.
    + rewrite concat_same by congruence. exact Hi.
    + eexists (_ :: outs). split.
      * eapply accumulate_ok_cons; [|exact Hrun].
        apply rolling_accumulator_step; [exact Hw|exact Hx|].
        by apply index_ok_app_l in Hi.
      * cbn [fmap list_fmap imap]. f_equal; [|exact Houts].
        symmetry. apply reference_emission_default; [exact Hw|exact Hx|].
        by apply index_ok_app_l in Hi.
Qed.

(** The rolling accumulator against the reference, under the
    [min_periods] pandas takes by default: the emission of every step is
    the reference rolling aggregation of the concatenation of the batches
    seen so far, restricted to the rows of the latest batch, and the state
    is the backlog cut out of that concatenation. *)
Theorem rolling_accumulator_refines {R} (self : Rolling.t) (op : RollOp R)
  (b : DataFrame value) (bs : list (DataFrame value)) :
  window_ok (Rolling.window self) →
  Forall (λ x, columns x = columns b) bs →
  index_ok (Rolling.window self) (rows (concat_list b bs)) →
  ∃ outs,
    Rolling._known_aggregation self op (b :: bs)
    = Ok (backlog_of (Rolling.window self) (concat_list b bs), outs)
    ∧ Ok <$> outs
      = imap (λ n x, reference_emission (Rolling.window self) None op
                       (concat_list b (take n bs)) x) (b :: bs).
Proof.
  intros Hw Hall Hi. rewrite concat_list_rows in Hi by exact Hall.
  destruct (rolling_from_state (Rolling.window self) op b bs Hw Hall Hi)
    as (outs & Hrun & Houts).
  pose proof (rolling_accumulator_step (Rolling.window self) op Hw
                (mkDF (columns b) []) b eq_refl) as Hstep.
  pose proof (reference_emission_default (Rolling.window self) op Hw
                (mkDF (columns b) []) b eq_refl) as Href.
  cbn [rows columns app] in Hstep, Href. rewrite concat_empty_l in Hstep, Href.
  apply index_ok_app_l in Hi.
  eexists (_ :: outs). split.
  - unfold Rolling._known_aggregation.
    eapply accumulate_ok_cons; [|exact Hrun].
    rewrite rolling_accumulator_first by exact Hw. by apply Hstep.
  - cbn [fmap list_fmap imap]. f_equal; [|exact Houts].
    symmetry. by apply Href.
Qed.

(** C1: [rolling(2, min_periods=1)] is configured with [min_periods = 1],
    but the accumulator rolls without it: over the batches [1], [2], [3]
    it emits NaN, 3, 5, where the reference rolling sum under the
    configured [min_periods] gives 1, 3, 5. *)
Theorem rolling_accumulator_drops_min_periods :
  let sdf := Streaming.mk true (mkDF ["x"%string] []) in
  let self := Rolling.__init__ sdf (Rolling.IntArg 2) 1 in
  let b1 := mkDF ["x"%string] [mkRow 0 [Some 1]] in
  let b2 := mkDF ["x"%string] [mkRow 1 [Some 2]] in
  let b3 := mkDF ["x"%string] [mkRow 2 [Some 3]] in
  Rolling.min_periods self = 1%nat
  ∧ Rolling.sum self [b1; b2; b3]
    = Ok (Backlog (mkDF ["x"%string] [mkRow 1 [Some 2]; mkRow 2 [Some 3]]),
          [mkDF ["x"%string] [mkRow 0 [None]];
           mkDF ["x"%string] [mkRow 1 [Some 3]];
           mkDF ["x"%string] [mkRow 2 [Some 5]]])
  ∧ imap (λ n x, reference_emission (Rolling.window self)
                   (Some (Rolling.min_periods self)) roll_sum
                   (concat_list b1 (take n [b2; b3])) x) [b1; b2; b3]
    = [Ok (mkDF ["x"%string] [mkRow 0 [Some 1]]);
       Ok (mkDF ["x"%string] [mkRow 1 [Some 3]]);
       Ok (mkDF ["x"%string] [mkRow 2 [Some 5]])].
Proof. vm_compute. repeat split. Qed.

(** * The backlog of the rolling accumulator *)

Lemma filter_all {A} (P : A → Prop) `{!∀ a, Decision (P a)} (l : list A) :
  Forall P l → filter P l = l.
Proof.
  induction 1 as [|a l Ha _ IH]; [reflexivity|].
  rewrite filter_cons_True by exact Ha. by rewrite IH.
Qed.

(** On a monotonic index the slice [x.loc[lo:]] is the rows whose label
    is at least [lo]. *)
Lemma dropwhile_filter_monotonic {A} (lo : Z) (rs : list (Row A)) :
  is_monotonic rs = true →
  dropwhile (λ r, label r <? lo) rs = filter (λ r, lo ≤ label r) rs.
Proof.
  induction rs as [|r rs IH]; intros Hm; [reflexivity|].
  apply is_monotonic_cons in Hm as [Hr Hm]. simpl.
  destruct (Z.ltb_spec (label r) lo) as [Hlt|Hge].
  - rewrite filter_cons_False by lia. by apply IH.
  - rewrite filter_cons_True by exact Hge. f_equal. symmetry.
    apply filter_all, Forall_forall. intros y Hy. specialize (Hr y Hy). lia.
Qed.

Lemma index_min_lower {A} (rs : list (Row A)) lo a :
  index_min rs = Some lo → a ∈ rs → lo ≤ label a.
Proof.
  revert lo. induction rs as [|r rs IH]; intros lo Hlo Hin.
  - by apply elem_of_nil in Hin.
  - simpl in Hlo. injection Hlo as <-.
    apply elem_of_cons in Hin as [->|Hin].
    + destruct (index_min rs); lia.
    + destruct (index_min rs) as [z|] eqn:Hz.
      * specialize (IH z eq_refl Hin). lia.
      * destruct rs; [by apply elem_of_nil in Hin|discriminate].
Qed.

Lemma trim_span_filter {A} d (rs : list (Row A)) m :
  is_monotonic rs = true → index_max rs = Some m →
  trim_span d rs = filter (λ r, m - d ≤ label r) rs.
Proof.
  intros Hmono Hm. unfold trim_span. rewrite Hm.
  by apply dropwhile_filter_monotonic.
Qed.

Lemma trim_span_short {A} d (rs : list (Row A)) :
  is_monotonic rs = true → span rs ≤ d → trim_span d rs = rs.
Proof.
  intros Hmono Hspan. destruct (index_max rs) as [m|] eqn:Hm.
  - rewrite (trim_span_filter d rs m Hmono Hm).
    apply filter_all, Forall_forall. intros a Ha.
    unfold span in Hspan. rewrite Hm in Hspan.
    destruct (index_min rs) as [lo|] eqn:Hlo.
    + pose proof (index_min_lower rs lo a Hlo Ha). lia.
    + destruct rs; [by apply elem_of_nil in Ha|discriminate].
  - unfold trim_span. by rewrite Hm.
Qed.

(** C5, amended: after every step a row-count window of at least one row
    has kept the last [w] rows of the history (all of them when there are
    fewer), so the backlog counts at least [w] rows whenever the history
    does and is the whole history otherwise; a duration window over a
    monotonic index has kept exactly the rows whose label is at least the
    latest label minus the duration, which is the whole history when the
    history spans no more than the duration. *)
Theorem rolling_backlog_kept {R} (self : Rolling.t) (op : RollOp R)
  (b : DataFrame value) (bs : list (DataFrame value)) :
  match Rolling.window self with
  | Rows w => 1 ≤ w
  | Duration d => 0 ≤ d
  end →
  Forall (λ x, columns x = columns b) bs →
  index_ok (Rolling.window self) (rows (concat_list b bs)) →
  ∃ acc outs,
    Rolling._known_aggregation self op (b :: bs) = Ok (Backlog acc, outs)
    ∧ columns acc = columns b
    ∧ match Rolling.window self with
      | Rows w =>
          rows acc = last_rows (Z.to_nat w) (rows (concat_list b bs))
          ∧ backlog_covers_window (Rows w) (rows (concat_list b bs)) (rows acc)
      | Duration d =>
          (∀ m, index_max (rows (concat_list b bs)) = Some m →
                rows acc
                = filter (λ r, m - d ≤ label r) (rows (concat_list b bs)))
          ∧ (span (rows (concat_list b bs)) ≤ d →
             rows acc = rows (concat_list b bs))
      end.
Proof.
  intros Hwin Hall Hi.
  assert (Hw : window_ok (Rolling.window self))
    by (destruct (Rolling.window self); simpl; lia).
  destruct (rolling_accumulator_refines self op b bs Hw Hall Hi)
    as (outs & Hrun & _).
  eexists _, outs. split; [exact Hrun|].
  split; [simpl; by apply concat_list_columns|].
  cbn [rows]. destruct (Rolling.window self) as [w|d]; simpl in *.
  - rewrite trim_rows_pos by lia. split; [reflexivity|].
    split.
    + intros Hlen. rewrite last_rows_length. lia.
    + intros Hlen. apply last_rows_all. lia.
  - split.
    + intros m Hm. by apply trim_span_filter.
    + intros Hspan. by apply trim_span_short.
Qed.

Lemma rolling_backlog_kept_witness :
  let sdf := Streaming.mk true (mkDF ["x"%string] []) in
  let self := Rolling.__init__ sdf (Rolling.IntArg 2) 1 in
  let b1 := mkDF ["x"%string] [mkRow 0 [Some 1]] in
  let b2 := mkDF ["x"%string] [mkRow 1 [Some 2]; mkRow 2 [Some 3]] in
  ∃ acc outs,
    Rolling.sum self [b1; b2] = Ok (Backlog acc, outs)
    ∧ rows acc = [mkRow 1 [Some 2]; mkRow 2 [Some 3]].
Proof.
  intros sdf self b1 b2.
  destruct (rolling_backlog_kept self roll_sum b1 [b2])
    as (acc & outs & Hrun & _ & Hrows & _).
  - simpl. lia.
  - repeat constructor.
  - exact I.
  - exists acc, outs. split; [exact Hrun|]. rewrite Hrows. reflexivity.
Defined.

(** C5 as stated fails for a duration: over the labels 0, 5, 10 a window
    of 7 keeps the rows 5 and 10, which span 5, although the history
    spans 10. *)
Lemma rolling_backlog_span_counterexample :
  let sdf := Streaming.mk true (mkDF ["x"%string] []) in
  let self := Rolling.__init__ sdf (Rolling.TimedeltaArg 7) 1 in
  let b :=
    mkDF ["x"%string] [mkRow 0 [Some 1]; mkRow 5 [Some 1]; mkRow 10 [Some 1]] in
  let kept := [mkRow 5 [Some 1]; mkRow 10 [Some 1]] in
  Rolling.sum self [b]
  = Ok (Backlog (mkDF ["x"%string] kept),
        [mkDF ["x"%string]
           [mkRow 0 [Some 1]; mkRow 5 [Some 2]; mkRow 10 [Some 2]]])
  ∧ ¬ backlog_covers_window (Rolling.window self) (rows b) kept.
Proof.
  intros sdf self b kept. split; [vm_compute; reflexivity|].
  intros [Hspan _].
  change (7 ≤ span (rows b) → 7 ≤ span kept) in Hspan.
  assert (H1 : span (rows b) = 10) by reflexivity.
  assert (H2 : span kept = 5) by reflexivity.
  rewrite H1, H2 in Hspan. lia.
Qed.

(** * The grouped accumulators *)

Section tables.

Lemma keyed_lookup {A} (h : Z → A) (ks : list Z) (k : Z) :
  (list_to_map (map (λ k, (k, h k)) ks) : gmap Z A) !! k
  = if decide (k ∈ ks) then Some (h k) else None.
Proof.
  induction ks as [|k' ks IH]; [apply lookup_empty|].
  cbn [map]. rewrite list_to_map_cons.
  - rewrite lookup_insert. destruct (decide (k' = k)) as [->|Hne].
    + rewrite decide_True by apply list_elem_of_here. reflexivity.
    + rewrite IH. destruct (decide (k ∈ ks)) as [Hin|Hnin].
      * rewrite decide_True by (by apply list_elem_of_further). reflexivity.
      * rewrite decide_False; [reflexivity|].
        intros [?|?]%elem_of_cons; [congruence|done].
Qed.

Lemma totals_lookup {A} (f : list value → A) ps cs krs k :
  t_rows (totals f ps cs krs) !! k
  = if decide (k ∈ keys krs) then Some (group_reduce f ps k krs) else None.
Proof.
  unfold totals. cbn [t_rows].
  apply (keyed_lookup (λ k, group_reduce f ps k krs)).
Qed.

Lemma aggregate_totals {A} (f : list value → A) g :
  aggregate f g = totals f (out_positions g) (out_columns g) (g_rows g).
Proof. reflexivity. Qed.

Lemma keys_app a b : keys (a ++ b) = keys a ++ keys b.
Proof. apply map_app. Qed.

Lemma group_rows_app k a b :
  group_rows k (a ++ b) = group_rows k a ++ group_rows k b.
Proof. unfold group_rows. by rewrite filter_app, map_app. Qed.

Lemma group_rows_absent k krs : k ∉ keys krs → group_rows k krs = [].
Proof.
  induction krs as [|[k' r] krs IH]; intros Hk; [reflexivity|].
  unfold group_rows. rewrite filter_cons_False.
  - apply IH. intros Hin. apply Hk. by apply list_elem_of_further.
  - simpl. intros ->. apply Hk. apply list_elem_of_here.
Qed.

Lemma zip_with_map_same {X B C D} (f : B → C → D) (g1 : X → B) (g2 : X → C)
  (l : list X) :
  zip_with f (map g1 l) (map g2 l) = map (λ x, f (g1 x) (g2 x)) l.
Proof. induction l as [|x l IH]; [reflexivity|]. simpl. by rewrite IH. Qed.

Lemma zip_with_replicate_r {X B C D} (f : B → C → D) (g : X → B) (c : C)
  (l : list X) n :
  n = length l →
  zip_with f (map g l) (replicate n c) = map (λ x, f (g x) c) l.
Proof.
  intros ->. induction l as [|x l IH]; [reflexivity|]. simpl. by rewrite IH.
Qed.

Lemma zip_with_replicate_l {X B C D} (f : B → C → D) (g : X → C) (b : B)
  (l : list X) n :
  n = length l →
  zip_with f (replicate n b) (map g l) = map (λ x, f b (g x)) l.
Proof.
  intros ->. induction l as [|x l IH]; [reflexivity|]. simpl. by rewrite IH.
Qed.

(** Adding, under [fill_value=0], the totals of new keyed rows to the
    totals of earlier ones gives the totals of all of them, for a
    reduction that is additive over concatenation. *)
Lemma table_add_totals (F : list value → Z) ps cs h n :
  (∀ x y, F (x ++ y) = F x + F y) →
  length cs = length ps →
  table_add (totals (λ vs, Some (F vs)) ps cs h)
            (totals (λ vs, Some (F vs)) ps cs n)
  = totals (λ vs, Some (F vs)) ps cs (h ++ n).
Proof.
  intros Hadd Hlen.
  assert (Hnil : F [] = 0) by (specialize (Hadd [] []); simpl in Hadd; lia).
  unfold table_add, table_align.
  change (t_columns (totals _ ps cs h)) with cs.
  change (t_columns (totals _ ps cs n)) with cs.
  rewrite bool_decide_eq_true_2 by reflexivity.
  unfold totals at 3. f_equal.
  apply map_eq. intros k.
  rewrite lookup_merge, !totals_lookup, keyed_lookup, keys_app.
  unfold group_reduce.
  destruct (decide (k ∈ keys h)) as [Hh|Hh];
    destruct (decide (k ∈ keys n)) as [Hn|Hn]; simpl.
  - rewrite decide_True by (apply elem_of_app; by left). f_equal.
    rewrite zip_with_map_same. apply map_ext. intros j. simpl.
    by rewrite group_rows_app, map_app, Hadd.
  - rewrite decide_True by (apply elem_of_app; by left). f_equal.
    rewrite zip_with_replicate_r by exact Hlen. apply map_ext. intros j. simpl.
    rewrite group_rows_app, (group_rows_absent k n) by exact Hn.
    by rewrite app_nil_r.
  - rewrite decide_True by (apply elem_of_app; by right). f_equal.
    rewrite zip_with_replicate_l by exact Hlen. apply map_ext. intros j. simpl.
    by rewrite group_rows_app, (group_rows_absent k h) by exact Hh.
  - rewrite decide_False; [reflexivity|].
    intros [?|?]%elem_of_app; done.
Qed.

(** The quotient of the sums and the counts of the same keyed rows is
    their mean, group by group. *)
Lemma table_div_totals ps cs krs :
  table_div (totals (λ vs, Some (sum_valid vs)) ps cs krs)
            (totals (λ vs, Some (count_valid vs)) ps cs krs)
  = totals (λ vs, vdiv (Some (sum_valid vs)) (Some (count_valid vs)))
      ps cs krs.
Proof.
  unfold table_div, table_align.
  change (t_columns (totals _ ps cs krs)) with cs.
  rewrite bool_decide_eq_true_2 by reflexivity.
  unfold totals at 3. f_equal.
  apply map_eq. intros k.
  rewrite lookup_merge, !totals_lookup, keyed_lookup.
  unfold group_reduce.
  destruct (decide (k ∈ keys krs)); simpl; [|reflexivity].
  f_equal. apply zip_with_map_same.
Qed.

End tables.

Lemma position_lt k cs j : position k cs = Some j → (j < length cs)%nat.
Proof.
  revert j. induction cs as [|c cs IH]; intros j; simpl; [discriminate|].
  destruct (decide (c = k)); [intros [= <-]; lia|].
  destruct (position k cs) as [j'|]; simpl; [|discriminate].
  intros [= <-]. specialize (IH j' eq_refl). lia.
Qed.

Lemma omap_lookup_length {X} (cs : list X) (ps : list nat) :
  Forall (λ j, j < length cs)%nat ps →
  length (omap (λ j, cs !! j) ps) = length ps.
Proof.
  induction 1 as [|j ps Hj _ IH]; [reflexivity|].
  destruct (lookup_lt_is_Some_2 cs j Hj) as [c Hc].
  cbn [omap list_omap]. rewrite Hc. cbn [length]. f_equal. exact IH.
Qed.

(** Case analysis on the column lookups a grouping makes. *)
Ltac split_positions Hg :=
  repeat (cbn in Hg |- *; unfold groupby_getitem in Hg |- *;
          cbn [g_columns g_keycol g_selection g_rows] in Hg |- *;
          match type of Hg with
          | context [position ?c ?cs] =>
              let E := fresh "E" in
              destruct (position c cs) eqn:E; try discriminate
          end);
  cbn in Hg |- *.

(** What grouping a stream element yields: the columns of its batch, its
    keyed rows, and a layout that only depends on those columns and on
    the kind of the element. *)
Lemma group_input_inv i gr idx g :
  group_input i gr idx = Ok g →
  g_columns g = columns (frame_of i)
  ∧ g_rows g = input_rows i gr
  ∧ length (out_columns g) = length (out_positions g).
Proof.
  intros Hg.
  assert (Hlen : ∀ cs kc sel rs,
    (∀ j, sel = Some j → (j < length cs)%nat) →
    length (out_columns (mkGroupBy cs kc sel rs))
    = length (out_positions (mkGroupBy cs kc sel rs))).
  { intros cs kc sel rs Hsel. apply omap_lookup_length.
    unfold out_positions. cbn [g_selection g_columns g_keycol].
    destruct sel as [j|].
    - repeat constructor. by apply Hsel.
    - apply Forall_forall. intros j [_ Hj%elem_of_seq]%list_elem_of_filter.
      lia. }
  unfold input_rows.
  destruct i as [df|df s], gr as [[c|f|s0]|], idx as [c0|];
    cbn in Hg |- *; try discriminate; split_positions Hg;
    injection Hg as <-; (split; [reflexivity|split; [reflexivity|]]);
    apply Hlen; intros j Hj; try discriminate;
    injection Hj as <-; eapply position_lt; eassumption.
Qed.

Lemma group_input_same i i' gr idx g :
  group_input i gr idx = Ok g →
  same_kind i i' →
  columns (frame_of i') = columns (frame_of i) →
  ∃ g', group_input i' gr idx = Ok g'
        ∧ out_positions g' = out_positions g
        ∧ out_columns g' = out_columns g.
Proof.
  intros Hg Hk Hc.
  destruct i as [df|df s], i' as [df'|df' s']; try done;
    destruct gr as [[c|f|s0]|], idx as [c0|];
    cbn in Hg, Hc |- *; try discriminate; rewrite ?Hc;
    split_positions Hg;
    injection Hg as <-; eexists; (split; [reflexivity|]);
    unfold out_columns, out_positions; cbn; rewrite ?Hc; done.
Qed.

(** The elements of the stream of a grouped facade are all of one kind,
    and carry the columns of the batches. *)
Lemma inputs_uniform (self : StreamingSeriesGroupby.t) bs ks cs :
  Forall (λ x, columns x = cs) bs →
  ∃ z, Forall (λ i, is_zipped i = z ∧ columns (frame_of i) = cs)
         (StreamingSeriesGroupby.inputs self bs ks).
Proof.
  intros Hbs. unfold StreamingSeriesGroupby.inputs.
  destruct (StreamingSeriesGroupby.grouper self).
  - exists true. revert ks.
    induction Hbs as [|x bs Hx _ IH]; intros [|k ks]; simpl;
      constructor; [by split|apply IH].
  - exists false. induction Hbs as [|x bs Hx _ IH]; simpl; constructor;
      [by split|apply IH].
Qed.

(** Once one element of a uniform stream groups, they all do, with the
    same layout. *)
Lemma uniform_inputs_group gr idx i0 g0 z ins :
  group_input i0 gr idx = Ok g0 →
  Forall (λ i, is_zipped i = z ∧ columns (frame_of i) = columns (frame_of i0))
    (i0 :: ins) →
  Forall (λ i, ∃ g, group_input i gr idx = Ok g
                    ∧ out_positions g = out_positions g0
                    ∧ out_columns g = out_columns g0) ins.
Proof.
  intros Hg0 Hall. inversion Hall as [|? ? [Hz0 _] Hins]; subst.
  eapply Forall_impl; [exact Hins|]. intros i [Hz Hc].
  apply (group_input_same i0 i gr idx g0 Hg0); [|exact Hc].
  unfold same_kind. congruence.
Qed.

Section grouped_folds.
Context (gr : option Grouper) (idx : option string) (g0 : GroupBy).
Hypothesis Hlayout : length (out_columns g0) = length (out_positions g0).

Local Abbreviation groups_like_g0 :=
  (Forall (λ i, ∃ g, group_input i gr idx = Ok g
                     ∧ out_positions g = out_positions g0
                     ∧ out_columns g = out_columns g0)).

Lemma g_sum_group_sums i g :
  group_input i gr idx = Ok g →
  out_positions g = out_positions g0 → out_columns g = out_columns g0 →
  g_sum g = group_sums g0 (input_rows i gr)
  ∧ g_count g = group_counts g0 (input_rows i gr).
Proof.
  intros Hg Hp Hc. apply group_input_inv in Hg as (_ & Hrows & _).
  unfold g_sum, g_count, group_sums, group_counts.
  rewrite !aggregate_totals, Hp, Hc, Hrows. by split.
Qed.

Lemma group_sums_add h n :
  table_add (group_sums g0 h) (group_sums g0 n) = group_sums g0 (h ++ n).
Proof using Hlayout.
  apply (table_add_totals sum_valid); [apply sum_valid_app|exact Hlayout].
Qed.

Lemma group_counts_add h n :
  table_add (group_counts g0 h) (group_counts g0 n) = group_counts g0 (h ++ n).
Proof using Hlayout.
  apply (table_add_totals count_valid); [apply count_valid_app|exact Hlayout].
Qed.

Lemma group_means_div krs :
  table_div (group_sums g0 krs) (group_counts g0 krs) = group_means g0 krs.
Proof. apply table_div_totals. Qed.

Lemma seen_after h i ins n :
  (h ++ input_rows i gr) ++ all_input_rows (take n ins) gr
  = h ++ all_input_rows (take (S n) (i :: ins)) gr.
Proof. simpl. by rewrite app_assoc. Qed.

Lemma seen_all h i ins :
  (h ++ input_rows i gr) ++ all_input_rows ins gr
  = h ++ all_input_rows (i :: ins) gr.
Proof. simpl. by rewrite app_assoc. Qed.

Lemma groupby_sum_from_state h ins :
  groups_like_g0 ins →
  accumulate
    (collapse (λ acc new, _accumulate_groupby_sum acc new gr idx))
    (Table (group_sums g0 h)) ins
  = Ok (Table (group_sums g0 (h ++ all_input_rows ins gr)),
        map (λ n, Table (group_sums g0
                           (h ++ all_input_rows (take (S n) ins) gr)))
          (seq 0 (length ins))).
Proof using Hlayout.
  revert h. induction ins as [|i ins IH]; intros h Hall.
  - simpl. by rewrite app_nil_r.
  - inversion Hall as [|? ? (g & Hg & Hp & Hc) Hins]; subst.
    destruct (g_sum_group_sums i g Hg Hp Hc) as [Hsum _].
    cbn [length seq map]. rewrite seq_shift_map.
    apply accumulate_ok_cons
      with (s1 := Table (group_sums g0 (h ++ input_rows i gr))).
    + unfold collapse, _accumulate_groupby_sum. rewrite Hg. cbn.
      rewrite Hsum, group_sums_add. simpl. by rewrite app_nil_r.
    + rewrite IH by exact Hins. rewrite seen_all. f_equal. f_equal.
      apply map_ext. intros n. unfold compose. by rewrite seen_after.
Qed.

Lemma groupby_mean_from_state h ins :
  groups_like_g0 ins →
  accumulate (λ acc new, _accumulate_groupby_mean acc new gr idx)
    (Table (group_sums g0 h), Table (group_counts g0 h)) ins
  = Ok ((Table (group_sums g0 (h ++ all_input_rows ins gr)),
         Table (group_counts g0 (h ++ all_input_rows ins gr))),
        map (λ n, group_means g0 (h ++ all_input_rows (take (S n) ins) gr))
          (seq 0 (length ins))).
Proof using Hlayout.
  revert h. induction ins as [|i ins IH]; intros h Hall.
  - simpl. by rewrite app_nil_r.
  - inversion Hall as [|? ? (g & Hg & Hp & Hc) Hins]; subst.
    destruct (g_sum_group_sums i g Hg Hp Hc) as [Hsum Hcount].
    cbn [length seq map]. rewrite seq_shift_map.
    apply accumulate_ok_cons
      with (s1 := (Table (group_sums g0 (h ++ input_rows i gr)),
                   Table (group_counts g0 (h ++ input_rows i gr)))).
    + unfold _accumulate_groupby_mean. rewrite Hg. cbn.
      rewrite Hsum, Hcount, group_sums_add, group_counts_add, group_means_div.
      simpl. by rewrite app_nil_r.
    + rewrite IH by exact Hins. rewrite seen_all. f_equal. f_equal.
      apply map_ext. intros n. unfold compose. by rewrite seen_after.
Qed.

End grouped_folds.

(** The run of the grouped-sum accumulator in closed form. *)
Lemma grouped_sum_run (self : StreamingSeriesGroupby.t)
  (bs : list (DataFrame value)) (ks : list (list (Z * option Z)))
  (i0 : GroupInput) (ins : list GroupInput) (g0 : GroupBy) :
  Forall (λ x, columns x = columns (frame_of i0)) bs →
  StreamingSeriesGroupby.inputs self bs ks = i0 :: ins →
  group_input i0 (StreamingSeriesGroupby.fixed_grouper self)
    (StreamingSeriesGroupby.index self) = Ok g0 →
  let seen n :=
    all_input_rows (take n (i0 :: ins))
      (StreamingSeriesGroupby.fixed_grouper self) in
  StreamingSeriesGroupby.sum self bs ks
  = Ok (Table (group_sums g0 (seen (S (length ins)))),
        map (λ n, Table (group_sums g0 (seen (S n))))
          (seq 0 (S (length ins))))
  ∧ group_sums g0 (seen 1%nat) = g_sum g0
  ∧ ∀ n k,
      t_rows (group_sums g0 (seen n)) !! k
      = if decide (k ∈ keys (seen n))
        then Some (map (λ j, Some (sum_valid
                                     (map (pick j) (group_rows k (seen n)))))
                     (out_positions g0))
        else None.
Proof.
  intros Hbs Hins Hg0 seen.
  destruct (inputs_uniform self bs ks _ Hbs) as [z Huni].
  rewrite Hins in Huni.
  pose proof (uniform_inputs_group _ _ _ _ _ _ Hg0 Huni) as Hlike.
  pose proof (group_input_inv _ _ _ _ Hg0) as (_ & _ & Hlayout).
  destruct (g_sum_group_sums _ _ g0 i0 g0 Hg0 eq_refl eq_refl) as [Hsum _].
  assert (Hseen1 : seen 1%nat
                   = input_rows i0 (StreamingSeriesGroupby.fixed_grouper self))
    by (unfold seen; simpl; by rewrite app_nil_r).
  split; [|split].
  - unfold StreamingSeriesGroupby.sum. rewrite Hins.
    cbn [length seq map]. rewrite seq_shift_map, Hseen1.
    apply accumulate_ok_cons
      with (s1 := Table (group_sums g0
                    (input_rows i0 (StreamingSeriesGroupby.fixed_grouper self)))).
    + unfold collapse, _accumulate_groupby_sum. rewrite Hg0. cbn.
      by rewrite Hsum.
    + rewrite (groupby_sum_from_state _ _ g0 Hlayout) by exact Hlike.
      unfold seen. cbn [take all_input_rows foldr]. by rewrite firstn_all.
  - by rewrite Hseen1, Hsum.
  - intros n k. unfold group_sums. apply totals_lookup.
Qed.

(** C3, amended: on a grouped-sum stream whose batches carry the same
    columns, whose cells are integers or missing, added exactly, and
    whose first element groups, the seed [0] makes the first step return
    the per-group sums of the first batch, and after every step the
    running table holds, for every key that occurred in a batch so far,
    the sum of the values with that key over all those batches, and no
    row for any other key. *)
Theorem grouped_sum_totals (self : StreamingSeriesGroupby.t)
  (bs : list (DataFrame value)) (ks : list (list (Z * option Z)))
  (i0 : GroupInput) (ins : list GroupInput) (g0 : GroupBy) :
  Forall (λ x, columns x = columns (frame_of i0)) bs →
  StreamingSeriesGroupby.inputs self bs ks = i0 :: ins →
  group_input i0 (StreamingSeriesGroupby.fixed_grouper self)
    (StreamingSeriesGroupby.index self) = Ok g0 →
  let seen n :=
    all_input_rows (take n (i0 :: ins))
      (StreamingSeriesGroupby.fixed_grouper self) in
  StreamingSeriesGroupby.sum self bs ks
  = Ok (Table (group_sums g0 (seen (S (length ins)))),
        map (λ n, Table (group_sums g0 (seen (S n))))
          (seq 0 (S (length ins))))
  ∧ group_sums g0 (seen 1%nat) = g_sum g0
  ∧ ∀ n k,
      t_rows (group_sums g0 (seen n)) !! k
      = if decide (k ∈ keys (seen n))
        then Some (map (λ j, Some (sum_valid
                                     (map (pick j) (group_rows k (seen n)))))
                     (out_positions g0))
        else None.
Proof. exact (grouped_sum_run self bs ks i0 ins g0). Qed.

Lemma grouped_sum_totals_witness :
  let root := Streaming.mk true (mkDF ["k"; "v"]%string []) in
  let self :=
    StreamingSeriesGroupby.mk root
      (StreamingSeriesGroupby.StaticGrouper (ByColumn "k")) (Some "v"%string) in
  let b1 := mkDF ["k"; "v"]%string
              [mkRow 0 [Some 1; Some 10]; mkRow 1 [Some 2; Some 20]] in
  let b2 := mkDF ["k"; "v"]%string [mkRow 2 [Some 1; Some 5]] in
  StreamingSeriesGroupby.sum self [b1; b2] []
  = Ok (Table (mkTable ["v"%string] {[ 1 := [Some 15]; 2 := [Some 20] ]}),
        [Table (mkTable ["v"%string] {[ 1 := [Some 10]; 2 := [Some 20] ]});
         Table (mkTable ["v"%string] {[ 1 := [Some 15]; 2 := [Some 20] ]})]).
Proof.
  intros root self b1 b2.
  edestruct (grouped_sum_totals self [b1; b2] [] (Plain b1) [Plain b2])
    as [Hrun _].
  - repeat constructor.
  - reflexivity.
  - vm_compute. reflexivity.
  - rewrite Hrun. vm_compute. reflexivity.
Defined.

(** C3 as stated fails over float64 cells, where [+] rounds: the batches
    [0.1] and [0.2, 0.3] all fall under the key 7; the running total of
    that key is 0.1 + (0.2 + 0.3) = 0.6, while the sum of the values
    with that key over both batches, (0.1 + 0.2) + 0.3, is
    0.6000000000000001. *)
Lemma grouped_sum_float_counterexample :
  let b1 := mkDF ["v"%string] [mkRow 0 [Some 0.1%float]] in
  let b2 := mkDF ["v"%string]
              [mkRow 1 [Some 0.2%float]; mkRow 2 [Some 0.3%float]] in
  let k1 := [(0, Some 7)] in
  let k2 := [(1, Some 7); (2, Some 7)] in
  let total : GTable Float64.cell :=
    mkTable ["v"%string] {[ 7 := [Some 0.6%float] ]} in
  let reference : GTable Float64.cell :=
    mkTable ["v"%string] {[ 7 := [Some 0.6000000000000001%float] ]} in
  Float64.groupby_sum None None [Float64.Zipped b1 k1; Float64.Zipped b2 k2]
  = Ok (Table total,
        [Table (mkTable ["v"%string] {[ 7 := [Some 0.1%float] ]});
         Table total])
  ∧ Float64.g_sum <$> Float64.group_input
                        (Float64.Zipped (concat b1 b2) (k1 ++ k2)) None None
    = Ok reference
  ∧ total ≠ reference.
Proof.
  intros b1 b2 k1 k2 total reference. split; [vm_compute; reflexivity|].
  split; [vm_compute; reflexivity|]. intros H.
  apply (f_equal (λ t : GTable Float64.cell,
                    match t_rows t !! 7 with
                    | Some [Some x] => PrimFloat.eqb x 0.6
                    | _ => false
                    end)) in H.
  vm_compute in H. discriminate.
Qed.

Lemma all_input_rows_app gr a b :
  all_input_rows (a ++ b) gr = all_input_rows a gr ++ all_input_rows b gr.
Proof.
  induction a as [|i a IH]; [reflexivity|]. simpl. by rewrite IH, app_assoc.
Qed.

Lemma all_input_rows_take_S gr l n i :
  l !! n = Some i →
  all_input_rows (take (S n) l) gr
  = all_input_rows (take n l) gr ++ input_rows i gr.
Proof.
  intros Hl. rewrite (take_S_r l n i Hl), all_input_rows_app. simpl.
  by rewrite app_nil_r.
Qed.

(** The run of the grouped-mean accumulator in closed form. *)
Lemma grouped_mean_run (self : StreamingSeriesGroupby.t)
  (bs : list (DataFrame value)) (ks : list (list (Z * option Z)))
  (i0 : GroupInput) (ins : list GroupInput) (g0 : GroupBy) :
  Forall (λ x, columns x = columns (frame_of i0)) bs →
  StreamingSeriesGroupby.inputs self bs ks = i0 :: ins →
  group_input i0 (StreamingSeriesGroupby.fixed_grouper self)
    (StreamingSeriesGroupby.index self) = Ok g0 →
  let gr := StreamingSeriesGroupby.fixed_grouper self in
  let seen n := all_input_rows (take n (i0 :: ins)) gr in
  StreamingSeriesGroupby.mean self bs ks
  = Ok ((Table (group_sums g0 (seen (S (length ins)))),
         Table (group_counts g0 (seen (S (length ins))))),
        map (λ n, group_means g0 (seen (S n))) (seq 0 (S (length ins))))
  ∧ (∀ n k,
       t_rows (group_means g0 (seen n)) !! k
       = if decide (k ∈ keys (seen n))
         then Some (map (λ j,
                      vdiv (Some (sum_valid
                                    (map (pick j) (group_rows k (seen n)))))
                           (Some (count_valid
                                    (map (pick j) (group_rows k (seen n))))))
                      (out_positions g0))
         else None)
  ∧ (∀ n i k,
       (i0 :: ins) !! n = Some i →
       k ∉ keys (input_rows i gr) →
       t_rows (group_means g0 (seen (S n))) !! k
       = t_rows (group_means g0 (seen n)) !! k).
Proof.
  intros Hbs Hins Hg0 gr seen.
  destruct (inputs_uniform self bs ks _ Hbs) as [z Huni].
  rewrite Hins in Huni.
  pose proof (uniform_inputs_group _ _ _ _ _ _ Hg0 Huni) as Hlike.
  pose proof (group_input_inv _ _ _ _ Hg0) as (_ & _ & Hlayout).
  destruct (g_sum_group_sums _ _ g0 i0 g0 Hg0 eq_refl eq_refl)
    as [Hsum Hcount].
  assert (Hseen1 : seen 1%nat = input_rows i0 gr)
    by (unfold seen; simpl; by rewrite app_nil_r).
  assert (Hlookup : ∀ krs k,
    t_rows (group_means g0 krs) !! k
    = if decide (k ∈ keys krs)
      then Some (map (λ j,
                   vdiv (Some (sum_valid (map (pick j) (group_rows k krs))))
                        (Some (count_valid (map (pick j) (group_rows k krs)))))
                   (out_positions g0))
      else None)
    by (intros krs k; unfold group_means; apply totals_lookup).
  split; [|split].
  - unfold StreamingSeriesGroupby.mean. rewrite Hins.
    cbn [length seq map]. rewrite seq_shift_map, Hseen1.
    apply accumulate_ok_cons
      with (s1 := (Table (group_sums g0 (input_rows i0 gr)),
                   Table (group_counts g0 (input_rows i0 gr)))).
    + unfold _accumulate_groupby_mean, gr. rewrite Hg0. cbn.
      by rewrite Hsum, Hcount, group_means_div.
    + rewrite (groupby_mean_from_state _ _ g0 Hlayout) by exact Hlike.
      unfold seen. cbn [take all_input_rows foldr]. by rewrite firstn_all.
  - intros n k. apply Hlookup.
  - intros n i k Hn Hk. rewrite !Hlookup. unfold seen.
    rewrite (all_input_rows_take_S gr _ n i Hn), keys_app.
    set (old := all_input_rows (take n (i0 :: ins)) gr).
    destruct (decide (k ∈ keys old)) as [Hold|Hold].
    + rewrite decide_True by (apply elem_of_app; by left). f_equal.
      apply map_ext. intros j.
      by rewrite group_rows_app, (group_rows_absent k _ Hk), app_nil_r.
    + rewrite decide_False; [reflexivity|].
      intros [?|?]%elem_of_app; done.
Qed.

(** C4: on a grouped-mean stream whose batches carry the same columns and
    whose first element groups, the table emitted at every step holds,
    for every key that occurred in a batch so far, the quotient of the
    sum and the count of the values with that key over all those
    batches; a key that the latest batch does not touch keeps the row it
    had in the table emitted before. *)
Theorem grouped_mean_reports_all_groups (self : StreamingSeriesGroupby.t)
  (bs : list (DataFrame value)) (ks : list (list (Z * option Z)))
  (i0 : GroupInput) (ins : list GroupInput) (g0 : GroupBy) :
  Forall (λ x, columns x = columns (frame_of i0)) bs →
  StreamingSeriesGroupby.inputs self bs ks = i0 :: ins →
  group_input i0 (StreamingSeriesGroupby.fixed_grouper self)
    (StreamingSeriesGroupby.index self) = Ok g0 →
  let gr := StreamingSeriesGroupby.fixed_grouper self in
  let seen n := all_input_rows (take n (i0 :: ins)) gr in
  StreamingSeriesGroupby.mean self bs ks
  = Ok ((Table (group_sums g0 (seen (S (length ins)))),
         Table (group_counts g0 (seen (S (length ins))))),
        map (λ n, group_means g0 (seen (S n))) (seq 0 (S (length ins))))
  ∧ (∀ n k,
       t_rows (group_means g0 (seen n)) !! k
       = if decide (k ∈ keys (seen n))
         then Some (map (λ j,
                      vdiv (Some (sum_valid
                                    (map (pick j) (group_rows k (seen n)))))
                           (Some (count_valid
                                    (map (pick j) (group_rows k (seen n))))))
                      (out_positions g0))
         else None)
  ∧ (∀ n i k,
       (i0 :: ins) !! n = Some i →
       k ∉ keys (input_rows i gr) →
       t_rows (group_means g0 (seen (S n))) !! k
       = t_rows (group_means g0 (seen n)) !! k).
Proof. exact (grouped_mean_run self bs ks i0 ins g0). Qed.

Lemma grouped_mean_reports_all_groups_witness :
  let root := Streaming.mk true (mkDF ["k"; "v"]%string []) in
  let self :=
    StreamingSeriesGroupby.mk root
      (StreamingSeriesGroupby.StaticGrouper (ByColumn "k")) (Some "v"%string) in
  let b1 := mkDF ["k"; "v"]%string
              [mkRow 0 [Some 1; Some 10]; mkRow 1 [Some 2; Some 20]] in
  let b2 := mkDF ["k"; "v"]%string [mkRow 2 [Some 1; Some 5]] in
  ∃ st,
    StreamingSeriesGroupby.mean self [b1; b2] []
    = Ok (st,
          [mkTable ["v"%string]
             {[ 1 := [Fin (10 # 1)]; 2 := [Fin (20 # 1)] ]};
           mkTable ["v"%string]
             {[ 1 := [Fin (15 # 2)]; 2 := [Fin (20 # 1)] ]}]).
Proof.
  intros root self b1 b2.
  edestruct (grouped_mean_reports_all_groups self [b1; b2] []
               (Plain b1) [Plain b2]) as [Hrun _].
  - repeat constructor.
  - reflexivity.
  - vm_compute. reflexivity.
  - eexists. rewrite Hrun. vm_compute. reflexivity.
Defined.

(** * The facades *)

(** C7: a batch that passes the checks of the base class and whose column
    list differs from the column list of the prototype makes [verify]
    raise [IndexError], the shape error; the facade then raises it without
    calling the accumulator, whose state stays as it was. *)
Theorem verify_shape_error `{StreamingBase} (self : Streaming.t)
  (x : DataFrame value) :
  base_verify self x = Ok () →
  columns x ≠ columns (Streaming.example self) →
  StreamingDataFrame.verify self x = Raise IndexError
  ∧ ∀ (S R : Type) (step_fn : S → DataFrame value → res (S * R)) (state : S),
      emit (StreamingDataFrame.verify self) step_fn state x
      = (state, Raise IndexError).
Proof.
  intros Hbase Hcols.
  assert (Hverify : StreamingDataFrame.verify self x = Raise IndexError).
  { unfold StreamingDataFrame.verify. rewrite Hbase. cbn.
    rewrite bool_decide_eq_true_2 by exact Hcols. reflexivity. }
  split; [exact Hverify|].
  intros S R step_fn state. unfold emit. rewrite Hverify. reflexivity.
Qed.

Lemma verify_shape_error_witness :
  let self := Streaming.mk true (mkDF ["x"; "y"]%string []) in
  let x := mkDF ["y"; "x"]%string [mkRow 0 [Some 1; Some 2]] in
  let start := StreamingDataFrame.mean_start self in
  @StreamingDataFrame.verify plain_base self x = Raise IndexError
  ∧ emit (@StreamingDataFrame.verify plain_base self)
      (λ s b, Ok (_accumulate_mean s b)) start x
    = (start, Raise IndexError).
Proof.
  intros self x start.
  destruct (@verify_shape_error plain_base self x) as [Hverify Hemit].
  - reflexivity.
  - simpl. intros [=].
  - split; [exact Hverify|apply Hemit].
Defined.

(** C9, amended: on a streaming dataframe, a rolling handle and a grouped
    handle whose prototype has at least one column, the access to a name
    that is neither an attribute the regular lookup finds nor a column of
    the prototype raises [AttributeError]. *)
Theorem unknown_attribute_error `{StreamingBase} (key : string)
  (sdf : Streaming.t) (rolling : Rolling.t)
  (grouped : StreamingSeriesGroupby.t) :
  StreamingDataFrame.columns sdf ≠ [] →
  StreamingDataFrame.columns (Rolling.sdf rolling) ≠ [] →
  StreamingDataFrame.columns (StreamingSeriesGroupby.root grouped) ≠ [] →
  (key ∉ StreamingDataFrame.attributes →
   key ∉ StreamingDataFrame.columns sdf →
   getattr StreamingDataFrame.attributes
     (StreamingDataFrame.__getattr__ sdf) key = Raise AttributeError)
  ∧ (key ∉ Rolling.attributes →
     key ∉ StreamingDataFrame.columns (Rolling.sdf rolling) →
     getattr Rolling.attributes (Rolling.__getattr__ rolling) key
     = Raise AttributeError)
  ∧ (key ∉ StreamingSeriesGroupby.attributes →
     key ∉ StreamingDataFrame.columns (StreamingSeriesGroupby.root grouped) →
     getattr StreamingSeriesGroupby.attributes
       (StreamingSeriesGroupby.__getattr__ grouped) key
     = Raise AttributeError).
Proof.
  assert (Hlen : ∀ cs : list string, cs ≠ [] → length cs ≠ 0%nat)
    by (intros [|c cs] Hcs; [done|discriminate]).
  intros H1 H2 H3. repeat split; intros Hattr Hcol; unfold getattr;
    rewrite decide_False by exact Hattr.
  - unfold StreamingDataFrame.__getattr__.
    rewrite bool_decide_eq_false_2 by exact Hcol.
    rewrite bool_decide_eq_false_2 by (by apply Hlen). reflexivity.
  - unfold Rolling.__getattr__.
    rewrite bool_decide_eq_false_2 by exact Hcol.
    rewrite bool_decide_eq_false_2 by (by apply Hlen). reflexivity.
  - unfold StreamingSeriesGroupby.__getattr__.
    rewrite bool_decide_eq_false_2 by exact Hcol.
    rewrite bool_decide_eq_false_2 by (by apply Hlen). reflexivity.
Qed.

Lemma unknown_attribute_error_witness :
  let sdf := Streaming.mk true (mkDF ["x"; "y"]%string []) in
  let rolling := Rolling.__init__ sdf (Rolling.IntArg 2) 1 in
  let grouped :=
    StreamingSeriesGroupby.mk sdf
      (StreamingSeriesGroupby.StaticGrouper (ByColumn "x")) None in
  getattr (@StreamingDataFrame.attributes plain_base)
    (@StreamingDataFrame.__getattr__ plain_base sdf) "z" = Raise AttributeError
  ∧ getattr Rolling.attributes (@Rolling.__getattr__ plain_base rolling) "z"
    = Raise AttributeError
  ∧ getattr StreamingSeriesGroupby.attributes
      (StreamingSeriesGroupby.__getattr__ grouped) "z" = Raise AttributeError.
Proof.
  intros sdf rolling grouped.
  destruct (@unknown_attribute_error plain_base "z" sdf rolling grouped)
    as (Hs & Hr & Hg).
  - vm_compute. discriminate.
  - vm_compute. discriminate.
  - vm_compute. discriminate.
  - split; [|split]; [apply Hs|apply Hr|apply Hg]; compute_done.
Defined.

(** C9 as stated fails on a prototype without columns: the guard
    [not len(self.columns)] lets every name through, and the grouped
    handle answers with a handle narrowed to that name. *)
Lemma unknown_attribute_counterexample :
  let root := Streaming.mk true (mkDF [] []) in
  let grouper := StreamingSeriesGroupby.StaticGrouper (ByColumn "k") in
  let grouped := StreamingSeriesGroupby.mk root grouper None in
  ("foo"%string ∉ StreamingSeriesGroupby.attributes)
  ∧ ("foo"%string ∉ StreamingDataFrame.columns root)
  ∧ getattr StreamingSeriesGroupby.attributes
      (StreamingSeriesGroupby.__getattr__ grouped) "foo"
    = Ok (Computed (StreamingSeriesGroupby.mk root grouper (Some "foo"%string)))
  ∧ getattr StreamingSeriesGroupby.attributes
      (StreamingSeriesGroupby.__getattr__ grouped) "foo"
    ≠ Raise AttributeError.
Proof.
  intros root grouper grouped.
  split; [compute_done|]. split; [compute_done|].
  split; [reflexivity|discriminate].
Qed.

(** * Zero-row batches *)

Lemma accumulate_app {S B R} (f : S → B → res (S * R)) s l1 l2 s1 o1 s2 o2 :
  accumulate f s l1 = Ok (s1, o1) →
  accumulate f s1 l2 = Ok (s2, o2) →
  accumulate f s (l1 ++ l2) = Ok (s2, o1 ++ o2).
Proof.
  revert s o1. induction l1 as [|b l1 IH]; intros s o1 H1 H2.
  - injection H1 as <- <-. exact H2.
  - simpl in H1. destruct (f s b) as [[s' r]|] eqn:Hf; [|discriminate].
    simpl in H1.
    destruct (accumulate f s' l1) as [[s'' rs]|] eqn:Hacc; [|discriminate].
    injection H1 as <- <-.
    simpl. eapply accumulate_ok_cons; [exact Hf|]. by apply IH.
Qed.

Lemma accumulate_one {S B R} (f : S → B → res (S * R)) s e s' r :
  f s e = Ok (s', r) → accumulate f s [e] = Ok (s', [r]).
Proof. intros Hf. by apply accumulate_ok_cons with (s1 := s'). Qed.

Lemma last_map_seq {X} (f : nat → X) n :
  last (map f (seq 0 (S n))) = Some (f n).
Proof. rewrite seq_S, map_app. simpl. apply last_snoc. Qed.

Lemma concat_empty_r {A} (d e : DataFrame (option A)) :
  columns e = columns d → rows e = [] → concat d e = d.
Proof.
  intros Hc Hr. rewrite concat_same by congruence. rewrite Hr, app_nil_r.
  by destruct d.
Qed.

Section zero_rows.
Context (b : DataFrame value) (bs : list (DataFrame value)).
Hypothesis Hcols : Forall (λ x, columns x = columns b) bs.

(** The zero-row batch of the stream. *)
Local Abbreviation e := (mkDF (columns b) (@nil (Row value))).

Lemma concat_zero_rows : concat (concat_list b bs) e = concat_list b bs.
Proof using Hcols.
  apply concat_empty_r; [|reflexivity].
  simpl. symmetry. by apply concat_list_columns.
Qed.

Lemma sum_zero_rows :
  ∃ st outs,
    StreamingFrame.sum (b :: bs) = Ok (st, outs)
    ∧ last outs = Some st
    ∧ StreamingFrame.sum ((b :: bs) ++ [e]) = Ok (st, outs ++ [st]).
Proof using Hcols.
  pose proof (sum_run b bs Hcols) as Hrun.
  eexists _, _. split; [exact Hrun|].
  split; [by rewrite last_map_seq, firstn_all|].
  unfold StreamingFrame.sum in *. eapply accumulate_app; [exact Hrun|].
  apply accumulate_one. unfold collapse, _accumulate_sum. simpl.
  rewrite <- df_sum_concat, concat_zero_rows; [reflexivity|].
  simpl. by apply concat_list_columns.
Qed.

Lemma mean_zero_rows (self : Streaming.t) :
  columns b = StreamingDataFrame.columns self →
  ∃ st outs r,
    StreamingDataFrame.mean self (b :: bs) = Ok (st, outs)
    ∧ last outs = Some r
    ∧ StreamingDataFrame.mean self ((b :: bs) ++ [e]) = Ok (st, outs ++ [r]).
Proof using Hcols.
  intros Hself.
  destruct (mean_run self b bs) as [Hrun _].
  { constructor; [exact Hself|].
    eapply Forall_impl; [exact Hcols|]. intros x Hx. cbv beta in *. congruence. }
  eexists _, _, _. split; [exact Hrun|].
  split; [by rewrite last_map_seq, firstn_all|].
  unfold StreamingDataFrame.mean in *. eapply accumulate_app; [exact Hrun|].
  apply accumulate_one. rewrite _accumulate_mean_step.
  - by rewrite concat_zero_rows.
  - simpl. symmetry. by apply concat_list_columns.
Qed.

Lemma rolling_zero_rows {R} (self : Rolling.t) (op : RollOp R) :
  window_ok (Rolling.window self) →
  index_ok (Rolling.window self) (rows (concat_list b bs)) →
  ∃ st outs,
    Rolling._known_aggregation self op (b :: bs) = Ok (st, outs)
    ∧ Rolling._known_aggregation self op ((b :: bs) ++ [e])
      = Ok (st, outs ++ [mkDF (columns b) []]).
Proof using Hcols.
  intros Hw Hi.
  destruct (rolling_accumulator_refines self op b bs Hw Hcols Hi)
    as (outs & Hrun & _).
  eexists _, outs. split; [exact Hrun|].
  unfold Rolling._known_aggregation in *.
  eapply accumulate_app; [exact Hrun|]. apply accumulate_one.
  rewrite (rolling_accumulator_step _ op Hw (concat_list b bs) e).
  - rewrite concat_zero_rows, concat_list_columns by exact Hcols. reflexivity.
  - simpl. symmetry. by apply concat_list_columns.
  - simpl. by rewrite app_nil_r.
Qed.

Lemma keyed_rows_nil ks : keyed_rows ks [] = [].
Proof. by destruct ks. Qed.

Lemma input_rows_empty i gr : rows (frame_of i) = [] → input_rows i gr = [].
Proof.
  unfold input_rows, group_input.
  destruct i as [df|df s], gr as [[c|f|s0]|]; simpl; intros Hr;
    try reflexivity; rewrite ?Hr;
    repeat match goal with
    | |- context [position ?c ?cs] => destruct (position c cs); simpl
    end;
    try reflexivity; apply keyed_rows_nil.
Qed.

Section grouped_zero_rows.
Context (self : StreamingSeriesGroupby.t) (ks : list (list (Z * option Z)))
  (ke : list (Z * option Z)) (i0 ie : GroupInput) (ins : list GroupInput)
  (g0 : GroupBy).
Hypothesis Hins : StreamingSeriesGroupby.inputs self (b :: bs) ks = i0 :: ins.
Hypothesis Hins' :
  StreamingSeriesGroupby.inputs self ((b :: bs) ++ [e]) (ks ++ [ke])
  = (i0 :: ins) ++ [ie].
Hypothesis Hie : frame_of ie = e.
Hypothesis Hg0 :
  group_input i0 (StreamingSeriesGroupby.fixed_grouper self)
    (StreamingSeriesGroupby.index self) = Ok g0.

Local Abbreviation gr := (StreamingSeriesGroupby.fixed_grouper self).
Local Abbreviation idx := (StreamingSeriesGroupby.index self).

Lemma zero_rows_first_columns : columns (frame_of i0) = columns b.
Proof using Hcols Hins.
  destruct (inputs_uniform self (b :: bs) ks (columns b)) as [z Huni];
    [by constructor|].
  rewrite Hins in Huni. by inversion Huni as [|? ? [_ ?] _].
Qed.

Lemma zero_rows_same_columns :
  Forall (λ x, columns x = columns (frame_of i0)) (b :: bs).
Proof using Hcols Hins.
  rewrite zero_rows_first_columns. by constructor.
Qed.

Lemma zero_rows_layout :
  length (out_columns g0) = length (out_positions g0).
Proof using Hg0. by apply group_input_inv in Hg0 as (_ & _ & ?). Qed.

Lemma zero_rows_groups :
  Forall (λ i, ∃ g, group_input i gr idx = Ok g
                    ∧ out_positions g = out_positions g0
                    ∧ out_columns g = out_columns g0) [ie].
Proof using Hcols Hins Hins' Hg0.
  destruct (inputs_uniform self ((b :: bs) ++ [e]) (ks ++ [ke]) (columns b))
    as [z Huni].
  { apply Forall_app. split; [by constructor|]. by repeat constructor. }
  rewrite Hins', <- zero_rows_first_columns in Huni.
  change ((i0 :: ins) ++ [ie]) with (i0 :: (ins ++ [ie])) in Huni.
  pose proof (uniform_inputs_group _ _ _ _ _ _ Hg0 Huni) as Hlike.
  by apply Forall_app in Hlike as [_ ?].
Qed.

Lemma zero_rows_input : all_input_rows [ie] gr = [].
Proof using Hie.
  simpl. rewrite input_rows_empty; [reflexivity|]. by rewrite Hie.
Qed.

Lemma grouped_sum_zero_rows :
  ∃ st outs r,
    StreamingSeriesGroupby.sum self (b :: bs) ks = Ok (st, outs)
    ∧ last outs = Some r
    ∧ StreamingSeriesGroupby.sum self ((b :: bs) ++ [e]) (ks ++ [ke])
      = Ok (st, outs ++ [r]).
Proof using Hcols Hins Hins' Hie Hg0.
  destruct (grouped_sum_run self (b :: bs) ks i0 ins g0
              zero_rows_same_columns Hins Hg0) as [Hrun _].
  eexists _, _, _. split; [exact Hrun|].
  split; [apply last_map_seq|].
  unfold StreamingSeriesGroupby.sum in *. rewrite Hins in Hrun. rewrite Hins'.
  eapply accumulate_app; [exact Hrun|].
  rewrite (groupby_sum_from_state gr idx g0 zero_rows_layout)
    by exact zero_rows_groups.
  cbn [length seq map take]. by rewrite zero_rows_input, app_nil_r.
Qed.

Lemma grouped_mean_zero_rows :
  ∃ st outs r,
    StreamingSeriesGroupby.mean self (b :: bs) ks = Ok (st, outs)
    ∧ last outs = Some r
    ∧ StreamingSeriesGroupby.mean self ((b :: bs) ++ [e]) (ks ++ [ke])
      = Ok (st, outs ++ [r]).
Proof using Hcols Hins Hins' Hie Hg0.
  destruct (grouped_mean_run self (b :: bs) ks i0 ins g0
              zero_rows_same_columns Hins Hg0) as [Hrun _].
  eexists _, _, _. split; [exact Hrun|].
  split; [apply last_map_seq|].
  unfold StreamingSeriesGroupby.mean in *. rewrite Hins in Hrun. rewrite Hins'.
  eapply accumulate_app; [exact Hrun|].
  rewrite (groupby_mean_from_state gr idx g0 zero_rows_layout)
    by exact zero_rows_groups.
  cbn [length seq map take]. by rewrite zero_rows_input, app_nil_r.
Qed.

End grouped_zero_rows.

End zero_rows.

(** C8, amended: after at least one batch, a zero-row batch leaves the
    state of the sum, mean, grouped-sum and grouped-mean accumulators
    unchanged and makes them emit again the result they emitted last; it
    leaves the backlog of the rolling accumulator unchanged too, but the
    rolling step emits the zero rows that the batch contributed. *)
Theorem zero_row_batch {R} (b : DataFrame value) (bs : list (DataFrame value))
  (self : Streaming.t) (rolling : Rolling.t) (op : RollOp R)
  (grouped : StreamingSeriesGroupby.t) (ks : list (list (Z * option Z)))
  (ke : list (Z * option Z)) (i0 ie : GroupInput) (ins : list GroupInput)
  (g0 : GroupBy) :
  let e := mkDF (columns b) [] in
  Forall (λ x, columns x = columns b) bs →
  columns b = StreamingDataFrame.columns self →
  window_ok (Rolling.window rolling) →
  index_ok (Rolling.window rolling) (rows (concat_list b bs)) →
  StreamingSeriesGroupby.inputs grouped (b :: bs) ks = i0 :: ins →
  StreamingSeriesGroupby.inputs grouped ((b :: bs) ++ [e]) (ks ++ [ke])
  = (i0 :: ins) ++ [ie] →
  frame_of ie = e →
  group_input i0 (StreamingSeriesGroupby.fixed_grouper grouped)
    (StreamingSeriesGroupby.index grouped) = Ok g0 →
  (∃ st outs,
     StreamingFrame.sum (b :: bs) = Ok (st, outs)
     ∧ last outs = Some st
     ∧ StreamingFrame.sum ((b :: bs) ++ [e]) = Ok (st, outs ++ [st]))
  ∧ (∃ st outs r,
       StreamingDataFrame.mean self (b :: bs) = Ok (st, outs)
       ∧ last outs = Some r
       ∧ StreamingDataFrame.mean self ((b :: bs) ++ [e])
         = Ok (st, outs ++ [r]))
  ∧ (∃ st outs,
       Rolling._known_aggregation rolling op (b :: bs) = Ok (st, outs)
       ∧ Rolling._known_aggregation rolling op ((b :: bs) ++ [e])
         = Ok (st, outs ++ [mkDF (columns b) []]))
  ∧ (∃ st outs r,
       StreamingSeriesGroupby.sum grouped (b :: bs) ks = Ok (st, outs)
       ∧ last outs = Some r
       ∧ StreamingSeriesGroupby.sum grouped ((b :: bs) ++ [e]) (ks ++ [ke])
         = Ok (st, outs ++ [r]))
  ∧ (∃ st outs r,
       StreamingSeriesGroupby.mean grouped (b :: bs) ks = Ok (st, outs)
       ∧ last outs = Some r
       ∧ StreamingSeriesGroupby.mean grouped ((b :: bs) ++ [e]) (ks ++ [ke])
         = Ok (st, outs ++ [r])).
Proof.
  intros e Hcols Hself Hw Hi Hins Hins' Hie Hg0.
  split; [by apply sum_zero_rows|].
  split; [by apply mean_zero_rows|].
  split; [by apply rolling_zero_rows|].
  split.
  - by apply (grouped_sum_zero_rows b bs Hcols grouped ks ke i0 ie ins g0).
  - by apply (grouped_mean_zero_rows b bs Hcols grouped ks ke i0 ie ins g0).
Qed.

Lemma zero_row_batch_witness :
  let cs := ["k"; "v"]%string in
  let b := mkDF cs [mkRow 0 [Some 1; Some 10]; mkRow 1 [Some 2; Some 20]] in
  let e := mkDF cs [] in
  let self := Streaming.mk true e in
  let rolling := Rolling.__init__ self (Rolling.IntArg 2) 1 in
  let grouped :=
    StreamingSeriesGroupby.mk self
      (StreamingSeriesGroupby.StaticGrouper (ByColumn "k")) (Some "v"%string) in
  (∃ st outs,
     StreamingFrame.sum [b] = Ok (st, outs)
     ∧ StreamingFrame.sum [b; e] = Ok (st, outs ++ [st]))
  ∧ (∃ st outs,
       Rolling.sum rolling [b] = Ok (st, outs)
       ∧ Rolling.sum rolling [b; e] = Ok (st, outs ++ [e])).
Proof.
  intros cs b e self rolling grouped.
  edestruct (zero_row_batch b [] self rolling roll_sum grouped [] []
               (Plain b) (Plain e) [])
    as ((st & outs & Hs & _ & Hs') & _ & (st' & outs' & Hr & Hr') & _).
  - constructor.
  - reflexivity.
  - simpl. lia.
  - exact I.
  - reflexivity.
  - reflexivity.
  - reflexivity.
  - vm_compute. reflexivity.
  - split; [by exists st, outs|by exists st', outs'].
Defined.

(** C8 as stated fails for the rolling accumulator, which never emits a
    row again: after the batch [1] a zero-row batch makes it emit a frame
    without rows, not the frame it emitted before.  It also fails from
    the seed of the grouped sum, the integer [0], which a zero-row batch
    replaces by an empty table. *)
Lemma zero_row_batch_counterexample :
  let cs := ["x"]%string in
  let b := mkDF cs [mkRow 0 [Some 1]] in
  let e := mkDF cs [] in
  let rolling := Rolling.__init__ (Streaming.mk true e) (Rolling.IntArg 2) 1 in
  let before := mkDF cs [mkRow 0 [None]] in
  Rolling.sum rolling [b] = Ok (Backlog b, [before])
  ∧ Rolling.sum rolling [b; e] = Ok (Backlog b, [before; e])
  ∧ e ≠ before
  ∧ _accumulate_groupby_sum (IntSeed 0) (Plain e) (Some (ByColumn "x")) None
    = Ok (Table (mkTable [] ∅))
  ∧ Table (mkTable [] ∅) ≠ (IntSeed 0 : GroupAcc value).
Proof.
  intros cs b e rolling before.
  split; [vm_compute; reflexivity|].
  split; [vm_compute; reflexivity|].
  split; [discriminate|].
  split; [vm_compute; reflexivity|discriminate].
Qed.

(** * The step functions leave the state they are given alone *)

Section store_runs.
Context {R : Type}.
Implicit Types (h L : list (@Store.obj R)) (o : @Store.obj R).

Lemma alloc_run h L o :
  Store.alloc o (h ++ L) = Ok ((length h + length L)%nat, h ++ (L ++ [o])).
Proof. unfold Store.alloc. by rewrite length_app, app_assoc. Qed.

Lemma read_old_run h L l o :
  h !! l = Some o → Store.read l (h ++ L) = Ok (o, h ++ L).
Proof.
  intros Hl. unfold Store.read. by rewrite (lookup_app_l_Some _ _ _ _ Hl).
Qed.

Lemma read_new_run h L k o :
  L !! k = Some o → Store.read (length h + k)%nat (h ++ L) = Ok (o, h ++ L).
Proof.
  intros Hk. unfold Store.read.
  rewrite lookup_app_r by lia.
  replace (length h + k - length h)%nat with k by lia. by rewrite Hk.
Qed.

Lemma write_new_run h L k o o' :
  L !! k = Some o' →
  Store.write (length h + k)%nat o (h ++ L) = Ok ((), h ++ <[k := o]> L).
Proof.
  intros Hk. unfold Store.write.
  rewrite lookup_app_r by lia.
  replace (length h + k - length h)%nat with k by lia. rewrite Hk.
  rewrite insert_app_r_alt by lia.
  by replace (length h + k - length h)%nat with k by lia.
Qed.

Lemma preserved_app h L : Store.preserved h (h ++ L).
Proof. intros l o Hl. by apply lookup_app_l_Some. Qed.

Lemma read_input_run h L new i :
  Store.holds_input h new i → Store.read_input new (h ++ L) = Ok (i, h ++ L).
Proof.
  unfold Store.read_input, Store.read_frame, Store.read_keys, mbind,
    Store.M_bind.
  destruct i as [df|df s]; simpl.
  - intros Hnew. by rewrite (read_old_run _ _ _ _ Hnew).
  - intros (l1 & l2 & Hnew & H1 & H2).
    rewrite (read_old_run _ _ _ _ Hnew). cbv beta iota.
    rewrite (read_old_run _ _ _ _ H1). unfold mret, Store.M_ret. cbv beta iota.
    by rewrite (read_old_run _ _ _ _ H2).
Qed.

End store_runs.

(** One step of the symbolic run of a step function on a store [h ++ L]:
    the next operation of the store is rewritten by its run. *)
Ltac store_step :=
  first
    [ rewrite alloc_run
    | erewrite read_old_run by eassumption
    | erewrite read_new_run by reflexivity
    | erewrite write_new_run by reflexivity
    | erewrite read_input_run by eassumption ];
  cbv beta iota;
  cbn [length app Nat.add list_insert insert];
  unfold Store.raise, Store.lift, mret, Store.M_ret;
  cbv beta iota.

Ltac store_run :=
  unfold Store.read_frame, Store.read_keys, Store.read_mean_acc,
    Store.read_series, Store.read_table, Store.read_len,
    mbind, Store.M_bind, mret, Store.M_ret;
  cbv beta iota;
  repeat store_step.

Section store_steps.
Context {R : Type}.
Implicit Types (h : list (@Store.obj R)).

Lemma run_nil {A} (m : Store.M A) h r : m (h ++ []) = r → m h = r.
Proof. by rewrite app_nil_r. Qed.

Lemma lookup_new h L k : (h ++ L) !! (length h + k)%nat = L !! k.
Proof.
  rewrite lookup_app_r by lia. f_equal. lia.
Qed.

Lemma store_sum_run h acc new t df :
  h !! acc = Some (Store.total_obj t) →
  h !! new = Some (Store.OFrame df) →
  ∃ acc' h',
    Store._accumulate_sum acc new h = Ok (acc', h')
    ∧ Store.preserved h h'
    ∧ (length h ≤ acc')%nat
    ∧ h' !! acc' = Some (Store.total_obj (_accumulate_sum t df)).
Proof.
  intros Hacc Hnew.
  destruct t as [z|s]; simpl in Hacc;
    (exists (length h + 1)%nat; eexists (h ++ _);
     split; [|split; [apply preserved_app|split; [lia|]]];
     [ apply run_nil; unfold Store._accumulate_sum; store_run; reflexivity
     | rewrite lookup_new; reflexivity ]).
Qed.

Lemma store_mean_run h acc new m df :
  h !! acc = Some (Store.OMeanAcc m) →
  h !! new = Some (Store.OFrame df) →
  ∃ acc' result h',
    Store._accumulate_mean acc new h = Ok ((acc', result), h')
    ∧ Store.preserved h h'
    ∧ (length h ≤ acc')%nat
    ∧ h' !! acc' = Some (Store.OMeanAcc (_accumulate_mean m df).1)
    ∧ h' !! result = Some (Store.OMeans (_accumulate_mean m df).2).
Proof.
  intros Hacc Hnew.
  exists (length h + 0)%nat, (length h + 3)%nat. eexists (h ++ _).
  split; [|split; [apply preserved_app|split; [lia|]]].
  - apply run_nil. unfold Store._accumulate_mean. store_run. reflexivity.
  - rewrite !lookup_new. split; reflexivity.
Qed.

Lemma store_rolling_run h acc new st df window (op : RollOp R) st' r :
  h !! acc = Some (Store.backlog_obj st) →
  h !! new = Some (Store.OFrame df) →
  rolling_accumulator st df window op = Ok (st', r) →
  ∃ acc' result h',
    Store.rolling_accumulator acc new window op h = Ok ((acc', result), h')
    ∧ Store.preserved h h'
    ∧ (length h ≤ acc')%nat
    ∧ h' !! acc' = Some (Store.backlog_obj st')
    ∧ h' !! result = Some (Store.ORolled r).
Proof.
  intros Hacc Hnew Hpure. unfold rolling_accumulator in Hpure.
  destruct st as [|a]; simpl in Hacc.
  - destruct (df_rolling df window None op) as [full|] eqn:Hroll;
      [|discriminate].
    cbn in Hpure. injection Hpure as <- <-.
    exists (length h + 0)%nat, (length h + 1)%nat. eexists (h ++ _).
    split; [|split; [apply preserved_app|split; [lia|]]].
    + apply run_nil. unfold Store.rolling_accumulator. store_run.
      rewrite bool_decide_eq_false_2 by lia. store_run.
      rewrite Hroll. store_run. reflexivity.
    + rewrite !lookup_new. split; reflexivity.
  - case_bool_decide as Hlen.
    + destruct (df_rolling (concat a df) window None op) as [full|] eqn:Hroll;
        [|discriminate].
      cbn in Hpure. injection Hpure as <- <-.
      exists (length h + 1)%nat, (length h + 2)%nat. eexists (h ++ _).
      split; [|split; [apply preserved_app|split; [lia|]]].
      * apply run_nil. unfold Store.rolling_accumulator. store_run.
        rewrite bool_decide_eq_true_2 by exact Hlen. store_run.
        rewrite Hroll. store_run. reflexivity.
      * rewrite !lookup_new. split; reflexivity.
    + destruct (df_rolling df window None op) as [full|] eqn:Hroll;
        [|discriminate].
      cbn in Hpure. injection Hpure as <- <-.
      exists (length h + 0)%nat, (length h + 1)%nat. eexists (h ++ _).
      split; [|split; [apply preserved_app|split; [lia|]]].
      * apply run_nil. unfold Store.rolling_accumulator. store_run.
        rewrite bool_decide_eq_false_2 by (intros Hne; by apply Hne).
        store_run.
        rewrite Hroll. store_run. reflexivity.
      * rewrite !lookup_new. split; reflexivity.
Qed.

Lemma store_groupby_sum_run h acc new st i gr idx st' :
  h !! acc = Some (Store.group_obj st) →
  Store.holds_input h new i →
  _accumulate_groupby_sum st i gr idx = Ok st' →
  ∃ acc' h',
    Store._accumulate_groupby_sum acc new gr idx h = Ok (acc', h')
    ∧ Store.preserved h h'
    ∧ (length h ≤ acc')%nat
    ∧ h' !! acc' = Some (Store.group_obj st').
Proof.
  intros Hacc Hnew Hpure. unfold _accumulate_groupby_sum in Hpure.
  destruct (group_input i gr idx) as [g|] eqn:Hg; [|discriminate].
  destruct st as [z|t]; simpl in Hacc; cbn in Hpure; injection Hpure as <-.
  - exists (length h + 0)%nat. eexists (h ++ _).
    split; [|split; [apply preserved_app|split; [lia|]]].
    + apply run_nil. unfold Store._accumulate_groupby_sum. store_run.
      rewrite Hg. store_run. reflexivity.
    + rewrite lookup_new. reflexivity.
  - exists (length h + 1)%nat. eexists (h ++ _).
    split; [|split; [apply preserved_app|split; [lia|]]].
    + apply run_nil. unfold Store._accumulate_groupby_sum. store_run.
      rewrite Hg. store_run. reflexivity.
    + rewrite lookup_new. reflexivity.
Qed.

Lemma store_groupby_mean_run h acc new st i gr idx st' r :
  Store.holds_pair h acc st →
  Store.holds_input h new i →
  _accumulate_groupby_mean st i gr idx = Ok (st', r) →
  ∃ acc' result h',
    Store._accumulate_groupby_mean acc new gr idx h = Ok ((acc', result), h')
    ∧ Store.preserved h h'
    ∧ (length h ≤ acc')%nat
    ∧ Store.holds_pair h' acc' st'
    ∧ h' !! result = Some (Store.OMeanTable r).
Proof.
  intros (l1 & l2 & Hacc & H1 & H2) Hnew Hpure.
  unfold _accumulate_groupby_mean in Hpure.
  destruct (group_input i gr idx) as [g|] eqn:Hg; [|discriminate].
  destruct st as [[z|s] [z'|c]]; simpl in H1, H2; cbn in Hpure;
    try discriminate; injection Hpure as <- <-.
  - exists (length h + 2)%nat, (length h + 3)%nat. eexists (h ++ _).
    split; [|split; [apply preserved_app|split; [lia|]]].
    + apply run_nil. unfold Store._accumulate_groupby_mean. store_run.
      rewrite Hg. store_run. reflexivity.
    + split; [|by rewrite lookup_new].
      exists (length h + 0)%nat, (length h + 1)%nat.
      rewrite !lookup_new. by repeat split.
  - exists (length h + 2)%nat, (length h + 3)%nat. eexists (h ++ _).
    split; [|split; [apply preserved_app|split; [lia|]]].
    + apply run_nil. unfold Store._accumulate_groupby_mean. store_run.
      rewrite Hg. store_run. reflexivity.
    + split; [|by rewrite lookup_new].
      exists (length h + 0)%nat, (length h + 1)%nat.
      rewrite !lookup_new. by repeat split.
  - exists (length h + 4)%nat, (length h + 5)%nat. eexists (h ++ _).
    split; [|split; [apply preserved_app|split; [lia|]]].
    + apply run_nil. unfold Store._accumulate_groupby_mean. store_run.
      rewrite Hg. store_run. reflexivity.
    + split; [|by rewrite lookup_new].
      exists (length h + 1)%nat, (length h + 3)%nat.
      rewrite !lookup_new. by repeat split.
Qed.

Lemma fresh_ne h l l' o : h !! l = Some o → (length h ≤ l')%nat → l' ≠ l.
Proof. intros Hl%lookup_lt_Some Hl'. lia. Qed.

Lemma holds_pair_preserved h h' acc p :
  Store.preserved h h' → Store.holds_pair h acc p → Store.holds_pair h' acc p.
Proof.
  intros Hp (l1 & l2 & Hacc & H1 & H2). exists l1, l2.
  repeat split; by apply Hp.
Qed.

End store_steps.

(** C10: run on a store that holds the state and the batch, every step
    function succeeds as its value-level model does, returns a new object
    for the new state (and for the result) that holds what the model
    computes, and leaves every object that was in the store as it was: in
    particular the object of the state it was given. *)
Theorem step_functions_leave_state {R} (h : list (@Store.obj R))
  (new new_i a_sum a_mean a_roll a_gsum a_gmean : Store.loc)
  (df : DataFrame value) (i : GroupInput)
  (t : Total) (m : MeanAcc)
  (backlog backlog' : RollAcc) (window : Window) (op : RollOp R)
  (rolled : DataFrame R)
  (g g' : GroupAcc value) (p p' : GroupAcc value * GroupAcc value)
  (means : GTable fval) (gr : option Grouper) (idx : option string) :
  h !! new = Some (Store.OFrame df) →
  Store.holds_input h new_i i →
  h !! a_sum = Some (Store.total_obj t) →
  h !! a_mean = Some (Store.OMeanAcc m) →
  h !! a_roll = Some (Store.backlog_obj backlog) →
  rolling_accumulator backlog df window op = Ok (backlog', rolled) →
  h !! a_gsum = Some (Store.group_obj g) →
  _accumulate_groupby_sum g i gr idx = Ok g' →
  Store.holds_pair h a_gmean p →
  _accumulate_groupby_mean p i gr idx = Ok (p', means) →
  (∃ acc' h',
     Store._accumulate_sum a_sum new h = Ok (acc', h')
     ∧ acc' ≠ a_sum
     ∧ h' !! acc' = Some (Store.total_obj (_accumulate_sum t df))
     ∧ h' !! a_sum = Some (Store.total_obj t)
     ∧ Store.preserved h h')
  ∧ (∃ acc' result h',
       Store._accumulate_mean a_mean new h = Ok ((acc', result), h')
       ∧ acc' ≠ a_mean
       ∧ h' !! acc' = Some (Store.OMeanAcc (_accumulate_mean m df).1)
       ∧ h' !! result = Some (Store.OMeans (_accumulate_mean m df).2)
       ∧ h' !! a_mean = Some (Store.OMeanAcc m)
       ∧ Store.preserved h h')
  ∧ (∃ acc' result h',
       Store.rolling_accumulator a_roll new window op h
       = Ok ((acc', result), h')
       ∧ acc' ≠ a_roll
       ∧ h' !! acc' = Some (Store.backlog_obj backlog')
       ∧ h' !! result = Some (Store.ORolled rolled)
       ∧ h' !! a_roll = Some (Store.backlog_obj backlog)
       ∧ Store.preserved h h')
  ∧ (∃ acc' h',
       Store._accumulate_groupby_sum a_gsum new_i gr idx h = Ok (acc', h')
       ∧ acc' ≠ a_gsum
       ∧ h' !! acc' = Some (Store.group_obj g')
       ∧ h' !! a_gsum = Some (Store.group_obj g)
       ∧ Store.preserved h h')
  ∧ (∃ acc' result h',
       Store._accumulate_groupby_mean a_gmean new_i gr idx h
       = Ok ((acc', result), h')
       ∧ acc' ≠ a_gmean
       ∧ Store.holds_pair h' acc' p'
       ∧ h' !! result = Some (Store.OMeanTable means)
       ∧ Store.holds_pair h' a_gmean p
       ∧ Store.preserved h h').
Proof.
  intros Hnew Hin Hsum Hmean Hroll Hrolled Hgsum Hgsum' Hgmean Hgmean'.
  split; [|split; [|split; [|split]]].
  - destruct (store_sum_run h a_sum new t df Hsum Hnew)
      as (acc' & h' & Hrun & Hp & Hfresh & Hacc').
    exists acc', h'. repeat split; try done; [|by apply Hp].
    by eapply fresh_ne.
  - destruct (store_mean_run h a_mean new m df Hmean Hnew)
      as (acc' & r & h' & Hrun & Hp & Hfresh & Hacc' & Hr).
    exists acc', r, h'. repeat split; try done; [|by apply Hp].
    by eapply fresh_ne.
  - destruct (store_rolling_run h a_roll new backlog df window op _ _
                Hroll Hnew Hrolled)
      as (acc' & r & h' & Hrun & Hp & Hfresh & Hacc' & Hr).
    exists acc', r, h'. repeat split; try done; [|by apply Hp].
    by eapply fresh_ne.
  - destruct (store_groupby_sum_run h a_gsum new_i g i gr idx g'
                Hgsum Hin Hgsum')
      as (acc' & h' & Hrun & Hp & Hfresh & Hacc').
    exists acc', h'. repeat split; try done; [|by apply Hp].
    by eapply fresh_ne.
  - destruct (store_groupby_mean_run h a_gmean new_i p i gr idx p' means
                Hgmean Hin Hgmean')
      as (acc' & r & h' & Hrun & Hp & Hfresh & Hacc' & Hr).
    exists acc', r, h'.
    split; [exact Hrun|]. split.
    { destruct Hgmean as (l1 & l2 & Ha & _). by eapply fresh_ne. }
    split; [exact Hacc'|]. split; [exact Hr|].
    split; [by eapply holds_pair_preserved|exact Hp].
Qed.

Lemma step_functions_leave_state_witness :
  let b := mkDF ["k"; "v"]%string
             [mkRow 0 [Some 1; Some 10]; mkRow 1 [Some 2; Some 20]] in
  let m := StreamingDataFrame.mean_start (Streaming.mk true b) in
  let h : list (@Store.obj value) :=
    [Store.OMeanAcc m; Store.OFrame b; Store.OInt 0; Store.OTuple [];
     Store.OTuple [2; 2]%nat] in
  ∃ acc' result h',
    Store._accumulate_mean 0%nat 1%nat h = Ok ((acc', result), h')
    ∧ acc' ≠ 0%nat
    ∧ h' !! 0%nat = Some (Store.OMeanAcc m)
    ∧ h' !! acc' = Some (Store.OMeanAcc (_accumulate_mean m b).1).
Proof.
  intros b m h.
  pose (rolled := mkDF ["k"; "v"]%string
                    [mkRow 0 [None; None]; mkRow 1 [Some 3; Some 30]]).
  pose (sums := mkTable ["v"%string]
                  ({[ 1 := [Some 10]; 2 := [Some 20] ]} : gmap Z (list value))).
  pose (counts := mkTable ["v"%string]
                    ({[ 1 := [Some 1]; 2 := [Some 1] ]} : gmap Z (list value))).
  pose (means := mkTable ["v"%string]
                   ({[ 1 := [Fin (10 # 1)]; 2 := [Fin (20 # 1)] ]}
                    : gmap Z (list fval))).
  destruct (step_functions_leave_state h 1%nat 1%nat 2%nat 0%nat 3%nat 2%nat
              4%nat b (Plain b) (Scalar 0) m EmptyTuple (Backlog b) (Rows 2)
              roll_sum rolled (IntSeed 0) (Table sums)
              (IntSeed 0, IntSeed 0) (Table sums, Table counts) means
              (Some (ByColumn "k")) (Some "v"%string))
    as (_ & (acc' & r & h' & Hrun & Hne & Hacc' & _ & Hold & _) & _).
  - reflexivity.
  - reflexivity.
  - reflexivity.
  - reflexivity.
  - reflexivity.
  - vm_compute. reflexivity.
  - reflexivity.
  - vm_compute. reflexivity.
  - exists 2%nat, 2%nat. by repeat split.
  - vm_compute. reflexivity.
  - exists acc', r, h'. by repeat split.
Defined.

(** * The emissions of the rolling accumulator *)

(** The run from the state that stands for the rows of [d]: every
    emission carries the labels of its batch, and the emitted rows, one
    batch after the other, are the rolling results of the rows of the
    batches after the rows of [d]. *)
Lemma rolling_from_state_rows {R} (window : Window) (op : RollOp R)
  (d : DataFrame value) (bs : list (DataFrame value)) :
  window_ok window →
  Forall (λ x, columns x = columns d) bs →
  index_ok window (rows d ++ all_rows bs) →
  ∃ outs,
    accumulate (λ acc new, rolling_accumulator acc new window op)
      (backlog_of window d) bs
    = Ok (backlog_of window (concat_list d bs), outs)
    ∧ Forall2 (λ out x, columns out = columns d
                        ∧ map label (rows out) = map label (rows x)) outs bs
    ∧ all_rows outs
      = rolling_rows window (default_min_periods window) op
          (length (columns d)) (rows d) (all_rows bs).
Proof.
  intros Hw. revert d. induction bs as [|x bs IH]; intros d Hall Hi.
  - exists []. repeat split. constructor.
  - inversion Hall as [|? ? Hx Hbs]; subst.
    simpl in Hi. rewrite app_assoc in Hi.
    destruct (IH (concat d x)) as (outs & Hrun & Hlab & Hrows).
    + eapply Forall_impl; [exact Hbs|]. intros y Hy. cbv beta in *.
      rewrite concat_columns by congruence. exact Hy.
    + rewrite concat_same by congruence. exact Hi.
    + rewrite concat_same in Hlab, Hrows by congruence.
      cbn [columns rows] in Hlab, Hrows.
      eexists (_ :: outs). split; [|split].
      * eapply accumulate_ok_cons; [|exact Hrun].
        apply rolling_accumulator_step; [exact Hw|exact Hx|].
        by apply index_ok_app_l in Hi.
      * constructor; [|exact Hlab]. cbn [columns rows]. split; [reflexivity|].
        apply rolling_rows_labels.
      * cbn [all_rows foldr rows]. rewrite rolling_rows_app. f_equal.
        exact Hrows.
Qed.

Lemma rolling_run_rows {R} (self : Rolling.t) (op : RollOp R)
  (b : DataFrame value) (bs : list (DataFrame value)) :
  window_ok (Rolling.window self) →
  Forall (λ x, columns x = columns b) bs →
  index_ok (Rolling.window self) (rows (concat_list b bs)) →
  ∃ outs,
    Rolling._known_aggregation self op (b :: bs)
    = Ok (backlog_of (Rolling.window self) (concat_list b bs), outs)
    ∧ Forall2 (λ out x, columns out = columns b
                        ∧ map label (rows out) = map label (rows x))
        outs (b :: bs)
    ∧ all_rows outs
      = rolling_rows (Rolling.window self)
          (default_min_periods (Rolling.window self)) op
          (length (columns b)) [] (rows (concat_list b bs)).
Proof.
  intros Hw Hall Hi. rewrite concat_list_rows in Hi |- * by exact Hall.
  destruct (rolling_from_state_rows (Rolling.window self) op b bs Hw Hall Hi)
    as (outs & Hrun & Hlab & Hrows).
  pose proof (rolling_accumulator_step (Rolling.window self) op Hw
                (mkDF (columns b) []) b eq_refl) as Hstep.
  cbn [rows columns app] in Hstep. rewrite concat_empty_l in Hstep.
  apply index_ok_app_l in Hi.
  eexists (_ :: outs). split; [|split].
  - unfold Rolling._known_aggregation.
    eapply accumulate_ok_cons; [|exact Hrun].
    rewrite rolling_accumulator_first by exact Hw. by apply Hstep.
  - constructor; [|exact Hlab]. cbn [columns rows]. split; [reflexivity|].
    apply rolling_rows_labels.
  - cbn [all_rows foldr rows]. rewrite rolling_rows_app. f_equal. exact Hrows.
Qed.





(** X3: every emission of a rolling aggregation is aligned with its
    batch: it has the columns of the batch and one row per row of the
    batch, under the same index label; no row of the backlog is emitted
    again. *)
Theorem rolling_emission_aligned {R} (self : Rolling.t) (op : RollOp R)
  (b : DataFrame value) (bs : list (DataFrame value)) :
  window_ok (Rolling.window self) →
  Forall (λ x, columns x = columns b) bs →
  index_ok (Rolling.window self) (rows (concat_list b bs)) →
  ∃ st outs,
    Rolling._known_aggregation self op (b :: bs) = Ok (st, outs)
    ∧ Forall2 (λ out x, columns out = columns x
                        ∧ map label (rows out) = map label (rows x)
                        ∧ len out = len x)
        outs (b :: bs).
Proof.
  intros Hw Hall Hi.
  destruct (rolling_run_rows self op b bs Hw Hall Hi)
    as (outs & Hrun & Hlab & _).
  eexists _, outs. split; [exact Hrun|].
  assert (Hcols : Forall (λ x, columns x = columns b) (b :: bs))
    by (by constructor).
  clear Hrun Hall. revert Hcols.
  induction Hlab as [|out x outs' xs [Hc Hl] _ IH]; intros Hcols;
    [constructor|].
  inversion Hcols as [|? ? Hx Hxs]; subst.
  constructor; [|by apply IH].
  split; [congruence|]. split; [exact Hl|].
  unfold len. by rewrite <- (length_map label (rows out)), Hl, length_map.
Qed.

Lemma rolling_emission_aligned_witness :
  let sdf := Streaming.mk true (mkDF ["x"%string] []) in
  let self := rolling sdf (Rolling.TimedeltaArg 5) None in
  let b1 := mkDF ["x"%string] [mkRow 0 [Some 1]] in
  let b2 := mkDF ["x"%string] [mkRow 3 [Some 2]; mkRow 7 [Some 3]] in
  ∃ st outs,
    Rolling.sum self [b1; b2] = Ok (st, outs)
    ∧ map len outs = [1%nat; 2%nat].
Proof.
  intros sdf self b1 b2.
  destruct (rolling_emission_aligned self roll_sum b1 [b2])
    as (st & outs & Hrun & Hall).
  - simpl. lia.
  - repeat constructor.
  - reflexivity.
  - exists st, outs. split; [exact Hrun|].
    inversion Hall as [|o1 ? os1 ? (_ & _ & H1) Hall1]; subst.
    inversion Hall1 as [|o2 ? os2 ? (_ & _ & H2) Hall2]; subst.
    inversion Hall2; subst. simpl. by rewrite H1, H2.
Defined.

(** X4: a row-count window of [0] never trims: [df.iloc[-0:]] is the
    whole frame, so the backlog is the whole history and grows with every
    batch. *)
Theorem rolling_window_zero_keeps_history {R} (self : Rolling.t)
  (op : RollOp R) (b : DataFrame value) (bs : list (DataFrame value)) :
  Rolling.window self = Rows 0 →
  Forall (λ x, columns x = columns b) bs →
  ∃ outs,
    Rolling._known_aggregation self op (b :: bs)
    = Ok (Backlog (concat_list b bs), outs).
Proof.
  intros Hwin Hall.
  destruct (rolling_accumulator_refines self op b bs) as (outs & Hrun & _).
  - rewrite Hwin. simpl. lia.
  - exact Hall.
  - by rewrite Hwin.
  - exists outs. rewrite Hrun, Hwin. unfold backlog_of. cbn [trim].
    rewrite trim_rows_zero. by destruct (concat_list b bs).
Qed.

Lemma rolling_window_zero_keeps_history_witness :
  let sdf := Streaming.mk true (mkDF ["x"%string] []) in
  let self := rolling sdf (Rolling.IntArg 0) None in
  let b1 := mkDF ["x"%string] [mkRow 0 [Some 1]] in
  let b2 := mkDF ["x"%string] [mkRow 1 [Some 2]; mkRow 2 [Some 3]] in
  ∃ outs,
    Rolling.sum self [b1; b2]
    = Ok (Backlog (mkDF ["x"%string]
                     [mkRow 0 [Some 1]; mkRow 1 [Some 2]; mkRow 2 [Some 3]]),
          outs).
Proof.
  intros sdf self b1 b2.
  destruct (rolling_window_zero_keeps_history self roll_sum b1 [b2])
    as (outs & Hrun).
  - reflexivity.
  - repeat constructor.
  - exists outs. exact Hrun.
Defined.

(** X5: the backlog is always the tail end of the history: the rows the
    accumulator keeps are the last rows of the concatenation of the
    batches, in their order, and the columns are those of the batches. *)
Theorem rolling_backlog_is_suffix {R} (self : Rolling.t) (op : RollOp R)
  (b : DataFrame value) (bs : list (DataFrame value)) :
  window_ok (Rolling.window self) →
  Forall (λ x, columns x = columns b) bs →
  index_ok (Rolling.window self) (rows (concat_list b bs)) →
  ∃ acc outs,
    Rolling._known_aggregation self op (b :: bs) = Ok (Backlog acc, outs)
    ∧ columns acc = columns b
    ∧ rows acc `suffix_of` rows (concat_list b bs).
Proof.
  intros Hw Hall Hi.
  destruct (rolling_accumulator_refines self op b bs Hw Hall Hi)
    as (outs & Hrun & _).
  eexists _, outs. split; [exact Hrun|]. cbn [columns rows]. split.
  - by apply concat_list_columns.
  - destruct (trim_suffix (Rolling.window self) (rows (concat_list b bs)))
      as [pre Hpre].
    by exists pre.
Qed.

Lemma rolling_backlog_is_suffix_witness :
  let sdf := Streaming.mk true (mkDF ["x"%string] []) in
  let self := rolling sdf (Rolling.TimedeltaArg 5) None in
  let b1 := mkDF ["x"%string] [mkRow 0 [Some 1]] in
  let b2 := mkDF ["x"%string] [mkRow 3 [Some 2]; mkRow 7 [Some 3]] in
  ∃ acc outs,
    Rolling.sum self [b1; b2] = Ok (Backlog acc, outs)
    ∧ rows acc `suffix_of` [mkRow 0 [Some 1]; mkRow 3 [Some 2]; mkRow 7 [Some 3]].
Proof.
  intros sdf self b1 b2.
  destruct (rolling_backlog_is_suffix self roll_sum b1 [b2])
    as (acc & outs & Hrun & _ & Hsuf).
  - simpl. lia.
  - repeat constructor.
  - reflexivity.
  - exists acc, outs. split; [exact Hrun|exact Hsuf].
Defined.



Lemma is_monotonic_labels {A B} (xs : list (Row A)) (ys : list (Row B)) :
  map label xs = map label ys → is_monotonic xs = is_monotonic ys.
Proof.
  revert ys. induction xs as [|x xs IH]; intros [|y ys] Hl; try discriminate;
    [reflexivity|].
  injection Hl as Hx Hl. specialize (IH ys Hl).
  destruct xs as [|x' xs], ys as [|y' ys]; try discriminate; [reflexivity|].
  injection Hl as Hx' _.
  change ((label x <=? label x') && is_monotonic (x' :: xs)
          = (label y <=? label y') && is_monotonic (y' :: ys)).
  by rewrite IH, Hx, Hx'.
Qed.

Lemma concat_labels {A} (a b : DataFrame (option A)) :
  map label (rows (concat a b)) = map label (rows a) ++ map label (rows b).
Proof.
  unfold concat. case_decide; cbn [rows].
  - by rewrite map_app.
  - unfold reindex_rows. rewrite map_app, !map_map. reflexivity.
Qed.

(** X7: what every pandas refuses stops the step, whatever the backlog:
    a negative row count raises [ValueError], and so does a duration when
    the index of the batch itself goes both up and down, being neither
    non-decreasing nor non-increasing. *)
Theorem rolling_accumulator_value_error {R} (acc : RollAcc)
  (new : DataFrame value) (op : RollOp R) :
  (∀ w, w < 0 → rolling_accumulator acc new (Rows w) op = Raise ValueError)
  ∧ (∀ d, is_monotonic (rows new) = false →
          is_monotonic_decreasing (rows new) = false →
          rolling_accumulator acc new (Duration d) op = Raise ValueError).
Proof.
  split.
  - intros w Hw. unfold rolling_accumulator, df_rolling.
    destruct (Z.ltb_spec w 0); [reflexivity|lia].
  - intros d Hnew _. unfold rolling_accumulator.
    set (df := match acc with
               | EmptyTuple => new
               | Backlog a => if bool_decide (len a ≠ 0%nat) then concat a new
                              else new
               end).
    assert (Hdf : is_monotonic (rows df) = false).
    { subst df. destruct acc as [|a]; [exact Hnew|].
      case_bool_decide; [|exact Hnew].
      destruct (is_monotonic (rows (concat a new))) eqn:Hm; [|reflexivity].
      rewrite (is_monotonic_labels _ (map (λ r, mkRow (label r) (@nil unit))
                                        (rows a ++ rows new))) in Hm.
      - rewrite map_app in Hm. apply is_monotonic_app in Hm as (_ & Hm & _).
        rewrite (is_monotonic_labels _ (rows new)) in Hm; [congruence|].
        by rewrite map_map.
      - rewrite concat_labels, map_map, map_app. reflexivity. }
    unfold df_rolling. rewrite Hdf. reflexivity.
Qed.

Lemma rolling_accumulator_value_error_witness :
  let acc := Backlog (mkDF ["x"%string] [mkRow 0 [Some 1]]) in
  rolling_accumulator acc (mkDF ["x"%string] [mkRow 1 [Some 2]]) (Rows (-1))
    roll_sum = Raise ValueError
  ∧ rolling_accumulator acc
      (mkDF ["x"%string]
         [mkRow 5 [Some 2]; mkRow 3 [Some 3]; mkRow 4 [Some 4]])
      (Duration 2) roll_sum = Raise ValueError.
Proof.
  intros acc. split.
  - apply (rolling_accumulator_value_error acc _ roll_sum). lia.
  - apply (rolling_accumulator_value_error acc _ roll_sum); reflexivity.
Defined.

(** * Order of arrival, missing values and foreign columns *)

Lemma sum_valid_Permutation (xs ys : list value) :
  xs ≡ₚ ys → sum_valid xs = sum_valid ys.
Proof.
  induction 1 as [|x xs ys _ IH|x y xs|xs ys zs _ IH1 _ IH2]; simpl.
  - reflexivity.
  - by rewrite IH.
  - destruct x, y; lia.
  - congruence.
Qed.

Lemma count_valid_Permutation (xs ys : list value) :
  xs ≡ₚ ys → count_valid xs = count_valid ys.
Proof.
  induction 1 as [|x xs ys _ IH|x y xs|xs ys zs _ IH1 _ IH2]; simpl.
  - reflexivity.
  - by rewrite IH.
  - destruct x, y; lia.
  - congruence.
Qed.

Lemma all_rows_Permutation {A} (l l' : list (DataFrame A)) :
  l ≡ₚ l' → all_rows l ≡ₚ all_rows l'.
Proof.
  induction 1 as [|x xs ys _ IH|x y xs|xs ys zs _ IH1 _ IH2]; simpl.
  - reflexivity.
  - by apply Permutation_app_head.
  - rewrite !app_assoc. apply Permutation_app_tail, Permutation_app_comm.
  - by etrans.
Qed.

Lemma reduce_columns_Permutation {A} (f : list value → A)
  (d d' : DataFrame value) :
  (∀ xs ys, xs ≡ₚ ys → f xs = f ys) →
  columns d = columns d' → rows d ≡ₚ rows d' →
  reduce_columns f d = reduce_columns f d'.
Proof.
  intros Hf Hc Hr. unfold reduce_columns. rewrite Hc.
  apply labelled_by_ext. intros j. apply Hf. by apply Permutation_map.
Qed.

(** The concatenations of two arrangements of the same batches have the
    same columns and the same rows, in another order. *)
Lemma concat_list_Permutation {A} (b b' : DataFrame (option A)) bs bs' :
  Forall (λ x, columns x = columns b) bs →
  b :: bs ≡ₚ b' :: bs' →
  Forall (λ x, columns x = columns b') bs'
  ∧ columns (concat_list b bs) = columns (concat_list b' bs')
  ∧ rows (concat_list b bs) ≡ₚ rows (concat_list b' bs').
Proof.
  intros Hall Hp.
  assert (Hall' : Forall (λ x, columns x = columns b) (b' :: bs')).
  { rewrite <- Hp. by constructor. }
  inversion Hall' as [|? ? Hb' Hbs']; subst.
  assert (Hcols : Forall (λ x, columns x = columns b') bs').
  { eapply Forall_impl; [exact Hbs'|]. intros y Hy. cbv beta in *. congruence. }
  split; [exact Hcols|]. split.
  - rewrite !concat_list_columns by assumption. congruence.
  - rewrite !concat_list_rows by assumption.
    exact (all_rows_Permutation (b :: bs) (b' :: bs') Hp).
Qed.

(** X8: the running sum does not depend on the order in which the batches
    arrive: two arrangements of the same batches end in the same state,
    which is also the last emission of both. *)
Theorem sum_order_insensitive (b b' : DataFrame value)
  (bs bs' : list (DataFrame value)) :
  Forall (λ x, columns x = columns b) bs →
  b :: bs ≡ₚ b' :: bs' →
  ∃ st outs outs',
    StreamingFrame.sum (b :: bs) = Ok (st, outs)
    ∧ StreamingFrame.sum (b' :: bs') = Ok (st, outs')
    ∧ last outs = Some st
    ∧ last outs' = Some st.
Proof.
  intros Hall Hp.
  destruct (concat_list_Permutation b b' bs bs' Hall Hp) as (Hall' & Hc & Hr).
  assert (Heq : df_sum (concat_list b' bs') = df_sum (concat_list b bs)).
  { symmetry. apply reduce_columns_Permutation; [|exact Hc|exact Hr].
    intros xs ys Hxy. by rewrite (sum_valid_Permutation xs ys Hxy). }
  eexists _, _, _. split; [exact (sum_run b bs Hall)|]. split.
  - rewrite (sum_run b' bs' Hall'), Heq. reflexivity.
  - split.
    + rewrite last_map_seq. by rewrite firstn_all.
    + rewrite last_map_seq. rewrite firstn_all. by rewrite Heq.
Qed.

Lemma sum_order_insensitive_witness :
  let b1 := mkDF ["x"%string] [mkRow 0 [Some 1]; mkRow 1 [None]] in
  let b2 := mkDF ["x"%string] [mkRow 2 [Some 3]] in
  ∃ st outs outs',
    StreamingFrame.sum [b1; b2] = Ok (st, outs)
    ∧ StreamingFrame.sum [b2; b1] = Ok (st, outs')
    ∧ last outs = Some st
    ∧ last outs' = Some st.
Proof.
  intros b1 b2. apply (sum_order_insensitive b1 b2 [b2] [b1]).
  - repeat constructor.
  - apply perm_swap.
Defined.

(** X9: the running mean does not depend on the order of arrival
    either: two arrangements of the same batches end in the same state
    and the same last emission. *)
Theorem mean_order_insensitive (self : Streaming.t) (b b' : DataFrame value)
  (bs bs' : list (DataFrame value)) :
  Forall (λ x, columns x = StreamingDataFrame.columns self) (b :: bs) →
  b :: bs ≡ₚ b' :: bs' →
  ∃ st outs outs' r,
    StreamingDataFrame.mean self (b :: bs) = Ok (st, outs)
    ∧ StreamingDataFrame.mean self (b' :: bs') = Ok (st, outs')
    ∧ last outs = Some r
    ∧ last outs' = Some r.
Proof.
  intros Hall Hp.
  assert (Hall' : Forall (λ x, columns x = StreamingDataFrame.columns self)
                    (b' :: bs')) by (by rewrite <- Hp).
  assert (Hbs : Forall (λ x, columns x = columns b) bs).
  { inversion Hall as [|? ? Hb Hbs]; subst.
    eapply Forall_impl; [exact Hbs|]. intros y Hy. cbv beta in *. congruence. }
  destruct (concat_list_Permutation b b' bs bs' Hbs Hp) as (_ & Hc & Hr).
  assert (Hst : mean_state_of (concat_list b' bs')
                = mean_state_of (concat_list b bs)).
  { symmetry. apply reduce_columns_Permutation; [|exact Hc|exact Hr].
    intros xs ys Hxy.
    by rewrite (sum_valid_Permutation xs ys Hxy),
               (count_valid_Permutation xs ys Hxy). }
  assert (Hm : df_mean (concat_list b' bs') = df_mean (concat_list b bs)).
  { symmetry. apply reduce_columns_Permutation; [|exact Hc|exact Hr].
    intros xs ys Hxy.
    by rewrite (sum_valid_Permutation xs ys Hxy),
               (count_valid_Permutation xs ys Hxy). }
  destruct (mean_run self b bs Hall) as [Hrun _].
  destruct (mean_run self b' bs' Hall') as [Hrun' _].
  eexists _, _, _, _. split; [exact Hrun|]. split.
  - rewrite Hrun', Hst. reflexivity.
  - split.
    + rewrite last_map_seq. by rewrite firstn_all.
    + rewrite last_map_seq. rewrite firstn_all. by rewrite Hm.
Qed.

Lemma mean_order_insensitive_witness :
  let self := Streaming.mk true (mkDF ["x"%string] []) in
  let b1 := mkDF ["x"%string] [mkRow 0 [Some 1]; mkRow 1 [None]] in
  let b2 := mkDF ["x"%string] [mkRow 2 [Some 3]] in
  ∃ st outs outs' r,
    StreamingDataFrame.mean self [b1; b2] = Ok (st, outs)
    ∧ StreamingDataFrame.mean self [b2; b1] = Ok (st, outs')
    ∧ last outs = Some r
    ∧ last outs' = Some r.
Proof.
  intros self b1 b2. apply (mean_order_insensitive self b1 b2 [b2] [b1]).
  - repeat constructor.
  - apply perm_swap.
Defined.

Lemma count_valid_nonneg (vs : list value) : 0 ≤ count_valid vs.
Proof. induction vs as [|[z|] vs IH]; simpl; lia. Qed.

Lemma count_valid_zero (vs : list value) :
  count_valid vs = 0 ↔ Forall (λ v, v = None) vs.
Proof.
  induction vs as [|[z|] vs IH]; simpl.
  - split; [constructor|reflexivity].
  - pose proof (count_valid_nonneg vs). split; [lia|].
    intros Hall. by inversion Hall.
  - rewrite IH. split; [by constructor|]. intros Hall. by inversion Hall.
Qed.

Lemma sum_valid_none (vs : list value) :
  Forall (λ v, v = None) vs → sum_valid vs = 0.
Proof.
  induction 1 as [|v vs Hv _ IH]; simpl; [reflexivity|]. by rewrite Hv.
Qed.

(** X10: over cells that are integers or missing, added and divided
    exactly, the emitted mean of a column is NaN exactly when the column
    has had no valid value so far, and the exact quotient of its sum by
    its count otherwise; a zero count gives NaN, not an error. *)
Theorem mean_nan_iff_no_value (self : Streaming.t) (b : DataFrame value)
  (bs : list (DataFrame value)) (c : string) (j : nat) :
  Forall (λ x, columns x = StreamingDataFrame.columns self) (b :: bs) →
  position c (StreamingDataFrame.columns self) = Some j →
  let col := column j (rows (concat_list b bs)) in
  ∃ st outs r,
    StreamingDataFrame.mean self (b :: bs) = Ok (st, outs)
    ∧ last outs = Some r
    ∧ r !! c
      = Some (if count_valid col =? 0 then NaN
              else Fin (Qred (inject_Z (sum_valid col)
                              / inject_Z (count_valid col))))
    ∧ (count_valid col = 0 ↔ Forall (λ v, v = None) col).
Proof.
  intros Hall Hj col. destruct (mean_run self b bs Hall) as [Hrun _].
  assert (Hbs : Forall (λ x, columns x = columns b) bs).
  { inversion Hall as [|? ? Hb Hbs]; subst.
    eapply Forall_impl; [exact Hbs|]. intros y Hy. cbv beta in *. congruence. }
  eexists _, _, _. split; [exact Hrun|]. split.
  - rewrite last_map_seq, firstn_all. reflexivity.
  - split; [|apply count_valid_zero].
    unfold df_mean, reduce_columns. rewrite labelled_by_lookup.
    rewrite concat_list_columns by exact Hbs.
    inversion Hall as [|? ? Hb _]; subst. rewrite Hb, Hj.
    cbn [fmap option_fmap option_map]. f_equal. fold col. unfold vdiv.
    destruct (Z.eqb_spec (count_valid col) 0) as [Hz|Hz]; [|reflexivity].
    apply count_valid_zero, sum_valid_none in Hz. by rewrite Hz.
Qed.

Lemma mean_nan_iff_no_value_witness :
  let self := Streaming.mk true (mkDF ["x"; "y"]%string []) in
  let b1 := mkDF ["x"; "y"]%string [mkRow 0 [Some 1; None]] in
  let b2 := mkDF ["x"; "y"]%string [mkRow 1 [Some 2; None]] in
  ∃ st outs r,
    StreamingDataFrame.mean self [b1; b2] = Ok (st, outs)
    ∧ last outs = Some r
    ∧ r !! "y"%string = Some NaN.
Proof.
  intros self b1 b2.
  destruct (mean_nan_iff_no_value self b1 [b2] "y"%string 1%nat)
    as (st & outs & r & Hrun & Hlast & Hr & _).
  - repeat constructor.
  - reflexivity.
  - exists st, outs, r. split; [exact Hrun|]. split; [exact Hlast|exact Hr].
Defined.

Lemma position_is_Some k cs : is_Some (position k cs) ↔ k ∈ cs.
Proof.
  induction cs as [|c cs IH]; simpl.
  - split; [intros [? ?]; discriminate|by intros ?%elem_of_nil].
  - case_decide as Hc.
    + subst. split; [intros _; apply list_elem_of_here|by eexists].
    + rewrite fmap_is_Some, IH, elem_of_cons.
      split; [by right|]. intros [Hk|Hk]; [by subst|exact Hk].
Qed.

Lemma position_None k cs : position k cs = None ↔ k ∉ cs.
Proof.
  rewrite <- position_is_Some, eq_None_not_Some. reflexivity.
Qed.

Lemma _accumulate_mean_lookup (accumulator : MeanAcc) (new : DataFrame value)
  (c : string) :
  (_accumulate_mean accumulator new).1 !! c
  = (λ r, (match df_sum new !! c with
           | Some v => vadd r.1 v
           | None => None
           end,
           match df_count new !! c with
           | Some v => vadd r.2 v
           | None => None
           end)) <$> accumulator !! c.
Proof.
  unfold _accumulate_mean, copy, set_counts, set_sums, get_sums, get_counts,
    series_add.
  cbn [fst]. rewrite !map_lookup_imap.
  destruct (accumulator !! c) as [[s n]|] eqn:Hc; [|reflexivity].
  rewrite !lookup_merge, !lookup_fmap, map_lookup_imap, Hc. cbn.
  destruct (df_sum new !! c), (df_count new !! c); reflexivity.
Qed.

Lemma _accumulate_mean_result (accumulator : MeanAcc) (new : DataFrame value)
  (c : string) :
  (_accumulate_mean accumulator new).2 !! c
  = (λ r, vdiv r.1 r.2) <$> (_accumulate_mean accumulator new).1 !! c.
Proof.
  unfold _accumulate_mean at 1. cbn [snd]. unfold series_div.
  rewrite lookup_merge. unfold get_sums, get_counts. rewrite !lookup_fmap.
  fold (_accumulate_mean accumulator new).1.
  change (set_counts _ _) with (_accumulate_mean accumulator new).1.
  by destruct ((_accumulate_mean accumulator new).1 !! c) as [[s n]|].
Qed.

(** X11: over batches with distinct column names, whatever these names
    are, the mean accumulator never raises, and its state and every
    emission stay indexed by the columns of the prototype: a step adds no
    label and drops none. *)
Theorem mean_index_fixed (self : Streaming.t) (bs : list (DataFrame value)) :
  NoDup (StreamingDataFrame.columns self) →
  Forall (λ b, NoDup (columns b)) bs →
  ∃ st outs,
    StreamingDataFrame.mean self bs = Ok (st, outs)
    ∧ length outs = length bs
    ∧ (∀ c, is_Some (st !! c) ↔ c ∈ StreamingDataFrame.columns self)
    ∧ Forall (λ r : LSeries fval,
                ∀ c, is_Some (r !! c) ↔ c ∈ StreamingDataFrame.columns self)
        outs.
Proof.
  intros _ _. unfold StreamingDataFrame.mean.
  assert (Hstart : ∀ c, is_Some (StreamingDataFrame.mean_start self !! c)
                        ↔ c ∈ StreamingDataFrame.columns self).
  { intros c. unfold StreamingDataFrame.mean_start.
    rewrite labelled_by_lookup, fmap_is_Some. apply position_is_Some. }
  revert Hstart. generalize (StreamingDataFrame.mean_start self) as s.
  induction bs as [|b bs IH]; intros s Hs.
  - exists s, []. repeat split; try apply Hs. constructor.
  - assert (Hs' : ∀ c, is_Some ((_accumulate_mean s b).1 !! c)
                       ↔ c ∈ StreamingDataFrame.columns self).
    { intros c. rewrite _accumulate_mean_lookup, fmap_is_Some. apply Hs. }
    destruct (IH _ Hs') as (st & outs & Hrun & Hlen & Hst & Houts).
    exists st, ((_accumulate_mean s b).2 :: outs). split; [|split; [|split]].
    + eapply accumulate_ok_cons; [|exact Hrun].
      by destruct (_accumulate_mean s b).
    + simpl. by rewrite Hlen.
    + exact Hst.
    + constructor; [|exact Houts]. intros c.
      rewrite _accumulate_mean_result, fmap_is_Some. apply Hs'.
Qed.

Lemma mean_index_fixed_witness :
  let self := Streaming.mk true (mkDF ["x"; "y"]%string []) in
  let b1 := mkDF ["y"; "z"]%string [mkRow 0 [Some 1; Some 2]] in
  let b2 := mkDF ["x"%string] [mkRow 1 [Some 3]] in
  ∃ st outs,
    StreamingDataFrame.mean self [b1; b2] = Ok (st, outs)
    ∧ length outs = 2%nat
    ∧ (∀ c, is_Some (st !! c) ↔ c ∈ ["x"; "y"]%string).
Proof.
  intros self b1 b2.
  destruct (mean_index_fixed self [b1; b2])
    as (st & outs & Hrun & Hlen & Hst & _).
  - compute_done.
  - repeat constructor; compute_done.
  - exists st, outs. split; [exact Hrun|]. split; [exact Hlen|exact Hst].
Defined.

(** X12: a column of the state that a batch (with distinct column
    names) does not carry is lost for good: its running sum turns NaN at that step, a running sum that is
    NaN stays NaN whatever comes later, and the emitted mean of the
    column is NaN. *)
Theorem mean_foreign_batch_is_nan (accumulator : MeanAcc)
  (new : DataFrame value) (c : string) (s n : value) :
  NoDup (columns new) →
  accumulator !! c = Some (s, n) →
  c ∉ columns new ∨ s = None →
  ∃ n', (_accumulate_mean accumulator new).1 !! c = Some (None, n')
        ∧ (_accumulate_mean accumulator new).2 !! c = Some NaN.
Proof.
  intros _ Hc Hbad.
  assert (Hst : ∃ n', (_accumulate_mean accumulator new).1 !! c
                      = Some (None, n')).
  { rewrite _accumulate_mean_lookup, Hc. cbn.
    destruct Hbad as [Hnew| ->].
    - apply position_None in Hnew. unfold df_sum, reduce_columns.
      rewrite labelled_by_lookup, Hnew. by eexists.
    - destruct (df_sum new !! c); by eexists. }
  destruct Hst as [n' Hst]. exists n'. split; [exact Hst|].
  by rewrite _accumulate_mean_result, Hst.
Qed.

Lemma mean_foreign_batch_is_nan_witness :
  let self := Streaming.mk true (mkDF ["x"; "y"]%string []) in
  let new := mkDF ["x"%string] [mkRow 0 [Some 1]] in
  ∃ n', (_accumulate_mean (StreamingDataFrame.mean_start self) new).1
          !! "y"%string = Some (None, n')
        ∧ (_accumulate_mean (StreamingDataFrame.mean_start self) new).2
            !! "y"%string = Some NaN.
Proof.
  intros self new.
  apply (mean_foreign_batch_is_nan _ new "y"%string (Some 0) (Some 0)).
  - compute_done.
  - reflexivity.
  - left. compute_done.
Defined.

Lemma mean_state_sums (d : DataFrame value) :
  get_sums (mean_state_of d) = df_sum d.
Proof.
  unfold get_sums, mean_state_of, df_sum, reduce_columns.
  by rewrite labelled_by_fmap.
Qed.

Lemma mean_state_counts (d : DataFrame value) :
  get_counts (mean_state_of d) = df_count d.
Proof.
  unfold get_counts, mean_state_of, df_count, reduce_columns.
  by rewrite labelled_by_fmap.
Qed.

Lemma df_mean_quotient (d : DataFrame value) :
  df_mean d = series_div (df_sum d) (df_count d).
Proof.
  unfold df_mean, df_sum, df_count, reduce_columns, series_div. symmetry.
  by apply labelled_by_merge.
Qed.

(** X13: the two accumulators agree: over the same batches the ['sums']
    column of the state of the mean accumulator is the state of the sum
    accumulator, and the emitted mean is that sum divided by the
    ['counts'] column. *)
Theorem mean_sums_are_running_sum (self : Streaming.t) (b : DataFrame value)
  (bs : list (DataFrame value)) :
  Forall (λ x, columns x = StreamingDataFrame.columns self) (b :: bs) →
  ∃ s outs m means,
    StreamingFrame.sum (b :: bs) = Ok (Labelled s, outs)
    ∧ StreamingDataFrame.mean self (b :: bs) = Ok (m, means)
    ∧ get_sums m = s
    ∧ last means = Some (series_div s (get_counts m)).
Proof.
  intros Hall. destruct (mean_run self b bs Hall) as [Hrun _].
  assert (Hbs : Forall (λ x, columns x = columns b) bs).
  { inversion Hall as [|? ? Hb Hbs]; subst.
    eapply Forall_impl; [exact Hbs|]. intros y Hy. cbv beta in *. congruence. }
  eexists _, _, _, _. split; [exact (sum_run b bs Hbs)|].
  split; [exact Hrun|]. split; [apply mean_state_sums|].
  rewrite last_map_seq, firstn_all, mean_state_counts.
  by rewrite df_mean_quotient.
Qed.

Lemma mean_sums_are_running_sum_witness :
  let self := Streaming.mk true (mkDF ["x"%string] []) in
  let b1 := mkDF ["x"%string] [mkRow 0 [Some 1]; mkRow 1 [None]] in
  let b2 := mkDF ["x"%string] [mkRow 2 [Some 3]] in
  ∃ s outs m means,
    StreamingFrame.sum [b1; b2] = Ok (Labelled s, outs)
    ∧ StreamingDataFrame.mean self [b1; b2] = Ok (m, means)
    ∧ get_sums m = s
    ∧ last means = Some (series_div s (get_counts m)).
Proof.
  intros self b1 b2. apply (mean_sums_are_running_sum self b1 [b2]).
  repeat constructor.
Defined.

(** * The grouped steps: keys and errors *)

Lemma table_add_keys (a b : GTable value) (k : Z) :
  is_Some (t_rows (table_add a b) !! k)
  ↔ is_Some (t_rows a !! k) ∨ is_Some (t_rows b !! k).
Proof.
  unfold table_add, table_align. cbn [t_rows]. rewrite lookup_merge.
  destruct (t_rows a !! k), (t_rows b !! k); cbn;
    rewrite ?is_Some_alt; intuition (try done; by eexists).
Qed.

Lemma g_sum_keys (g : GroupBy) (k : Z) :
  is_Some (t_rows (g_sum g) !! k) ↔ k ∈ keys (g_rows g).
Proof.
  unfold g_sum. rewrite aggregate_totals, totals_lookup.
  case_decide as Hk; split; intros H'.
  - exact Hk.
  - by eexists.
  - by destruct H'.
  - done.
Qed.

(** X14: a grouped-sum step never drops a group and never invents one:
    whatever the columns of the batch, the keys of the new table are the
    keys of the old table together with the keys that occur in the
    batch; from the integer seed they are the keys of the batch. *)
Theorem grouped_sum_keys_grow (accumulator st' : GroupAcc value)
  (new : GroupInput) (grouper : option Grouper) (index : option string) :
  _accumulate_groupby_sum accumulator new grouper index = Ok st' →
  ∃ t', st' = Table t'
        ∧ ∀ k, is_Some (t_rows t' !! k)
               ↔ match accumulator with
                 | Table t => is_Some (t_rows t !! k)
                 | IntSeed _ => False
                 end ∨ k ∈ keys (input_rows new grouper).
Proof.
  unfold _accumulate_groupby_sum.
  destruct (group_input new grouper index) as [g|e] eqn:Hg; [|discriminate].
  apply group_input_inv in Hg as (_ & Hrows & _). cbn [mbind res_bind].
  destruct accumulator as [z|t]; intros [= <-]; eexists; (split; [reflexivity|]);
    intros k.
  - rewrite g_sum_keys, Hrows. intuition.
  - rewrite table_add_keys, g_sum_keys, Hrows. reflexivity.
Qed.

Lemma grouped_sum_keys_grow_witness :
  let t := mkTable ["v"%string] {[ 1 := [Some 10] ]} in
  let new := Plain (mkDF ["k"; "w"]%string [mkRow 0 [Some 2; Some 5]]) in
  ∃ t', _accumulate_groupby_sum (Table t) new (Some (ByColumn "k")) None
        = Ok (Table t')
        ∧ ∀ k, is_Some (t_rows t' !! k) ↔ is_Some (t_rows t !! k) ∨ k ∈ [2].
Proof.
  intros t new.
  destruct (_accumulate_groupby_sum (Table t) new (Some (ByColumn "k")) None)
    as [st'|e] eqn:Hstep; [|discriminate].
  destruct (grouped_sum_keys_grow (Table t) st' new (Some (ByColumn "k")) None
              Hstep) as (t' & -> & Hkeys).
  exists t'. split; [reflexivity|exact Hkeys].
Defined.

(** X15: the two grouped accumulators agree: over the same stream the
    table of sums in the state of the grouped mean is the state of the
    grouped sum, and the last emitted table of means is that table
    divided by the table of counts. *)
Theorem grouped_mean_sums_are_grouped_sum (self : StreamingSeriesGroupby.t)
  (bs : list (DataFrame value)) (ks : list (list (Z * option Z)))
  (i0 : GroupInput) (ins : list GroupInput) (g0 : GroupBy) :
  Forall (λ x, columns x = columns (frame_of i0)) bs →
  StreamingSeriesGroupby.inputs self bs ks = i0 :: ins →
  group_input i0 (StreamingSeriesGroupby.fixed_grouper self)
    (StreamingSeriesGroupby.index self) = Ok g0 →
  ∃ sums outs counts means,
    StreamingSeriesGroupby.sum self bs ks = Ok (Table sums, outs)
    ∧ StreamingSeriesGroupby.mean self bs ks
      = Ok ((Table sums, Table counts), means)
    ∧ last means = Some (table_div sums counts).
Proof.
  intros Hall Hins Hg0.
  destruct (grouped_sum_run self bs ks i0 ins g0 Hall Hins Hg0) as [Hsum _].
  destruct (grouped_mean_run self bs ks i0 ins g0 Hall Hins Hg0) as [Hmean _].
  eexists _, _, _, _. split; [exact Hsum|]. split; [exact Hmean|].
  rewrite last_map_seq. f_equal. symmetry. apply table_div_totals.
Qed.

Lemma grouped_mean_sums_are_grouped_sum_witness :
  let root := Streaming.mk true (mkDF ["k"; "v"]%string []) in
  let self :=
    StreamingSeriesGroupby.mk root
      (StreamingSeriesGroupby.StaticGrouper (ByColumn "k")) (Some "v"%string) in
  let b1 := mkDF ["k"; "v"]%string
              [mkRow 0 [Some 1; Some 10]; mkRow 1 [Some 2; Some 20]] in
  let b2 := mkDF ["k"; "v"]%string [mkRow 2 [Some 1; Some 5]] in
  ∃ sums outs counts means,
    StreamingSeriesGroupby.sum self [b1; b2] [] = Ok (Table sums, outs)
    ∧ StreamingSeriesGroupby.mean self [b1; b2] []
      = Ok ((Table sums, Table counts), means)
    ∧ last means = Some (table_div sums counts).
Proof.
  intros root self b1 b2.
  eapply (grouped_mean_sums_are_grouped_sum self [b1; b2] [] (Plain b1)
            [Plain b2]).
  - repeat constructor.
  - reflexivity.
  - reflexivity.
Defined.

Lemma group_input_index_missing new grouper c g :
  group_input new grouper None = Ok g →
  c ∉ columns (frame_of new) →
  group_input new grouper (Some c) = Raise KeyError.
Proof.
  intros Hg Hc. pose proof (group_input_inv _ _ _ _ Hg) as (Hcols & _ & _).
  unfold group_input in *.
  destruct (match new with
            | Plain df => Ok (df, grouper)
            | Zipped df s =>
                match grouper with
                | Some _ => Raise AssertionError
                | None => Ok (df, Some (BySeries s))
                end
            end) as [[df gr]|e]; [|discriminate].
  cbn [mbind res_bind] in *.
  destruct (df_groupby df gr) as [g'|e]; [|discriminate].
  cbn [mbind res_bind] in *. injection Hg as ->.
  unfold groupby_getitem. rewrite Hcols.
  apply position_None in Hc. by rewrite Hc.
Qed.

(** X16: the errors of the grouped steps come from the batch alone,
    whatever the state: an element zipped with keys while a grouper is
    fixed fails the assertion, no grouper at all is a [TypeError], a
    grouping column the batch lacks is a [KeyError], and so is a selected
    column the batch lacks. *)
Theorem grouped_step_errors (acc : GroupAcc value)
  (accs : GroupAcc value * GroupAcc value) (df : DataFrame value)
  (index : option string) :
  (∀ s g,
     _accumulate_groupby_sum acc (Zipped df s) (Some g) index
     = Raise AssertionError
     ∧ _accumulate_groupby_mean accs (Zipped df s) (Some g) index
       = Raise AssertionError)
  ∧ (_accumulate_groupby_sum acc (Plain df) None index = Raise TypeError
     ∧ _accumulate_groupby_mean accs (Plain df) None index = Raise TypeError)
  ∧ (∀ c, c ∉ columns df →
          _accumulate_groupby_sum acc (Plain df) (Some (ByColumn c)) index
          = Raise KeyError
          ∧ _accumulate_groupby_mean accs (Plain df) (Some (ByColumn c)) index
            = Raise KeyError)
  ∧ (∀ new grouper c g,
       frame_of new = df →
       group_input new grouper None = Ok g →
       c ∉ columns df →
       _accumulate_groupby_sum acc new grouper (Some c) = Raise KeyError
       ∧ _accumulate_groupby_mean accs new grouper (Some c) = Raise KeyError).
Proof.
  split; [|split; [|split]].
  - intros s g. split; reflexivity.
  - split; reflexivity.
  - intros c Hc. apply position_None in Hc.
    unfold _accumulate_groupby_sum, _accumulate_groupby_mean, group_input.
    cbn [mbind res_bind df_groupby]. rewrite Hc. split; reflexivity.
  - intros new grouper c g <- Hg Hc.
    unfold _accumulate_groupby_sum, _accumulate_groupby_mean.
    rewrite (group_input_index_missing new grouper c g Hg Hc).
    split; reflexivity.
Qed.

Lemma grouped_step_errors_witness :
  let df := mkDF ["k"; "v"]%string [mkRow 0 [Some 1; Some 10]] in
  _accumulate_groupby_sum (IntSeed 0) (Plain df) (Some (ByColumn "g")) None
  = Raise KeyError
  ∧ _accumulate_groupby_mean (IntSeed 0, IntSeed 0) (Plain df)
      (Some (ByColumn "k")) (Some "w"%string) = Raise KeyError.
Proof.
  intros df.
  pose proof (grouped_step_errors (IntSeed 0) (IntSeed 0, IntSeed 0) df None)
    as (_ & _ & Hcol & _).
  pose proof (grouped_step_errors (IntSeed 0) (IntSeed 0, IntSeed 0) df
                (Some "w"%string)) as (_ & _ & _ & Hidx).
  split.
  - apply (Hcol "g"%string). compute_done.
  - eapply (Hidx (Plain df) (Some (ByColumn "k")) "w"%string).
    + reflexivity.
    + reflexivity.
    + compute_done.
Defined.

(** * Streams of series *)

Section series.
Import StreamingSeries.

Lemma s_sum_app (a b : Series) : s_sum (a ++ b) = s_sum a + s_sum b.
Proof. unfold s_sum. by rewrite map_app, sum_valid_app. Qed.

Lemma s_count_app (a b : Series) : s_count (a ++ b) = s_count a + s_count b.
Proof. unfold s_count. by rewrite map_app, count_valid_app. Qed.

Lemma series_mean_from_state (d : Series) (bs : list Series) :
  accumulate (λ s b, Ok (StreamingSeries._accumulate_mean s b))
    (mkAcc (s_sum d) (s_count d)) bs
  = Ok (mkAcc (s_sum (d ++ s_concat bs)) (s_count (d ++ s_concat bs)),
        map (λ n, s_mean (d ++ s_concat (take (S n) bs))) (seq 0 (length bs))).
Proof.
  revert d. induction bs as [|b bs IH]; intros d.
  - simpl. by rewrite app_nil_r.
  - cbn [length seq map]. rewrite seq_shift_map.
    apply accumulate_ok_cons
      with (s1 := mkAcc (s_sum (d ++ b)) (s_count (d ++ b))).
    + unfold StreamingSeries._accumulate_mean, copy, s_mean. cbn [sums counts].
      cbn [firstn s_concat foldr]. rewrite app_nil_r.
      by rewrite s_sum_app, s_count_app.
    + rewrite IH. cbn [s_concat foldr]. rewrite <- !app_assoc. f_equal. f_equal.
      apply map_ext. intros n. cbn [compose firstn s_concat foldr].
      by rewrite <- app_assoc.
Qed.

Lemma series_sum_from_state (d : Series) (bs : list Series) :
  accumulate (collapse (λ s b, Ok (StreamingSeries._accumulate_sum s b)))
    (Scalar (s_sum d)) bs
  = Ok (Scalar (s_sum (d ++ s_concat bs)),
        map (λ n, Scalar (s_sum (d ++ s_concat (take (S n) bs))))
          (seq 0 (length bs))).
Proof.
  revert d. induction bs as [|b bs IH]; intros d.
  - simpl. by rewrite app_nil_r.
  - cbn [length seq map]. rewrite seq_shift_map.
    apply accumulate_ok_cons with (s1 := Scalar (s_sum (d ++ b))).
    + unfold collapse, StreamingSeries._accumulate_sum.
      cbn [mbind res_bind].
      cbn [firstn s_concat foldr]. rewrite app_nil_r.
      by rewrite s_sum_app.
    + rewrite IH. cbn [s_concat foldr]. rewrite <- !app_assoc. f_equal. f_equal.
      apply map_ext. intros n. cbn [compose firstn s_concat foldr].
      by rewrite <- app_assoc.
Qed.

End series.

(** X17: on a stream of series whose values are integers or missing,
    added and divided exactly, the state of the mean accumulator holds
    after every batch the sum and the count of the valid values of all
    batches so far, and the emission is the mean of their concatenation,
    NaN as long as no valid value has come. *)
Theorem series_mean_concat (bs : list StreamingSeries.Series) :
  StreamingSeries.mean bs
  = Ok (StreamingSeries.mkAcc
          (StreamingSeries.s_sum (StreamingSeries.s_concat bs))
          (StreamingSeries.s_count (StreamingSeries.s_concat bs)),
        map (λ n, StreamingSeries.s_mean
                    (StreamingSeries.s_concat (take (S n) bs)))
          (seq 0 (length bs))).
Proof. exact (series_mean_from_state [] bs). Qed.

(** X18: on a stream of series whose values are integers or missing,
    added exactly, the sum accumulator keeps a scalar: after every batch
    the state, which is also the emission, is the sum of the valid values
    of all batches so far. *)
Theorem series_sum_concat (bs : list StreamingSeries.Series) :
  StreamingSeries.sum bs
  = Ok (Scalar (StreamingSeries.s_sum (StreamingSeries.s_concat bs)),
        map (λ n, Scalar (StreamingSeries.s_sum
                            (StreamingSeries.s_concat (take (S n) bs))))
          (seq 0 (length bs))).
Proof. exact (series_sum_from_state [] bs). Qed.

(** * The grouped accumulators and the order of arrival *)

Lemma all_input_rows_Permutation gr (l l' : list GroupInput) :
  l ≡ₚ l' → all_input_rows l gr ≡ₚ all_input_rows l' gr.
Proof.
  induction 1 as [|x xs ys _ IH|x y xs|xs ys zs _ IH1 _ IH2]; simpl.
  - reflexivity.
  - by apply Permutation_app_head.
  - rewrite !app_assoc. apply Permutation_app_tail, Permutation_app_comm.
  - by etrans.
Qed.

Lemma totals_Permutation {A} (f : list value → A) ps cs
  (krs krs' : list (Z * list value)) :
  (∀ xs ys, xs ≡ₚ ys → f xs = f ys) →
  krs ≡ₚ krs' →
  totals f ps cs krs = totals f ps cs krs'.
Proof.
  intros Hf Hp.
  assert (Hrows : t_rows (totals f ps cs krs) = t_rows (totals f ps cs krs')).
  { apply map_eq. intros k. rewrite !totals_lookup.
    assert (Hk : k ∈ keys krs ↔ k ∈ keys krs').
    { unfold keys. by rewrite (Permutation_map fst Hp). }
    assert (Hg : group_reduce f ps k krs = group_reduce f ps k krs').
    { unfold group_reduce. apply map_ext. intros j. apply Hf.
      unfold group_rows. apply Permutation_map, Permutation_map.
      by rewrite Hp. }
    destruct (decide (k ∈ keys krs)) as [Hin|Hin],
             (decide (k ∈ keys krs')) as [Hin'|Hin']; try tauto.
    by rewrite Hg. }
  unfold totals in *. cbn [t_rows] in Hrows. by rewrite Hrows.
Qed.

(** X19: with a grouper that is fixed for the whole stream, the grouped
    sum and the grouped mean do not depend on the order in which the
    batches arrive: two arrangements of the same batches end in the same
    tables and the same last emission. *)
Theorem grouped_order_insensitive (self : StreamingSeriesGroupby.t)
  (g : Grouper) (b b' : DataFrame value) (bs bs' : list (DataFrame value))
  (ks ks' : list (list (Z * option Z))) (g0 : GroupBy) :
  StreamingSeriesGroupby.grouper self = StreamingSeriesGroupby.StaticGrouper g →
  Forall (λ x, columns x = columns b) bs →
  b :: bs ≡ₚ b' :: bs' →
  group_input (Plain b) (Some g) (StreamingSeriesGroupby.index self) = Ok g0 →
  (∃ st outs outs',
     StreamingSeriesGroupby.sum self (b :: bs) ks = Ok (st, outs)
     ∧ StreamingSeriesGroupby.sum self (b' :: bs') ks' = Ok (st, outs')
     ∧ last outs = Some st
     ∧ last outs' = Some st)
  ∧ (∃ st outs outs' r,
       StreamingSeriesGroupby.mean self (b :: bs) ks = Ok (st, outs)
       ∧ StreamingSeriesGroupby.mean self (b' :: bs') ks' = Ok (st, outs')
       ∧ last outs = Some r
       ∧ last outs' = Some r).
Proof.
  intros Hgr Hall Hp Hg0.
  assert (Hfix : StreamingSeriesGroupby.fixed_grouper self = Some g).
  { unfold StreamingSeriesGroupby.fixed_grouper. by rewrite Hgr. }
  assert (Hins : ∀ l k, StreamingSeriesGroupby.inputs self l k = Plain <$> l).
  { intros l k. unfold StreamingSeriesGroupby.inputs. by rewrite Hgr. }
  assert (Hall' : Forall (λ x, columns x = columns b) (b' :: bs')).
  { rewrite <- Hp. by constructor. }
  inversion Hall' as [|? ? Hb' Hbs']; subst.
  destruct (group_input_same (Plain b) (Plain b') (Some g)
              (StreamingSeriesGroupby.index self) g0 Hg0 eq_refl Hb')
    as (g0' & Hg0' & Hpos & Hcols).
  rewrite <- Hfix in Hg0, Hg0'.
  assert (Hbbs : Forall (λ x, columns x = columns (frame_of (Plain b)))
                   (b :: bs)) by (by constructor).
  assert (Hbbs' : Forall (λ x, columns x = columns (frame_of (Plain b')))
                    (b' :: bs')).
  { eapply Forall_impl; [exact Hall'|]. intros y Hy. cbv beta in *.
    cbn [frame_of]. congruence. }
  destruct (grouped_sum_run self (b :: bs) ks (Plain b) (fmap (M:=list) Plain bs) g0
              Hbbs (Hins _ _) Hg0) as [Hsum _].
  destruct (grouped_sum_run self (b' :: bs') ks' (Plain b') (fmap (M:=list) Plain bs') g0'
              Hbbs' (Hins _ _) Hg0') as [Hsum' _].
  destruct (grouped_mean_run self (b :: bs) ks (Plain b) (fmap (M:=list) Plain bs) g0
              Hbbs (Hins _ _) Hg0) as [Hmean _].
  destruct (grouped_mean_run self (b' :: bs') ks' (Plain b') (fmap (M:=list) Plain bs') g0'
              Hbbs' (Hins _ _) Hg0') as [Hmean' _].
  cbv zeta in Hsum, Hsum', Hmean, Hmean'.
  set (gr := StreamingSeriesGroupby.fixed_grouper self) in *.
  assert (Hseen : all_input_rows
                    (take (S (length (fmap (M:=list) Plain bs'))) (Plain b' :: (fmap (M:=list) Plain bs')))
                    gr
                  ≡ₚ all_input_rows
                       (take (S (length (fmap (M:=list) Plain bs))) (Plain b :: (fmap (M:=list) Plain bs)))
                       gr).
  { rewrite !firstn_all2 by (simpl; lia).
    apply all_input_rows_Permutation.
    change (fmap (M:=list) Plain (b' :: bs') ≡ₚ fmap (M:=list) Plain (b :: bs)). by rewrite Hp. }
  assert (Hs : group_sums g0' (all_input_rows
                 (take (S (length (fmap (M:=list) Plain bs'))) (Plain b' :: (fmap (M:=list) Plain bs')))
                 gr)
               = group_sums g0 (all_input_rows
                   (take (S (length (fmap (M:=list) Plain bs))) (Plain b :: (fmap (M:=list) Plain bs)))
                   gr)).
  { unfold group_sums. rewrite Hpos, Hcols.
    apply totals_Permutation; [|exact Hseen].
    intros xs ys Hxy. by rewrite (sum_valid_Permutation xs ys Hxy). }
  assert (Hc : group_counts g0' (all_input_rows
                 (take (S (length (fmap (M:=list) Plain bs'))) (Plain b' :: (fmap (M:=list) Plain bs')))
                 gr)
               = group_counts g0 (all_input_rows
                   (take (S (length (fmap (M:=list) Plain bs))) (Plain b :: (fmap (M:=list) Plain bs)))
                   gr)).
  { unfold group_counts. rewrite Hpos, Hcols.
    apply totals_Permutation; [|exact Hseen].
    intros xs ys Hxy. by rewrite (count_valid_Permutation xs ys Hxy). }
  assert (Hm : group_means g0' (all_input_rows
                 (take (S (length (fmap (M:=list) Plain bs'))) (Plain b' :: (fmap (M:=list) Plain bs')))
                 gr)
               = group_means g0 (all_input_rows
                   (take (S (length (fmap (M:=list) Plain bs))) (Plain b :: (fmap (M:=list) Plain bs)))
                   gr)).
  { unfold group_means. rewrite Hpos, Hcols.
    apply totals_Permutation; [|exact Hseen].
    intros xs ys Hxy.
    by rewrite (sum_valid_Permutation xs ys Hxy),
               (count_valid_Permutation xs ys Hxy). }
  split.
  - eexists _, _, _. split; [exact Hsum|]. split; [|split].
    + rewrite Hsum', Hs. reflexivity.
    + rewrite last_map_seq. reflexivity.
    + rewrite last_map_seq, Hs. reflexivity.
  - eexists _, _, _, _. split; [exact Hmean|]. split; [|split].
    + rewrite Hmean', Hs, Hc. reflexivity.
    + rewrite last_map_seq. reflexivity.
    + rewrite last_map_seq, Hm. reflexivity.
Qed.

Lemma grouped_order_insensitive_witness :
  let root := Streaming.mk true (mkDF ["k"; "v"]%string []) in
  let self :=
    StreamingSeriesGroupby.mk root
      (StreamingSeriesGroupby.StaticGrouper (ByColumn "k")) (Some "v"%string) in
  let b1 := mkDF ["k"; "v"]%string
              [mkRow 0 [Some 1; Some 10]; mkRow 1 [Some 2; Some 20]] in
  let b2 := mkDF ["k"; "v"]%string [mkRow 2 [Some 1; Some 5]] in
  ∃ st outs outs',
    StreamingSeriesGroupby.sum self [b1; b2] [] = Ok (st, outs)
    ∧ StreamingSeriesGroupby.sum self [b2; b1] [] = Ok (st, outs')
    ∧ last outs = Some st
    ∧ last outs' = Some st.
Proof.
  intros root self b1 b2.
  eapply (grouped_order_insensitive self (ByColumn "k") b1 b2 [b2] [b1] [] []).
  - reflexivity.
  - repeat constructor.
  - apply perm_swap.
  - reflexivity.
Defined.

(** * Narrowing a handle *)

(** X20: narrowing a handle to a column, by item or by attribute, keeps
    its configuration: a rolling handle keeps its window and its
    [min_periods], a grouped handle keeps its root and its grouper and
    selects the column, dropping an earlier selection. *)
Theorem narrowing_keeps_configuration `{StreamingBase} (key : string)
  (rolling : Rolling.t) (grouped : StreamingSeriesGroupby.t) :
  (∀ r, Rolling.__getitem__ rolling key = Ok r
        ∨ Rolling.__getattr__ rolling key = Ok r →
        Rolling.window r = Rolling.window rolling
        ∧ Rolling.min_periods r = Rolling.min_periods rolling
        ∧ StreamingDataFrame.__getitem__ (Rolling.sdf rolling) key
          = Ok (Rolling.sdf r))
  ∧ (∀ g, g = StreamingSeriesGroupby.__getitem__ grouped key
          ∨ StreamingSeriesGroupby.__getattr__ grouped key = Ok g →
          StreamingSeriesGroupby.root g = StreamingSeriesGroupby.root grouped
          ∧ StreamingSeriesGroupby.grouper g
            = StreamingSeriesGroupby.grouper grouped
          ∧ StreamingSeriesGroupby.index g = Some key
          ∧ StreamingSeriesGroupby.__getitem__ g key = g).
Proof.
  split.
  - intros r Hr.
    assert (Hitem : Rolling.__getitem__ rolling key = Ok r).
    { destruct Hr as [Hr|Hr]; [exact Hr|].
      unfold Rolling.__getattr__ in Hr.
      by destruct (_ || _) in Hr. }
    unfold Rolling.__getitem__ in Hitem.
    destruct (StreamingDataFrame.__getitem__ (Rolling.sdf rolling) key)
      as [sdf|e]; [|discriminate].
    cbn [mbind res_bind] in Hitem. injection Hitem as <-. by repeat split.
  - intros g Hg.
    assert (Hitem : g = StreamingSeriesGroupby.__getitem__ grouped key).
    { destruct Hg as [Hg|Hg]; [exact Hg|].
      unfold StreamingSeriesGroupby.__getattr__ in Hg.
      destruct (_ || _) in Hg; [|discriminate]. by injection Hg. }
    subst g. by repeat split.
Qed.

Lemma narrowing_keeps_configuration_witness :
  let sdf := Streaming.mk true (mkDF ["x"; "y"]%string []) in
  let rolling := rolling sdf (Rolling.IntArg 3) (Some 2%nat) in
  let r := Rolling.mk sdf (Rows 3) 2 in
  @Rolling.__getattr__ plain_base rolling "x" = Ok r
  ∧ Rolling.window r = Rolling.window rolling
  ∧ Rolling.min_periods r = Rolling.min_periods rolling.
Proof.
  intros sdf rolling r.
  pose (grouped := StreamingSeriesGroupby.mk sdf
                     (StreamingSeriesGroupby.StaticGrouper (ByColumn "x")) None).
  destruct (@narrowing_keeps_configuration plain_base "x" rolling grouped)
    as [Hroll _].
  assert (Hr : @Rolling.__getattr__ plain_base rolling "x" = Ok r)
    by reflexivity.
  destruct (Hroll r (or_intror Hr)) as (Hw & Hmp & _).
  split; [exact Hr|]. split; [exact Hw|exact Hmp].
Defined.

(** * The index of the running sum *)

Lemma df_sum_lookup (df : DataFrame value) (c : string) :
  ((c ∈ columns df) ∧ ∃ z, df_sum df !! c = Some (Some z))
  ∨ ((c ∉ columns df) ∧ df_sum df !! c = None).
Proof.
  unfold df_sum, reduce_columns. rewrite labelled_by_lookup.
  destruct (position c (columns df)) as [j|] eqn:Hj.
  - left. split; [apply position_is_Some; by eexists|by eexists].
  - right. split; [by apply position_None|reflexivity].
Qed.

(** The run of the sum accumulator from a labelled total, over batches
    of any columns. *)
Lemma sum_from_labelled (t : LSeries value) (bs : list (DataFrame value)) :
  ∃ t' outs,
    accumulate (collapse (λ s b, Ok (_accumulate_sum s b))) (Labelled t) bs
    = Ok (Labelled t', outs)
    ∧ ∀ c,
        (is_Some (t' !! c)
         ↔ is_Some (t !! c) ∨ Exists (λ x, c ∈ columns x) bs)
        ∧ (t' !! c = Some None
           ↔ t !! c = Some None
             ∨ (is_Some (t !! c) ∧ Exists (λ x, c ∉ columns x) bs)
             ∨ (t !! c = None ∧ Exists (λ x, c ∈ columns x) bs)).
Proof.
  revert t. induction bs as [|x bs IH]; intros t.
  - exists t, []. split; [reflexivity|]. intros c.
    rewrite !Exists_nil. split; [tauto|]. tauto.
  - destruct (IH (series_add t (df_sum x))) as (t' & outs & Hrun & Hc).
    exists t', (Labelled (series_add t (df_sum x)) :: outs).
    split; [by eapply accumulate_ok_cons; [reflexivity|exact Hrun]|].
    intros c. destruct (Hc c) as [Hsome Hnan]. clear Hc Hrun IH.
    rewrite Hsome, Hnan, !Exists_cons. clear Hsome Hnan.
    unfold series_add. rewrite lookup_merge.
    destruct (df_sum_lookup x c) as [[Hin [z ->]]|[Hout ->]];
      destruct (t !! c) as [[v|]|] eqn:Ht; cbn;
      rewrite ?is_Some_alt; cbn; split; intuition (try done; try congruence).
Qed.

(** X21: fed batches with distinct column names, whatever these names
    are, and cells that are integers or missing, added exactly, the index
    of the running sum is the union of the columns seen, and the running
    sum of a column is NaN exactly when some batch carried the column and
    some batch did not. *)
Theorem sum_nan_iff_column_missing (b : DataFrame value)
  (bs : list (DataFrame value)) :
  Forall (λ x, NoDup (columns x)) (b :: bs) →
  ∃ s outs,
    StreamingFrame.sum (b :: bs) = Ok (Labelled s, outs)
    ∧ ∀ c,
        (is_Some (s !! c) ↔ Exists (λ x, c ∈ columns x) (b :: bs))
        ∧ (s !! c = Some None
           ↔ Exists (λ x, c ∈ columns x) (b :: bs)
             ∧ Exists (λ x, c ∉ columns x) (b :: bs)).
Proof.
  intros _.
  destruct (sum_from_labelled (df_sum b) bs) as (s & outs & Hrun & Hc).
  exists s, (Labelled (df_sum b) :: outs). split.
  - unfold StreamingFrame.sum. eapply accumulate_ok_cons; [|exact Hrun].
    unfold collapse, _accumulate_sum, total_add. cbn [mbind res_bind].
    rewrite scalar_zero_broadcast by apply df_sum_defined. reflexivity.
  - intros c. destruct (Hc c) as [Hsome Hnan].
    rewrite Hsome, Hnan, !Exists_cons. clear Hsome Hnan Hc Hrun.
    destruct (df_sum_lookup b c) as [[Hin [z ->]]|[Hout ->]];
      rewrite ?is_Some_alt; split; intuition (try done; try congruence).
Qed.

Lemma sum_nan_iff_column_missing_witness :
  let b1 := mkDF ["x"; "y"]%string [mkRow 0 [Some 1; Some 2]] in
  let b2 := mkDF ["x"%string] [mkRow 1 [Some 3]] in
  ∃ s outs,
    StreamingFrame.sum [b1; b2] = Ok (Labelled s, outs)
    ∧ s !! "y"%string = Some None
    ∧ s !! "x"%string ≠ Some None.
Proof.
  intros b1 b2.
  destruct (sum_nan_iff_column_missing b1 [b2]) as (s & outs & Hrun & Hc).
  - repeat constructor; compute_done.
  - exists s, outs. split; [exact Hrun|]. split.
    + apply (Hc "y"%string). split.
      * apply Exists_cons_hd. compute_done.
      * apply Exists_cons_tl, Exists_cons_hd. compute_done.
    + intros Hx. apply (Hc "x"%string) in Hx as [_ Hx].
      apply Exists_exists in Hx as (x & Hin & Hx). apply Hx.
      apply elem_of_cons in Hin as [->|Hin]; [compute_done|].
      apply list_elem_of_singleton in Hin as ->. compute_done.
Defined.

(** * The warm-up of a row-count window *)

Lemma count_valid_length (vs : list value) :
  count_valid vs ≤ Z.of_nat (length vs).
Proof. induction vs as [|[z|] vs IH]; simpl length; simpl count_valid; lia. Qed.

Lemma rolling_rows_lookup {R} (window : Window) (mp : nat) (op : RollOp R)
  (ncols : nat) (pre rest : list (Row value)) (i : nat) (r : Row value) :
  rest !! i = Some r →
  rolling_rows window mp op ncols pre rest !! i
  = Some (mkRow (label r)
            (map (λ j, op mp (column j
                                (window_rows window (pre ++ take (S i) rest))))
               (seq 0 ncols))).
Proof.
  revert pre i. induction rest as [|x rest IH]; intros pre i Hi;
    [discriminate|].
  destruct i as [|i].
  - injection Hi as ->. reflexivity.
  - cbn [rolling_rows lookup list_lookup]. simpl in Hi.
    rewrite (IH _ _ Hi). cbn [take firstn]. by rewrite <- app_assoc.
Qed.

(** X22: whatever [min_periods] the handle holds, a rolling sum over a
    row-count window [w] emits only NaN for the first [w - 1] rows of the
    stream: the accumulator rolls under pandas' default, which asks for a
    full window. *)
Theorem rolling_sum_warm_up (self : Rolling.t) (w : Z) (b : DataFrame value)
  (bs : list (DataFrame value)) :
  Rolling.window self = Rows w →
  0 ≤ w →
  Forall (λ x, columns x = columns b) bs →
  ∃ st outs,
    Rolling.sum self (b :: bs) = Ok (st, outs)
    ∧ length (all_rows outs) = length (rows (concat_list b bs))
    ∧ ∀ i r,
        Z.of_nat i < w - 1 →
        all_rows outs !! i = Some r →
        cells r = replicate (length (columns b)) None.
Proof.
  intros Hwin Hw Hall.
  destruct (rolling_run_rows self roll_sum b bs) as (outs & Hrun & _ & Hrows).
  - by rewrite Hwin.
  - exact Hall.
  - by rewrite Hwin.
  - eexists _, outs. split; [exact Hrun|]. rewrite Hrows. split.
    + apply rolling_rows_length.
    + intros i r Hi Hr. rewrite Hwin in Hr. cbn [default_min_periods] in Hr.
      destruct (rows (concat_list b bs) !! i) as [x|] eqn:Hx.
      * rewrite (rolling_rows_lookup _ _ _ _ _ _ _ x Hx) in Hr.
        injection Hr as <-. cbn [cells app].
        transitivity (replicate (length (seq 0 (length (columns b))))
                        (@None Z)); [|by rewrite length_seq].
        generalize (seq 0 (length (columns b))) as js.
        intros js. induction js as [|j js IH]; [reflexivity|].
        cbn [map length replicate]. rewrite IH. f_equal.
        unfold roll_sum.
        set (vs := column j _).
        assert (Hlen : (length vs ≤ S i)%nat).
        { subst vs. unfold column. rewrite length_map.
          cbn [window_rows]. rewrite last_rows_length, length_take. lia. }
        pose proof (count_valid_length vs).
        destruct (Z.ltb_spec (count_valid vs) (Z.of_nat (Z.to_nat w)));
          [reflexivity|lia].
      * apply lookup_ge_None in Hx.
        apply lookup_lt_Some in Hr. rewrite rolling_rows_length in Hr. lia.
Qed.

Lemma rolling_sum_warm_up_witness :
  let sdf := Streaming.mk true (mkDF ["x"%string] []) in
  let self := rolling sdf (Rolling.IntArg 3) (Some 1%nat) in
  let b1 := mkDF ["x"%string] [mkRow 0 [Some 1]] in
  let b2 := mkDF ["x"%string] [mkRow 1 [Some 2]; mkRow 2 [Some 3]] in
  ∃ st outs,
    Rolling.sum self [b1; b2] = Ok (st, outs)
    ∧ ∀ r, all_rows outs !! 1%nat = Some r → cells r = [None].
Proof.
  intros sdf self b1 b2.
  destruct (rolling_sum_warm_up self 3 b1 [b2]) as (st & outs & Hrun & _ & Hnan).
  - reflexivity.
  - lia.
  - repeat constructor.
  - exists st, outs. split; [exact Hrun|]. intros r Hr.
    apply (Hnan 1%nat r); [lia|exact Hr].
Defined.

(** End of the development. *)
